(** * Asset-allocation skill: percentile scoring, position sizing, screening

    A shallow embedding of the numeric core of the repository:

    - [Strategy]: [src/asset_allocation_skill/strategy.py], the methods of
      [NonlinearTwoStepInvestmentStrategy] that score a valuation series
      ([winsorize], [calculate_weighted_percentile]), rank the loaded ETFs
      ([select_top_etfs]) and normalise the weights
      ([calculate_nonlinear_weights]);
    - [Sizer]: the method [nonlinear_position_sizing] of the same class;
    - [Screener]: [src/sw_lv2_selector.py], the composite screener;
    - [Planner]: the method [calculate_market_valuation] of the strategy;
    - [Router]: [src/intelligent_selector_router.py], which chooses between
      the two screeners;
    - [Enforcer]: the execution log of [src/script_execution_enforcer.py];
    - [Double]: the scoring step of [select_top_etfs] and the sigmoid branch
      of [nonlinear_position_sizing] once more, in binary64 arithmetic.

    Numbers.  Python and numpy floats are idealised as exact numbers: the
    rationals [Q] wherever the code only adds, multiplies, divides and
    compares (so that every model evaluates), and the reals [R] for the
    position sizer, which needs [np.exp] and a fractional power.  IEEE
    rounding, overflow and NaN arithmetic are outside these models; a NaN
    cell of a data frame is [None].  Results over [Q] are compared with
    [==].  The exact models follow the program where no float leaves its
    range: for a decay factor in (0,1] (a larger one makes
    [lambda_decay ** (T - t)] raise OverflowError on a long series), a
    positive aggressiveness ([0.7 / aggressiveness] raises
    ZeroDivisionError at 0) and percentiles in [0,100].  Rounding can still
    turn a strict inequality of the exact model into an equality of the
    program; [Double] computes two such places with the primitive binary64
    floats.

    Exceptions.  A Python function that can raise is a function into
    [res A]: [Ok a] is a normal return, [Raise e] an exception. *)

From Stdlib Require Import String.
From Stdlib Require Import QArith Qround Qminmax Qpower ZArith List Bool.
From Stdlib Require Import Lia Lqa Permutation Sorted.
From Stdlib Require Import Reals Lra Qreals.
From Stdlib Require Import Floats.
Import ListNotations.

(** ** Exceptions *)

Inductive exn : Type :=
| ValueError
| ZeroDivisionError
| TypeError.

Inductive res (A : Type) : Type :=
| Ok (a : A)
| Raise (e : exn).

Arguments Ok {A} a.
Arguments Raise {A} e.

Definition bind {A B : Type} (c : res A) (k : A -> res B) : res B :=
  match c with
  | Ok a => k a
  | Raise e => Raise e
  end.

Notation "x <- c ;; k" := (bind c (fun x => k))
  (at level 61, c at next level, right associativity).

(** [[f(x) for x in l]] where [f] may raise: the first exception wins. *)
Fixpoint mapM {A B : Type} (f : A -> res B) (l : list A) : res (list B) :=
  match l with
  | [] => Ok []
  | x :: l' => y <- f x ;; ys <- mapM f l' ;; Ok (y :: ys)
  end.

(** ** Python and numpy primitives over [Q] *)

Module Py.
Local Open Scope Q_scope.

Definition Qlt_bool (x y : Q) : bool := negb (Qle_bool y x).

(** [a / b] on Python floats raises [ZeroDivisionError] when [b] is zero. *)
Definition truediv (a b : Q) : res Q :=
  if Qeq_bool b 0 then Raise ZeroDivisionError else Ok (a / b).

(** The builtin [sum]: a left fold that starts from [0]. *)
Definition sum (l : list Q) : Q := fold_left Qplus l 0.

(** [b ** n] for a natural exponent.  (On floats a result out of range
    raises OverflowError; a base in [-1,1] cannot produce one.) *)
Definition pow (b : Q) (n : nat) : Q := b ^ Z.of_nat n.

(** A stable sort, parameterised by "[x] may stay in front of [y]".
    [sorted(l, key=k)] is [sort_by (fun x y => k x <= k y)] and
    [sorted(l, key=k, reverse=True)] is [sort_by (fun x y => k y <= k x)]:
    both keep elements with equal keys in their original order. *)
Section Sort.
Context {A : Type} (before : A -> A -> bool).

Fixpoint insert (x : A) (l : list A) : list A :=
  match l with
  | [] => [x]
  | y :: l' => if before x y then x :: y :: l' else y :: insert x l'
  end.

Definition sort_by (l : list A) : list A := fold_right insert [] l.
End Sort.

(** [np.percentile(a, q)] with the default linear interpolation: the value
    at the virtual index [(n-1) * q/100] of the sorted array.  It raises
    [ValueError] when [q] is outside [[0, 100]].  (On an empty array numpy
    yields nan; [winsorize] never calls it there.) *)
Definition np_percentile (a : list Q) (q : Q) : res Q :=
  if negb (Qle_bool 0 q && Qle_bool q 100) then Raise ValueError
  else
    let s := sort_by Qle_bool a in
    let n := Z.of_nat (length a) in
    let virtual_index := inject_Z (n - 1) * (q / 100) in
    let previous := Qfloor virtual_index in
    let next := Z.min (previous + 1) (n - 1) in
    let gamma := virtual_index - inject_Z previous in
    let lo := nth (Z.to_nat previous) s 0 in
    let hi := nth (Z.to_nat next) s 0 in
    Ok (lo + gamma * (hi - lo)).

(** [np.clip(a, a_min, a_max)] is [minimum(a_max, maximum(a, a_min))]. *)
Definition clip1 (a_min a_max x : Q) : Q := Qmin a_max (Qmax x a_min).
Definition np_clip (a : list Q) (a_min a_max : Q) : list Q :=
  map (clip1 a_min a_max) a.

End Py.

(** ** strategy.py: the percentile scorer and the allocation planner *)

Module Strategy.
Import Py.
Local Open Scope Q_scope.

(** The fields of [self] that the scorer reads. *)
Record config : Type := {
  lambda_decay : Q;
  winsorize_pct : Q
}.

(** [winsorize(self, data, pct)] *)
Definition winsorize (data : list Q) (pct : Q) : res (list Q) :=
  match data with
  | [] => Ok data
  | _ =>
      lower_bound <- np_percentile data (pct * 100) ;;
      upper_bound <- np_percentile data ((1 - pct) * 100) ;;
      Ok (np_clip data lower_bound upper_bound)
  end.

(** What [calculate_weighted_percentile] returns: the bare float [0.0] of
    the empty branch, or the pair [(weighted_percentile, current_value)]. *)
Inductive pyvalue : Type :=
| PFloat (x : Q)
| PTuple (weighted_percentile current_value : Q).

(** [data[column].iloc[-1]] on a non-empty column. *)
Definition iloc_last (values : list Q) : Q := last values 0.

(** [winsorized_current]: the current value, passed through [winsorize] as
    a one-element array. *)
Definition winsorized_current (self : config) (values : list Q) : res Q :=
  w <- winsorize [iloc_last values] (winsorize_pct self) ;;
  Ok (nth 0 w 0).

(** The loop [for t in range(T)]: the weight of index [t] is
    [lambda_decay ** (T - t)].  (The model of the program for a decay
    factor in (0,1], where no power overflows.) *)
Definition weights (self : config) (T : nat) : list Q :=
  map (fun t => pow (lambda_decay self) (T - t)) (seq 0 T).

Definition indicators (winsorized_values : list Q) (wcur : Q) (T : nat)
  : list Q :=
  map (fun t => if Qlt_bool (nth t winsorized_values 0) wcur then 1 else 0)
      (seq 0 T).

(** [sum(w * i for w, i in zip(weights, indicators))] *)
Definition weighted_sum (ws inds : list Q) : Q :=
  sum (map (fun wi => fst wi * snd wi) (combine ws inds)).

(** [calculate_weighted_percentile(self, data, column)], on the values of
    the chosen column. *)
Definition calculate_weighted_percentile (self : config) (values : list Q)
  : res pyvalue :=
  match values with
  | [] => Ok (PFloat 0)
  | _ =>
      let current_value := iloc_last values in
      winsorized_values <- winsorize values (winsorize_pct self) ;;
      wcur <- winsorized_current self values ;;
      let T := length values in
      let ws := weights self T in
      let inds := indicators winsorized_values wcur T in
      let total_weight := sum ws in
      weighted_percentile <-
        (if Qlt_bool 0 total_weight
         then r <- truediv (weighted_sum ws inds) total_weight ;; Ok (r * 100)
         else Ok 50) ;;
      Ok (PTuple weighted_percentile current_value)
  end.

(** [calculate_valuation_percentile(self, data, column)] *)
Definition calculate_valuation_percentile (self : config) (values : list Q)
  : res pyvalue :=
  calculate_weighted_percentile self values.

(** One entry of [etf_scores] in [select_top_etfs]. *)
Record etf_score : Type := {
  name : string;
  percentile : Q;
  current_value : Q;
  valuation_score : Q;
  momentum_score : Q;
  volatility_score : Q;
  total_score : Q;
  latest_price : Q
}.

(** The tuple assignment [percentile, current_val = ...]: unpacking a bare
    float raises [TypeError]. *)
Definition unpack_pair (v : pyvalue) : res (Q * Q) :=
  match v with
  | PTuple p c => Ok (p, c)
  | PFloat _ => Raise TypeError
  end.

(** The body of the loop of [select_top_etfs] for one item of
    [self.etf_data].  (The scores in exact arithmetic; [Double.score_etf]
    below has the same arithmetic on doubles.) *)
Definition score_etf (self : config) (item : string * list Q)
  : res etf_score :=
  let (etf_name, data) := item in
  v <- calculate_valuation_percentile self data ;;
  pc <- unpack_pair v ;;
  let (pct, current_val) := pc in
  let valuation_score := 100 - pct in
  let momentum_score := 10 in
  let volatility_score := 5 in
  let total_score :=
    valuation_score * (8 # 10) + momentum_score * (1 # 10)
    + volatility_score * (1 # 10) in
  Ok {| name := etf_name;
        percentile := pct;
        current_value := current_val;
        valuation_score := valuation_score;
        momentum_score := momentum_score;
        volatility_score := volatility_score;
        total_score := total_score;
        latest_price := current_val |}.

(** [sorted(etf_scores, key=lambda x: x['total_score'], reverse=True)] *)
Definition sort_by_total_score_desc (l : list etf_score) : list etf_score :=
  sort_by (fun x y => Qle_bool (total_score y) (total_score x)) l.

(** [select_top_etfs(self, n_select, valuation_col)]; [self.etf_data] is a
    dict, iterated in insertion order: a list of (name, column) pairs. *)
Definition select_top_etfs (self : config) (etf_data : list (string * list Q))
    (n_select : nat) : res (list etf_score) :=
  etf_scores <- mapM (score_etf self) etf_data ;;
  let etf_scores := sort_by_total_score_desc etf_scores in
  Ok (firstn n_select etf_scores).

(** [calculate_nonlinear_weights(self, selected_etfs)].  (For percentiles
    in [0,100], as the scorer returns them, every square is in [0,4].) *)
Definition calculate_nonlinear_weights (selected_etfs : list etf_score)
  : res (list Q) :=
  let percentiles := map percentile selected_etfs in
  let weights_raw := map (fun p => pow ((100 - p) / 50) 2) percentiles in
  let total := sum weights_raw in
  mapM (fun w => truediv w total) weights_raw.

End Strategy.

(** ** strategy.py: the position sizer, over the reals *)

Module Sizer.
Local Open Scope R_scope.

(** [b ** e] on floats, for a base [b >= 0]: [0 ** 0] is [1] and [0 ** e]
    is [0] for [e > 0].  (A negative base, or base [0] with a negative
    exponent, gives no real number in numpy; the sizer reaches neither for a
    percentile of at most 100 and a positive aggressiveness.) *)
Definition float_pow (b e : R) : R :=
  if Req_dec_T b 0 then (if Req_dec_T e 0 then 1 else 0) else Rpower b e.

(** [np.interp(x, xp, fp)], the points given as pairs: constant outside the
    range of [xp], linear between two neighbours. *)
Fixpoint interp_from (x : R) (p0 : R * R) (rest : list (R * R)) : R :=
  match rest with
  | [] => snd p0
  | p1 :: rest' =>
      if Rlt_dec x (fst p1)
      then (snd p1 - snd p0) / (fst p1 - fst p0) * (x - fst p0) + snd p0
      else interp_from x p1 rest'
  end.

Definition np_interp (x : R) (points : list (R * R)) : R :=
  match points with
  | [] => 0
  | p0 :: rest => if Rlt_dec x (fst p0) then snd p0 else interp_from x p0 rest
  end.

Definition points_xy : list (R * R) :=
  [(0, 1); (0.2, 0.9); (0.5, 0.5); (0.8, 0.2); (1, 0)].

(** [np.clip(position, 0, 1)] *)
Definition np_clip01 (position : R) : R := Rmin 1 (Rmax position 0).

(** [nonlinear_position_sizing(self, percentile)]; the two fields of [self]
    it reads are its first two arguments.  (The model of the program for a
    positive aggressiveness: at aggressiveness 0 the power branch raises
    ZeroDivisionError in [0.7 / self.aggressiveness].) *)
Definition nonlinear_position_sizing (nonlinear_type : string)
    (aggressiveness : R) (percentile : R) : R :=
  let x := percentile / 100 in
  let position :=
    if String.eqb nonlinear_type "linear" then 1 - x
    else if String.eqb nonlinear_type "sigmoid" then
      let k := 5 * aggressiveness in
      1 / (1 + exp (k * (x - 0.5)))
    else if String.eqb nonlinear_type "power" then
      let power := 0.7 / aggressiveness in
      float_pow (1 - x) power
    else if String.eqb nonlinear_type "custom" then
      np_interp x points_xy
    else float_pow (1 - x) 0.7 in
  np_clip01 position.

End Sizer.

(** ** sw_lv2_selector.py: the composite screener *)

Module Screener.
Import Py.
Local Open Scope Q_scope.

(** One row of the valuation data frames.  The columns, in the order of
    the fields: 指数代码, 指数名称, 发布日期, 市盈率, 收盘指数, 涨跌幅, 换手率.
    A date is its day number.  A NaN cell is [None].  The source matches an
    index code both as an integer and as a string; here a code is an
    integer. *)
Record row : Type := {
  index_code : Z;
  index_name : string;
  publish_date : Z;
  pe_ratio : option Q;
  close_index : option Q;
  change_pct : option Q;
  turnover_rate : option Q
}.

Definition dataframe : Type := list row.

(** [df[mask]] for the mask that selects one index code. *)
Definition rows_of (code : Z) (df : dataframe) : dataframe :=
  filter (fun r => Z.eqb (index_code r) code) df.

(** [df.sort_values(by='发布日期', ascending=False)].  Rows of equal date
    keep their order here; pandas leaves it open, and it plays no part
    below: the rows of one index have one row per date. *)
Definition sort_by_date_desc (df : dataframe) : dataframe :=
  sort_by (fun x y => Z.leb (publish_date y) (publish_date x)) df.

(** [pd.notna(v) and v > 0] *)
Definition notna_positive (v : option Q) : bool :=
  match v with
  | Some x => Qlt_bool 0 x
  | None => false
  end.

(** [get_index_current_pe(index_code, current_df)] *)
Definition get_index_current_pe (code : Z) (current_df : dataframe)
  : option Q :=
  match rows_of code current_df with
  | [] => None
  | r :: _ => if notna_positive (pe_ratio r) then pe_ratio r else None
  end.

(** An entry of the history list: the dict with keys date, pe, price. *)
Record hist_item : Type := {
  h_date : Z;
  h_pe : Q;
  h_price : Q
}.

Definition history_of_row (r : row) : list hist_item :=
  match pe_ratio r, close_index r with
  | Some pe_value, Some price_value =>
      if Qlt_bool 0 pe_value && Qlt_bool 0 price_value
      then [{| h_date := publish_date r;
               h_pe := pe_value;
               h_price := price_value |}]
      else []
  | _, _ => []
  end.

(** [get_index_monthly_pe_history(index_code, monthly_df)]: newest first. *)
Definition get_index_monthly_pe_history (code : Z) (monthly_df : dataframe)
  : list hist_item :=
  match rows_of code monthly_df with
  | [] => []
  | index_data =>
      flat_map history_of_row (firstn 120 (sort_by_date_desc index_data))
  end.

(** [sum(1 for v in values if v < latest) / len(values)] *)
Definition fraction_below (latest : Q) (values : list Q) : Q :=
  inject_Z (Z.of_nat (length (filter (fun v => Qlt_bool v latest) values)))
  / inject_Z (Z.of_nat (length values)).

(** [calculate_pe_percentile(latest_pe, pe_history)] *)
Definition calculate_pe_percentile (latest_pe : option Q)
    (pe_history : list hist_item) : option Q :=
  match pe_history, latest_pe with
  | [], _ => None
  | _, None => None
  | _, Some latest =>
      let pe_values := filter (fun v => Qlt_bool 0 v) (map h_pe pe_history) in
      match pe_values with
      | [] => None
      | _ => Some (fraction_below latest pe_values)
      end
  end.

(** [calculate_price_percentile(current_price, price_history)] *)
Definition calculate_price_percentile (current_price : option Q)
    (price_history : list hist_item) : option Q :=
  match price_history, current_price with
  | [], _ => None
  | _, None => None
  | _, Some current =>
      let price_values :=
        filter (fun v => Qlt_bool 0 v) (map h_price price_history) in
      match price_values with
      | [] => None
      | _ => Some (fraction_below current price_values)
      end
  end.

(** [check_valuation_declining(pe_history)]: the loop counts the leading
    pairs with [pe[i] < pe[i+1]] and breaks at the first other pair. *)
Fixpoint check_valuation_declining (pe_history : list hist_item) : nat :=
  match pe_history with
  | a :: ((b :: _) as rest) =>
      if Qlt_bool (h_pe a) (h_pe b)
      then S (check_valuation_declining rest)
      else O
  | _ => O
  end.

(** [calculate_valuation_safety_score(pe_percentile, price_percentile,
    pe_history)] *)
Definition calculate_valuation_safety_score
    (pe_percentile price_percentile : option Q) (pe_history : list hist_item)
  : Q :=
  match pe_percentile, price_percentile with
  | Some pe_percentile, Some price_percentile =>
      let q := pe_percentile * 100 in
      let pct_price := price_percentile * 100 in
      let declining_months := check_valuation_declining pe_history in
      if Qlt_bool q 10 || Nat.leb 3 declining_months then 0
      else if Qlt_bool 70 pct_price then 0
      else if (Qle_bool 10 q && Qle_bool q 30) && Qle_bool pct_price 50
      then (30 - q) / 20 * (70 - pct_price) / 70
      else if (Qle_bool 10 q && Qle_bool q 30)
              && (Qlt_bool 50 pct_price && Qle_bool pct_price 70)
      then (30 - q) / 20 * (1 # 2)
      else if (Qlt_bool 30 q && Qle_bool q 50) && Qle_bool pct_price 50
      then (1 # 10) * (50 - q) / 20
      else 0
  | _, _ => 0
  end.

(** [etf_change >= all_indices_avg_change]; false when the average is NaN. *)
Definition ge_avg (etf_change : Q) (avg : option Q) : bool :=
  match avg with
  | Some a => Qle_bool a etf_change
  | None => false
  end.

(** [calculate_price_resilience_coefficient(index_code, monthly_df,
    all_indices_avg_change)] *)
Definition calculate_price_resilience_coefficient (code : Z)
    (monthly_df : dataframe) (all_indices_avg_change : option Q) : Q :=
  match rows_of code monthly_df with
  | [] => 0
  | index_data =>
      match firstn 1 (sort_by_date_desc index_data) with
      | [] => 0
      | r :: _ =>
          match change_pct r with
          | None => 0
          | Some etf_change =>
              if ge_avg etf_change all_indices_avg_change then 1
              else if Qle_bool (-10) etf_change
              then Qmax 0 ((etf_change + 10) / 10)
              else 0
          end
      end
  end.

(** [Series.mean()]: NaN cells are skipped, the mean of no value is NaN. *)
Definition series_mean (cells : list (option Q)) : option Q :=
  let values :=
    flat_map (fun c => match c with Some v => [v] | None => [] end) cells in
  match values with
  | [] => None
  | _ => Some (sum values / inject_Z (Z.of_nat (length values)))
  end.

(** [calculate_trading_activity_coefficient(index_code, monthly_df)] *)
Definition calculate_trading_activity_coefficient (code : Z)
    (monthly_df : dataframe) : Q :=
  match rows_of code monthly_df with
  | [] => 0
  | index_data =>
      let recent_20 := firstn 20 (sort_by_date_desc index_data) in
      if Nat.ltb (length recent_20) 20 then 0
      else
        let recent_120 := firstn 120 (sort_by_date_desc index_data) in
        if Nat.ltb (length recent_120) 120 then 0
        else
          match series_mean (map turnover_rate recent_20),
                series_mean (map turnover_rate recent_120) with
          | Some avg_turnover_20, Some avg_turnover_120 =>
              if Qeq_bool avg_turnover_120 0 then 0
              else if Qle_bool avg_turnover_120 avg_turnover_20 then 1
              else if Qle_bool ((1 # 2) * avg_turnover_120) avg_turnover_20
              then 7 # 10
              else if Qle_bool ((2 # 10) * avg_turnover_120) avg_turnover_20
              then 3 # 10
              else 0
          | _, _ => 0
          end
  end.

(** [calculate_comprehensive_score(safety_score, trading_activity,
    price_resilience)] *)
Definition calculate_comprehensive_score
    (safety_score trading_activity price_resilience : Q) : Q :=
  safety_score * trading_activity * price_resilience * 100.

(** An entry of [index_valuations]. *)
Record valuation : Type := {
  code : Z;
  name : string;
  current_pe : Q;
  current_pe_percentile : Q;
  current_price_percentile : Q;
  safety_score : Q;
  trading_activity : Q;
  price_resilience : Q;
  comprehensive_score : Q
}.

(** [df.groupby('指数代码').head(1)]: the first row of every code. *)
Fixpoint groupby_head1 (seen : list Z) (df : dataframe) : dataframe :=
  match df with
  | [] => []
  | r :: rest =>
      if existsb (Z.eqb (index_code r)) seen
      then groupby_head1 seen rest
      else r :: groupby_head1 (index_code r :: seen) rest
  end.

(** The benchmark of [select_best_sw_lv2_indices_by_valuation]: the mean
    latest change over all codes. *)
Definition all_indices_avg_change (monthly_df : dataframe) : option Q :=
  let recent_all := groupby_head1 [] (sort_by_date_desc monthly_df) in
  series_mean (map change_pct recent_all).

(** The body of the loop over [sw_lv2_indices.items()]: the entry that one
    code appends to [index_valuations], if any ([continue] and the
    filtered-out branch append nothing). *)
Definition evaluate_index (current_df monthly_df : dataframe)
    (avg_change : option Q) (item : Z * string) : list valuation :=
  let (code, industry_name) := item in
  match get_index_current_pe code current_df with
  | None => []
  | Some current_pe =>
      match get_index_monthly_pe_history code monthly_df with
      | [] => []
      | (h0 :: _) as history =>
          match calculate_pe_percentile (Some current_pe) history with
          | None => []
          | Some pe_percentile =>
              match calculate_price_percentile (Some (h_price h0)) history with
              | None => []
              | Some price_percentile =>
                  let safety_score :=
                    calculate_valuation_safety_score
                      (Some pe_percentile) (Some price_percentile) history in
                  let price_resilience :=
                    calculate_price_resilience_coefficient
                      code monthly_df avg_change in
                  let trading_activity :=
                    calculate_trading_activity_coefficient code monthly_df in
                  let comprehensive_score :=
                    calculate_comprehensive_score
                      safety_score trading_activity price_resilience in
                  if Qlt_bool 0 comprehensive_score
                  then [{| code := code;
                           name := industry_name;
                           current_pe := current_pe;
                           current_pe_percentile := pe_percentile;
                           current_price_percentile := price_percentile;
                           safety_score := safety_score;
                           trading_activity := trading_activity;
                           price_resilience := price_resilience;
                           comprehensive_score := comprehensive_score |}]
                  else []
              end
          end
      end
  end.

(** [index_valuations] when the loop ends. *)
Definition collect_valuations (current_df monthly_df : dataframe)
    (sw_lv2_indices : list (Z * string)) : list valuation :=
  flat_map
    (evaluate_index current_df monthly_df (all_indices_avg_change monthly_df))
    sw_lv2_indices.

(** [index_valuations.sort(key=lambda x: x["comprehensive_score"],
    reverse=True)] *)
Definition sort_by_score_desc (l : list valuation) : list valuation :=
  sort_by (fun x y => Qle_bool (comprehensive_score y) (comprehensive_score x))
          l.

(** [select_best_sw_lv2_indices_by_valuation()], as a function of what it
    loads: the two data frames and the dict of index codes (in insertion
    order). *)
Definition select_best_sw_lv2_indices_by_valuation
    (current_df monthly_df : dataframe) (sw_lv2_indices : list (Z * string))
  : list valuation :=
  let index_valuations :=
    collect_valuations current_df monthly_df sw_lv2_indices in
  match index_valuations with
  | [] => []
  | _ =>
      let index_valuations := sort_by_score_desc index_valuations in
      if Nat.ltb 8 (length index_valuations)
      then firstn 8 index_valuations
      else index_valuations
  end.

(** [check_valuation_rising(pe_history)]: the latest valuation is above
    the one of the month before. *)
Definition check_valuation_rising (pe_history : list hist_item) : bool :=
  match pe_history with
  | a :: b :: _ => Qlt_bool (h_pe b) (h_pe a)
  | _ => false
  end.

End Screener.

(** ** strategy.py: the macro step *)

Module Planner.
Import Py Strategy.

(** The dict that [calculate_market_valuation] returns.  The percentile is
    computed over [Q]; the position and the capital split, which go through
    the position sizer, are reals. *)
Record macro_info : Type := {
  market_percentile : Q;
  macro_position : R;
  signal : string;
  available_capital : R;
  idle_capital : R
}.

(** The market state label. *)
Definition market_signal (market_percentile : Q) : string :=
  if Qlt_bool market_percentile 20 then "极度低估🔥"
  else if Qlt_bool market_percentile 40 then "低估💎"
  else if Qlt_bool market_percentile 60 then "合理⚖️"
  else if Qlt_bool market_percentile 80 then "高估⚠️"
  else "极度高估🚫".

(** The loop over [self.etf_data.items()]: the percentile of every ETF. *)
Definition percentile_of (self : config) (item : string * list Q) : res Q :=
  v <- calculate_valuation_percentile self (snd item) ;;
  pc <- unpack_pair v ;;
  Ok (fst pc).

(** [calculate_market_valuation(self)]; [total_capital], [nonlinear_type]
    and [aggressiveness] are the fields of [self] that the sizing reads.
    (With no ETF loaded, [np.percentile] of the empty list depends on the
    numpy version; the model is meant for a non-empty [etf_data], a decay
    factor in (0,1] and a positive aggressiveness.) *)
Definition calculate_market_valuation (self : config)
    (nonlinear_type : string) (aggressiveness total_capital : R)
    (etf_data : list (string * list Q)) : res macro_info :=
  all_percentiles <- mapM (percentile_of self) etf_data ;;
  market_percentile <- np_percentile all_percentiles 50 ;;
  let macro_position :=
    Sizer.nonlinear_position_sizing nonlinear_type aggressiveness
      (Q2R market_percentile) in
  Ok {| market_percentile := market_percentile;
        macro_position := macro_position;
        signal := market_signal market_percentile;
        available_capital := (total_capital * macro_position)%R;
        idle_capital := (total_capital * (1 - macro_position))%R |}.

End Planner.

(** ** intelligent_selector_router.py: the choice between the two screeners *)

Module Router.
Import Py.
Local Open Scope Q_scope.

Inductive SelectorType : Type :=
| SW_LV1
| SW_LV2.

(** A value of the [user_profile] or [market_state] dict: [None], a number
    or a string. *)
Inductive value : Type :=
| VNone
| VNum (x : Q)
| VStr (s : string).

(** A dict with string keys, as the list of its items. *)
Definition dict : Type := list (string * value).

(** [d.get(key, default)] *)
Fixpoint dict_get (d : dict) (key : string) (default : value) : value :=
  match d with
  | [] => default
  | (k, v) :: d' => if String.eqb k key then v else dict_get d' key default
  end.

(** [v < c] and [v <= c] against a number: [TypeError] when [v] is [None]
    or a string. *)
Definition lt_num (v : value) (c : Q) : res bool :=
  match v with
  | VNum x => Ok (Qlt_bool x c)
  | _ => Raise TypeError
  end.

Definition le_num (v : value) (c : Q) : res bool :=
  match v with
  | VNum x => Ok (Qle_bool x c)
  | _ => Raise TypeError
  end.

(** [v == c] and [v == s] never raise. *)
Definition eq_num (v : value) (c : Q) : bool :=
  match v with
  | VNum x => Qeq_bool x c
  | _ => false
  end.

Definition eq_str (v : value) (s : string) : bool :=
  match v with
  | VStr t => String.eqb t s
  | _ => false
  end.

(** [self.weights] *)
Record weights : Type := {
  w_capital : Q;
  w_risk_level : Q;
  w_experience : Q;
  w_market_state : Q;
  w_diversification : Q
}.

(** The weights that [__init__] sets. *)
Definition init_weights : weights :=
  {| w_capital := 3 # 10;
     w_risk_level := 25 # 100;
     w_experience := 2 # 10;
     w_market_state := 15 # 100;
     w_diversification := 1 # 10 |}.

(** The dict [scores] of [calculate_selector_score]. *)
Record scores : Type := {
  s_capital : Q;
  s_risk_level : Q;
  s_experience : Q;
  s_market_state : Q;
  s_diversification : Q
}.

(** [_evaluate_capital(self, selector_type, user_profile)] *)
Definition _evaluate_capital (selector_type : SelectorType)
    (user_profile : dict) : res Q :=
  let total_capital := dict_get user_profile "total_capital" (VNum 0) in
  match selector_type with
  | SW_LV1 =>
      b1 <- lt_num total_capital 100 ;;
      if b1 then Ok 90
      else b2 <- lt_num total_capital 500 ;; if b2 then Ok 80 else Ok 60
  | SW_LV2 =>
      b1 <- lt_num total_capital 100 ;;
      if b1 then Ok 40
      else b2 <- lt_num total_capital 500 ;; if b2 then Ok 70 else Ok 95
  end.

(** [_evaluate_risk_preference(self, selector_type, user_profile)] *)
Definition _evaluate_risk_preference (selector_type : SelectorType)
    (user_profile : dict) : res Q :=
  let risk_level := dict_get user_profile "risk_level" (VNum 3) in
  let risk_level :=
    match risk_level with
    | VNone => VNum 3
    | _ => risk_level
    end in
  match selector_type with
  | SW_LV1 =>
      b <- le_num risk_level 2 ;;
      if b then Ok 90 else if eq_num risk_level 3 then Ok 85 else Ok 60
  | SW_LV2 =>
      b <- le_num risk_level 2 ;;
      if b then Ok 50 else if eq_num risk_level 3 then Ok 80 else Ok 95
  end.

(** [experience_map.get(experience, 4)] *)
Definition exp_level (experience : value) : Z :=
  if eq_str experience "无" then 1
  else if eq_str experience "匮乏" then 2
  else if eq_str experience "较少" then 3
  else if eq_str experience "一般" then 4
  else if eq_str experience "较多" then 5
  else if eq_str experience "丰富" then 6
  else 4.

(** [_evaluate_investment_experience(self, selector_type, user_profile)] *)
Definition _evaluate_investment_experience (selector_type : SelectorType)
    (user_profile : dict) : Q :=
  let experience :=
    dict_get user_profile "investment_experience" (VStr "一般") in
  let exp_level := exp_level experience in
  match selector_type with
  | SW_LV1 =>
      if Z.leb exp_level 3 then 90 else if Z.eqb exp_level 4 then 80 else 70
  | SW_LV2 =>
      if Z.leb exp_level 3 then 40 else if Z.eqb exp_level 4 then 75 else 95
  end.

(** [_evaluate_market_state(self, selector_type, market_state)]; the trend
    is read and not used. *)
Definition _evaluate_market_state (selector_type : SelectorType)
    (market_state : dict) : Q :=
  let volatility := dict_get market_state "volatility" (VStr "medium") in
  let trend := dict_get market_state "trend" (VStr "neutral") in
  match selector_type with
  | SW_LV1 =>
      if eq_str volatility "low" then 75
      else if eq_str volatility "medium" then 90 else 65
  | SW_LV2 =>
      if eq_str volatility "low" then 70
      else if eq_str volatility "medium" then 80 else 85
  end.

(** [_evaluate_diversification(self, selector_type, user_profile)] *)
Definition _evaluate_diversification (selector_type : SelectorType)
    (user_profile : dict) : res Q :=
  let total_capital := dict_get user_profile "total_capital" (VNum 0) in
  match selector_type with
  | SW_LV1 =>
      b1 <- lt_num total_capital 200 ;;
      if b1 then Ok 90
      else b2 <- lt_num total_capital 500 ;; if b2 then Ok 75 else Ok 60
  | SW_LV2 =>
      b1 <- lt_num total_capital 200 ;;
      if b1 then Ok 50
      else b2 <- lt_num total_capital 500 ;; if b2 then Ok 80 else Ok 95
  end.

(** [sum(scores[key] * self.weights[key] for key in scores.keys())] *)
Definition weighted_total (self : weights) (sc : scores) : Q :=
  sum [s_capital sc * w_capital self;
       s_risk_level sc * w_risk_level self;
       s_experience sc * w_experience self;
       s_market_state sc * w_market_state self;
       s_diversification sc * w_diversification self].

(** [calculate_selector_score(self, selector_type, user_profile,
    market_state)] *)
Definition calculate_selector_score (self : weights)
    (selector_type : SelectorType) (user_profile market_state : dict)
  : res (Q * scores) :=
  capital_score <- _evaluate_capital selector_type user_profile ;;
  risk_score <- _evaluate_risk_preference selector_type user_profile ;;
  let experience_score :=
    _evaluate_investment_experience selector_type user_profile in
  let market_score := _evaluate_market_state selector_type market_state in
  diversification_score <-
    _evaluate_diversification selector_type user_profile ;;
  let sc := {| s_capital := capital_score;
               s_risk_level := risk_score;
               s_experience := experience_score;
               s_market_state := market_score;
               s_diversification := diversification_score |} in
  Ok (weighted_total self sc, sc).

(** The dict [detail_info] of [select_best_selector], without its
    [decision_reason] text (built by string formatting from the same
    scores; it does not raise once the scores exist). *)
Record detail_info : Type := {
  selected_type : SelectorType;
  selected_score : Q;
  sw_lv1_score : Q;
  sw_lv2_score : Q;
  sw_lv1_scores : scores;
  sw_lv2_scores : scores;
  market_state_used : dict
}.

(** [select_best_selector(self, user_profile, market_state)] *)
Definition select_best_selector (self : weights) (user_profile : dict)
    (market_state : option dict) : res (SelectorType * detail_info) :=
  let market_state :=
    match market_state with
    | None => [("volatility"%string, VStr "medium");
               ("trend"%string, VStr "neutral")]
    | Some m => m
    end in
  r1 <- calculate_selector_score self SW_LV1 user_profile market_state ;;
  r2 <- calculate_selector_score self SW_LV2 user_profile market_state ;;
  let (sw_lv1_score, sw_lv1_scores) := r1 in
  let (sw_lv2_score, sw_lv2_scores) := r2 in
  let selected :=
    if Qle_bool sw_lv2_score sw_lv1_score
    then (SW_LV1, sw_lv1_score)
    else (SW_LV2, sw_lv2_score) in
  Ok (fst selected,
      {| selected_type := fst selected;
         selected_score := snd selected;
         sw_lv1_score := sw_lv1_score;
         sw_lv2_score := sw_lv2_score;
         sw_lv1_scores := sw_lv1_scores;
         sw_lv2_scores := sw_lv2_scores;
         market_state_used := market_state |}).

(** One of the profiles of the module's own test run. *)
Definition small_conservative_profile : dict :=
  [("age"%string, VNum 34); ("annual_income"%string, VNum 30);
   ("total_capital"%string, VNum 80); ("monthly_expense"%string, VNum 1);
   ("risk_level"%string, VNum 2);
   ("investment_experience"%string, VStr "匮乏");
   ("career_stage"%string, VStr "职业生涯起步")].

Definition large_aggressive_profile : dict :=
  [("age"%string, VNum 40); ("annual_income"%string, VNum 80);
   ("total_capital"%string, VNum 500);
   ("monthly_expense"%string, VNum (15 # 10));
   ("risk_level"%string, VNum 4);
   ("investment_experience"%string, VStr "丰富");
   ("career_stage"%string, VStr "职业生涯稳健期")].

End Router.

(** ** script_execution_enforcer.py: the execution log and its check *)

Module Enforcer.

Section Log.
Context {payload : Type}.

(** An entry of [self.execution_log]: the name of the function called,
    and the rest of the entry (params, result, timestamp). *)
Record log_entry : Type := {
  function : string;
  details : payload
}.

(** [log_execution(self, function_name, params, result)] appends an
    entry to the log. *)
Definition log_execution (execution_log : list log_entry)
    (function_name : string) (d : payload) : list log_entry :=
  execution_log ++ [{| function := function_name; details := d |}].

(** [func in called_functions] *)
Definition called (func : string) (called_functions : list string) : bool :=
  existsb (String.eqb func) called_functions.

(** [validate_execution(self)]: both required functions were called, and
    one of the two selectors. *)
Definition validate_execution (execution_log : list log_entry) : bool :=
  let called_functions := map function execution_log in
  let required_functions :=
    ["user_profile_parser.parse_user_profile"%string;
     "intelligent_selector_router.intelligent_select"%string] in
  let selector_functions :=
    ["etf_selector.select_best_sw_lv1_indices_by_valuation"%string;
     "sw_lv2_selector.select_best_sw_lv2_indices_by_valuation"%string] in
  if negb (forallb (fun func => called func called_functions)
                   required_functions)
  then false
  else
    let selector_called :=
      existsb (fun func => called func called_functions)
              selector_functions in
    if negb selector_called then false else true.

End Log.

End Enforcer.

(** ** Binary64 arithmetic

    Python floats and numpy's float64 are IEEE-754 doubles.  This module
    repeats, on the primitive doubles, the arithmetic of the loop body of
    [select_top_etfs] after the percentile is known, and of the sigmoid
    branch of [nonlinear_position_sizing] around its call of [np.exp]. *)

Module Double.
Local Open Scope float_scope.
#[local] Set Warnings "-inexact-float".

Record etf_score : Type := {
  name : string;
  percentile : float;
  current_value : float;
  valuation_score : float;
  momentum_score : float;
  volatility_score : float;
  total_score : float;
  latest_price : float
}.

(** The body of the loop of [select_top_etfs] from the unpacked pair
    [percentile, current_val] on.  The ints 100, 10 and 5 are converted to
    doubles by the float operations. *)
Definition score_etf (item : string * (float * float)) : etf_score :=
  let '(etf_name, (pct, current_val)) := item in
  let valuation_score := 100 - pct in
  let momentum_score := 10 in
  let volatility_score := 5 in
  let total_score :=
    valuation_score * 0.8 + momentum_score * 0.1 + volatility_score * 0.1 in
  {| name := etf_name;
     percentile := pct;
     current_value := current_val;
     valuation_score := valuation_score;
     momentum_score := momentum_score;
     volatility_score := volatility_score;
     total_score := total_score;
     latest_price := current_val |}.

(** [sorted(etf_scores, key=lambda x: x['total_score'], reverse=True)] *)
Definition sort_by_total_score_desc (l : list etf_score) : list etf_score :=
  Py.sort_by (fun x y => total_score y <=? total_score x) l.

(** [select_top_etfs], given for every ETF of [self.etf_data] the pair that
    [calculate_valuation_percentile] returned. *)
Definition select_top_etfs (valuations : list (string * (float * float)))
    (n_select : nat) : list etf_score :=
  let etf_scores := map score_etf valuations in
  let etf_scores := sort_by_total_score_desc etf_scores in
  firstn n_select etf_scores.

(** The ranking by valuation percentile alone: ascending, ties in the
    order of [self.etf_data]. *)
Definition sort_by_percentile_asc (l : list etf_score) : list etf_score :=
  Py.sort_by (fun x y => percentile x <=? percentile y) l.


(** [np.clip(position, 0, 1)] on a number. *)
Definition np_clip01 (position : float) : float :=
  if position <? 0 then 0 else if 1 <? position then 1 else position.




End Double.

(** ** Reference definitions and concrete inputs

    What the properties below compare the code with: the formula of the
    percentile as the design states it, the ranking by valuation percentile
    alone, and the inputs at which the code is evaluated. *)

Module Spec.
Import Py Strategy.
Local Open Scope Q_scope.

(** The percentages [winsorize] can pass on to [np.percentile]. *)
Definition valid_pct (pct : Q) : Prop := 0 <= pct <= 1.

(** The weight of the observation [t], counted from [1] (the earliest) to
    [T] (the latest): [decay_lambda ^ (T - t)]. *)
Definition spec_weight (decay_lambda : Q) (T t : nat) : Q :=
  pow decay_lambda (T - t).

(** The indicator of the observation [t], counted from [1]: [1] if and
    only if its winsorized value is below the winsorized current value. *)
Definition spec_indicator (winsorized_values : list Q) (wcur : Q) (t : nat)
  : Q :=
  if Qlt_bool (nth (t - 1) winsorized_values 0) wcur then 1 else 0.

(** (sum of weight x indicator) / (sum of weight) x 100, [t] from 1 to T. *)
Definition spec_percentile (decay_lambda : Q) (indicator : nat -> Q)
    (T : nat) : Q :=
  sum (map (fun t => spec_weight decay_lambda T t * indicator t) (seq 1 T))
  / sum (map (fun t => spec_weight decay_lambda T t) (seq 1 T))
  * 100.

(** The defaults of the strategy: decay 0.95, winsorize 5%. *)
Definition default_config : config :=
  {| lambda_decay := 95 # 100; winsorize_pct := 5 # 100 |}.

(** A series whose latest value is an outlier above the rest. *)
Definition outlier_series : list Q := [1; 2; 3; 4; 100].

(** The current value as the design states it: clipped with the bounds of
    the whole series. *)
Definition clipped_current (self : config) (values : list Q) : res Q :=
  lower_bound <- np_percentile values (winsorize_pct self * 100) ;;
  upper_bound <- np_percentile values ((1 - winsorize_pct self) * 100) ;;
  Ok (clip1 lower_bound upper_bound (iloc_last values)).

(** The ranking by valuation percentile alone: ascending, ties in the
    order of [self.etf_data]. *)
Definition sort_by_percentile_asc (l : list etf_score) : list etf_score :=
  sort_by (fun x y => Qle_bool (percentile x) (percentile y)) l.



(** The raw weight factor of a selected ETF in
    [calculate_nonlinear_weights]: [((100 - p) / 50) ** 2]. *)
Definition raw_factor (e : etf_score) : Q :=
  pow ((100 - percentile e) / 50) 2.

(** Three loaded ETFs with different valuations. *)
Definition etf_data_mixed : list (string * list Q) :=
  [("上证50ETF"%string, [10; 12; 14; 16; 13]);
   ("红利ETF"%string, [9; 8; 7; 6; 5; 6]);
   ("碳中和ETF"%string, [40; 35; 50; 45; 60; 55])].

(** Three loaded ETFs, each at the highest valuation of its history. *)
Definition etf_data_at_highs : list (string * list Q) :=
  [("上证50ETF"%string, outlier_series);
   ("红利ETF"%string, [10; 12; 11; 30]);
   ("碳中和ETF"%string, [40; 35; 50; 45; 60; 90])].

(** Entries of [selected_etfs] that all carry percentile 100. *)
Definition etf_at_100 (etf_name : string) (pe : Q) : etf_score :=
  {| name := etf_name;
     percentile := 100;
     current_value := pe;
     valuation_score := 0;
     momentum_score := 10;
     volatility_score := 5;
     total_score := 3 # 2;
     latest_price := pe |}.

Definition selected_at_100 : list etf_score :=
  [etf_at_100 "上证50ETF" 11; etf_at_100 "红利ETF" 7; etf_at_100 "碳中和ETF" 30].

(** An entry of [selected_etfs] as the loop of [select_top_etfs] builds it
    from a percentile and a latest value. *)
Definition etf_at (etf_name : string) (pct pe : Q) : etf_score :=
  {| name := etf_name;
     percentile := pct;
     current_value := pe;
     valuation_score := 100 - pct;
     momentum_score := 10;
     volatility_score := 5;
     total_score := (100 - pct) * (8 # 10) + 10 * (1 # 10) + 5 * (1 # 10);
     latest_price := pe |}.

(** A selection with one cheap, one fairly valued and one expensive ETF. *)
Definition selected_spread : list etf_score :=
  [etf_at "红利ETF" 20 7; etf_at "上证50ETF" 50 11; etf_at "碳中和ETF" 100 30].

End Spec.

Module SizerSpec.
Local Open Scope R_scope.

(** The sigmoid curve as the design states it, before any clip:
    1 / (1 + e^(k (x - 0.5))), k = 5 x aggressiveness, x = percentile/100. *)
Definition sigmoid (aggressiveness percentile : R) : R :=
  1 / (1 + exp (5 * aggressiveness * (percentile / 100 - 0.5))).

End SizerSpec.

Module ScreenerSpec.
Import Py Screener.
Local Open Scope Q_scope.

(** "[a] may stand before [b]" in a list ranked by descending composite
    score. *)
Definition score_desc (a b : valuation) : Prop :=
  comprehensive_score b <= comprehensive_score a.

(** The composite score of one index of the universe, where it can be
    computed: the index has a current PE, a monthly history, and both of
    its percentiles.  The score combines the safety score, the trading
    activity and the price resilience against the mean change of all
    indices. *)
Definition composite_score_of (current_df monthly_df : dataframe) (c : Z)
  : option Q :=
  match get_index_current_pe c current_df,
        get_index_monthly_pe_history c monthly_df with
  | Some latest_pe, (h0 :: _) as history =>
      match calculate_pe_percentile (Some latest_pe) history,
            calculate_price_percentile (Some (h_price h0)) history with
      | Some pe_percentile, Some price_percentile =>
          Some (calculate_comprehensive_score
                  (calculate_valuation_safety_score
                     (Some pe_percentile) (Some price_percentile) history)
                  (calculate_trading_activity_coefficient c monthly_df)
                  (calculate_price_resilience_coefficient
                     c monthly_df (all_indices_avg_change monthly_df)))
      | _, _ => None
      end
  | _, _ => None
  end.

(** An index qualifies when its composite score exists and is above 0. *)
Definition qualifies (current_df monthly_df : dataframe)
    (entry : Z * string) : bool :=
  match composite_score_of current_df monthly_df (fst entry) with
  | Some s => Qlt_bool 0 s
  | None => false
  end.

(** The qualifying indices of the universe, in the order of the dict. *)
Definition qualifying (current_df monthly_df : dataframe)
    (sw_lv2_indices : list (Z * string)) : list (Z * string) :=
  filter (qualifies current_df monthly_df) sw_lv2_indices.

(** The dict item an entry of the result was built from. *)
Definition entry_of (v : valuation) : Z * string := (code v, name v).

(** Histories (newest first) for the safety score: a flat one, and one
    whose valuation fell in each of the last three months. *)
Definition item (d : Z) (pe price : Q) : hist_item :=
  {| h_date := d; h_pe := pe; h_price := price |}.

Definition steady_history : list hist_item :=
  [item 4 20 100; item 3 20 101; item 2 21 102; item 1 22 103].

Definition falling_history : list hist_item :=
  [item 4 17 100; item 3 18 101; item 2 19 102; item 1 20 103].

(** The monthly rows of one index over 120 months (day numbers 1 to 120):
    a constant turnover, a price that fell every month, and a valuation
    that fell from 151 and then rose again from 10 over the last [tail]
    months; only the latest month has a non-zero change. *)
Definition month_pe (tail d : nat) : Q :=
  if Nat.leb d (120 - tail) then inject_Z (152 - Z.of_nat d)
  else inject_Z (Z.of_nat d - Z.of_nat (120 - tail) + 9).

Definition month_row (c : Z) (nm : string) (tail : nat) (latest_change : Q)
    (d : nat) : row :=
  {| index_code := c;
     index_name := nm;
     publish_date := Z.of_nat d;
     pe_ratio := Some (month_pe tail d);
     close_index := Some (inject_Z (1000 - Z.of_nat d));
     change_pct := Some (if Nat.eqb d 120 then latest_change else 0);
     turnover_rate := Some 1 |}.

Definition index_months (c : Z) (nm : string) (tail : nat)
    (latest_change : Q) : dataframe :=
  map (month_row c nm tail latest_change) (seq 1 120).

(** A monthly frame of two indices.  Index 801010 has 120 months and a
    latest change of +5%.  Index 801020 has one month, with a change of
    +11%; the mean latest change is +8%. *)
Definition other_row : row :=
  {| index_code := 801020;
     index_name := "采掘";
     publish_date := 120;
     pe_ratio := None;
     close_index := Some 500;
     change_pct := Some 11;
     turnover_rate := Some 1 |}.

Definition monthly_frame : dataframe :=
  index_months 801010 "农产品加工" 18 5 ++ [other_row].
Definition current_frame : dataframe :=
  [month_row 801010 "农产品加工" 18 5 120; other_row].
Definition indices : list (Z * string) :=
  [(801010%Z, "农产品加工"%string); (801020%Z, "采掘"%string)].

(** A universe of [n] indices 801001, 801002, ...: index [k] has been
    rising for [12 + k] months, so a larger [k] is a dearer index. *)
Definition universe_code (k : nat) : Z := 801000 + Z.of_nat k.

Definition universe_monthly (n : nat) : dataframe :=
  flat_map (fun k => index_months (universe_code k) "行业" (12 + k) 0)
           (seq 1 n).
Definition universe_current (n : nat) : dataframe :=
  map (fun k => month_row (universe_code k) "行业" (12 + k) 0 120) (seq 1 n).
Definition universe_indices (n : nat) : list (Z * string) :=
  map (fun k => (universe_code k, "行业"%string)) (seq 1 n).

End ScreenerSpec.

(** * Properties *)

(** Linear arithmetic over [Q] and over [R]. *)
Ltac qlra := Lqa.lra.
Ltac rlra := Lra.lra.

(** ** Helper lemmas on the primitives *)

Section PyFacts.
Import Py.
Local Open Scope Q_scope.

Lemma Qlt_bool_iff (x y : Q) : Qlt_bool x y = true <-> x < y.
Proof.
  unfold Qlt_bool. rewrite negb_true_iff, <- not_true_iff_false, Qle_bool_iff.
  split; [apply Qnot_le_lt | apply Qlt_not_le].
Qed.

Lemma Qlt_bool_false_iff (x y : Q) : Qlt_bool x y = false <-> y <= x.
Proof.
  unfold Qlt_bool. rewrite negb_false_iff. apply Qle_bool_iff.
Qed.

Lemma fold_left_Qplus (l : list Q) (a : Q) :
  fold_left Qplus l a == a + sum l.
Proof.
  unfold sum. revert a. induction l as [|x l IH]; intros a; simpl.
  - ring.
  - rewrite (IH (a + x)), (IH (0 + x)). ring.
Qed.

Lemma sum_cons (x : Q) (l : list Q) : sum (x :: l) == x + sum l.
Proof.
  unfold sum at 1. simpl. rewrite fold_left_Qplus. ring.
Qed.

Lemma sum_nil : sum [] = 0.
Proof. reflexivity. Qed.

Lemma sum_map_ext_in {A : Type} (f g : A -> Q) (l : list A) :
  (forall x, In x l -> f x == g x) -> sum (map f l) == sum (map g l).
Proof.
  induction l as [|x l IH]; intros H; simpl.
  - reflexivity.
  - rewrite !sum_cons, (H x (or_introl eq_refl)), IH; [reflexivity|].
    intros y Hy. apply H. now right.
Qed.

Lemma sum_map_scale {A : Type} (c : Q) (f : A -> Q) (l : list A) :
  sum (map (fun x => c * f x) l) == c * sum (map f l).
Proof.
  induction l as [|x l IH]; simpl.
  - rewrite sum_nil. ring.
  - rewrite !sum_cons, IH. ring.
Qed.

Lemma sum_pos (l : list Q) :
  l <> [] -> Forall (fun x => 0 < x) l -> 0 < sum l.
Proof.
  intros Hne Hall. induction Hall as [|x l Hx Hall IH]; [congruence|].
  rewrite sum_cons. destruct l as [|y l].
  - rewrite sum_nil. qlra.
  - assert (0 < sum (y :: l)) by (apply IH; discriminate). qlra.
Qed.

Lemma pow_succ (b : Q) (n : nat) : pow b (S n) == b * pow b n.
Proof.
  unfold pow. rewrite Nat2Z.inj_succ, <- Z.add_1_r.
  rewrite Qpower_plus' by lia. rewrite Qpower_1_r. ring.
Qed.

Lemma pow_pos (b : Q) (n : nat) : 0 < b -> 0 < pow b n.
Proof. intros H. unfold pow. now apply Qpower_0_lt. Qed.

Lemma np_percentile_ok (a : list Q) (q : Q) :
  0 <= q <= 100 -> exists v, np_percentile a q = Ok v.
Proof.
  intros [H0 H1]. unfold np_percentile.
  apply Qle_bool_iff in H0, H1. rewrite H0, H1. simpl. eauto.
Qed.

(** The percentile of a one-element array is its element. *)
Lemma np_percentile_singleton (c q : Q) :
  0 <= q <= 100 -> exists v, np_percentile [c] q = Ok v /\ v == c.
Proof.
  intros [H0 H1]. unfold np_percentile.
  apply Qle_bool_iff in H0, H1. rewrite H0, H1. simpl.
  eexists. split; [reflexivity|]. ring.
Qed.

Lemma clip1_same (c lo hi : Q) : lo == c -> hi == c -> clip1 lo hi c == c.
Proof.
  intros Hlo Hhi. unfold clip1. rewrite Hlo, Hhi.
  rewrite Q.max_id, Q.min_id. reflexivity.
Qed.

End PyFacts.

(** ** The percentile scorer *)

Section ScorerFacts.
Import Py Strategy Spec.
Local Open Scope Q_scope.

Lemma valid_pct_bounds (pct : Q) :
  valid_pct pct -> 0 <= pct * 100 <= 100 /\ 0 <= (1 - pct) * 100 <= 100.
Proof. unfold valid_pct. intros [H0 H1]. repeat split; qlra. Qed.

Lemma winsorize_ok (data : list Q) (pct : Q) :
  valid_pct pct -> exists w, winsorize data pct = Ok w.
Proof.
  intros H. destruct (valid_pct_bounds pct H) as [Hl Hu].
  destruct data as [|x data]; [simpl; eauto|].
  unfold winsorize.
  destruct (np_percentile_ok (x :: data) _ Hl) as [lo ->].
  destruct (np_percentile_ok (x :: data) _ Hu) as [hi ->].
  simpl. eauto.
Qed.

(** On a one-element array both bounds are the element itself, so the
    clip changes nothing. *)
Lemma winsorize_singleton (c pct : Q) :
  valid_pct pct -> exists w, winsorize [c] pct = Ok [w] /\ w == c.
Proof.
  intros H. destruct (valid_pct_bounds pct H) as [Hl Hu].
  unfold winsorize.
  destruct (np_percentile_singleton c _ Hl) as [lo [-> Hlo]].
  destruct (np_percentile_singleton c _ Hu) as [hi [-> Hhi]].
  simpl. eexists. split; [reflexivity|]. now apply clip1_same.
Qed.

Lemma winsorized_current_unchanged (self : config) (values : list Q) :
  valid_pct (winsorize_pct self) ->
  exists w, winsorized_current self values = Ok w /\ w == iloc_last values.
Proof.
  intros H. unfold winsorized_current.
  destruct (winsorize_singleton (iloc_last values) _ H) as [w [-> Hw]].
  simpl. eauto.
Qed.

Lemma weights_positive (self : config) (T : nat) :
  0 < lambda_decay self -> Forall (fun w => 0 < w) (weights self T).
Proof.
  intros H. unfold weights. apply Forall_forall. intros w Hw.
  apply in_map_iff in Hw. destruct Hw as [t [<- _]]. now apply pow_pos.
Qed.

Lemma total_weight_positive (self : config) (T : nat) :
  0 < lambda_decay self -> (0 < T)%nat -> 0 < sum (weights self T).
Proof.
  intros H HT. apply sum_pos; [|now apply weights_positive].
  unfold weights. destruct T; [lia|]. discriminate.
Qed.

Lemma truediv_ok (a b : Q) : 0 < b -> truediv a b = Ok (a / b).
Proof.
  intros H. unfold truediv.
  destruct (Qeq_bool b 0) eqn:E; [|reflexivity].
  apply Qeq_bool_iff in E. qlra.
Qed.

(** The guarded quotient of [calculate_weighted_percentile] always
    returns. *)
Lemma guarded_percentile_ok (ws total : Q) :
  exists p,
    (if Qlt_bool 0 total
     then r <- truediv ws total ;; Ok (r * 100)
     else Ok 50) = Ok p.
Proof.
  destruct (Qlt_bool 0 total) eqn:E; [|eauto].
  apply Qlt_bool_iff in E. rewrite (truediv_ok _ _ E). simpl. eauto.
Qed.

Lemma calculate_weighted_percentile_returns (self : config)
    (values : list Q) :
  valid_pct (winsorize_pct self) ->
  exists v, calculate_weighted_percentile self values = Ok v.
Proof.
  intros H. destruct values as [|x values]; [simpl; eauto|].
  unfold calculate_weighted_percentile.
  destruct (winsorize_ok (x :: values) _ H) as [wv ->].
  destruct (winsorized_current_unchanged self (x :: values) H) as [wc [-> _]].
  cbn [bind].
  match goal with
  | |- context [bind ?c _] =>
      let p := fresh "p" in let Hp := fresh "Hp" in
      destruct (guarded_percentile_ok
                  (weighted_sum (weights self (length (x :: values)))
                     (indicators wv wc (length (x :: values))))
                  (sum (weights self (length (x :: values))))) as [p Hp];
      rewrite Hp
  end.
  simpl. eauto.
Qed.

(** With a positive decay factor the quotient branch is the one taken. *)
Lemma calculate_weighted_percentile_value (self : config)
    (values : list Q) :
  values <> [] ->
  valid_pct (winsorize_pct self) ->
  0 < lambda_decay self ->
  exists wv wc,
    winsorize values (winsorize_pct self) = Ok wv /\
    winsorized_current self values = Ok wc /\
    wc == iloc_last values /\
    calculate_weighted_percentile self values =
      Ok (PTuple
            (weighted_sum (weights self (length values))
                          (indicators wv wc (length values))
             / sum (weights self (length values)) * 100)
            (iloc_last values)).
Proof.
  intros Hne H Hlam. destruct values as [|x values]; [congruence|].
  unfold calculate_weighted_percentile.
  destruct (winsorize_ok (x :: values) _ H) as [wv Hwv].
  destruct (winsorized_current_unchanged self (x :: values) H)
    as [wc [Hwc Hcur]].
  exists wv, wc. rewrite Hwv, Hwc. cbn [bind].
  assert (Ht : 0 < sum (weights self (length (x :: values)))).
  { apply total_weight_positive; [assumption | simpl; lia]. }
  pose proof Ht as Hb. apply Qlt_bool_iff in Hb. rewrite Hb.
  rewrite (truediv_ok _ _ Ht). cbn [bind]. repeat split; auto.
Qed.

End ScorerFacts.

Section ScorerClaims.
Import Py Strategy Spec.
Local Open Scope Q_scope.

Lemma combine_map_seq {A B : Type} (f : nat -> A) (g : nat -> B)
    (l : list nat) :
  combine (map f l) (map g l) = map (fun t => (f t, g t)) l.
Proof. induction l as [|x l IH]; simpl; [reflexivity | now rewrite IH]. Qed.

(** The weights of the loop are the weights of the formula, all scaled by
    the decay factor: the loop counts [t] from 0, the formula from 1. *)
Lemma weights_scaled (self : config) (T : nat) :
  sum (weights self T)
  == lambda_decay self
     * sum (map (fun t => spec_weight (lambda_decay self) T t) (seq 1 T)).
Proof.
  unfold weights. rewrite <- seq_shift, map_map, <- sum_map_scale.
  apply sum_map_ext_in. intros t Ht. apply in_seq in Ht.
  unfold spec_weight. replace (T - t)%nat with (S (T - S t)) by lia.
  apply pow_succ.
Qed.

Lemma weighted_sum_scaled (self : config) (wv : list Q) (wc : Q) (T : nat) :
  weighted_sum (weights self T) (indicators wv wc T)
  == lambda_decay self
     * sum (map (fun t => spec_weight (lambda_decay self) T t
                          * spec_indicator wv wc t) (seq 1 T)).
Proof.
  unfold weighted_sum, weights, indicators.
  rewrite combine_map_seq, map_map. cbn [fst snd].
  rewrite <- seq_shift, map_map, <- sum_map_scale.
  apply sum_map_ext_in. intros t Ht. apply in_seq in Ht.
  unfold spec_weight, spec_indicator.
  replace (S t - 1)%nat with t by lia.
  replace (T - t)%nat with (S (T - S t)) by lia.
  rewrite pow_succ. ring.
Qed.

Lemma spec_total_positive (lam : Q) (T : nat) :
  0 < lam -> (0 < T)%nat ->
  0 < sum (map (fun t => spec_weight lam T t) (seq 1 T)).
Proof.
  intros H HT. apply sum_pos.
  - destruct T; [lia | discriminate].
  - apply Forall_forall. intros w Hw. apply in_map_iff in Hw.
    destruct Hw as [t [<- _]]. now apply pow_pos.
Qed.

(** C4. For a non-empty series and a decay factor in (0,1], the percentile
    that [calculate_weighted_percentile] returns is
    (sum of weight x indicator) / (sum of weight) x 100, where the weight
    of the observation [t] (from 1, the earliest, to T, the latest) is
    [decay_lambda ^ (T - t)] and the indicators are those of the code. *)
Theorem weighted_percentile_formula (self : config) (values : list Q)
    (Hne : values <> [])
    (Hlam : 0 < lambda_decay self <= 1)
    (Hpct : 0 <= winsorize_pct self < 1 # 2) :
  exists wv wc p,
    winsorize values (winsorize_pct self) = Ok wv /\
    winsorized_current self values = Ok wc /\
    calculate_weighted_percentile self values
      = Ok (PTuple p (iloc_last values)) /\
    p == spec_percentile (lambda_decay self) (spec_indicator wv wc)
           (length values) /\
    spec_weight (lambda_decay self) (length values) (length values) == 1.
Proof.
  assert (Hv : valid_pct (winsorize_pct self)) by (unfold valid_pct; qlra).
  destruct Hlam as [Hlam _].
  destruct (calculate_weighted_percentile_value self values Hne Hv Hlam)
    as [wv [wc [Hwv [Hwc [_ Hres]]]]].
  exists wv, wc. eexists.
  split; [exact Hwv|]. split; [exact Hwc|]. split; [exact Hres|]. split.
  - unfold spec_percentile.
    rewrite weighted_sum_scaled, weights_scaled.
    assert (HT : (0 < length values)%nat).
    { destruct values; [congruence | simpl; lia]. }
    pose proof (spec_total_positive (lambda_decay self) (length values)
                  Hlam HT) as Hpos.
    field. split; qlra.
  - unfold spec_weight. rewrite Nat.sub_diag. reflexivity.
Qed.

Lemma weighted_percentile_formula_witness :
  outlier_series <> [] /\
  0 < lambda_decay default_config <= 1 /\
  0 <= winsorize_pct default_config < 1 # 2 /\
  exists wv wc p,
    winsorize outlier_series (winsorize_pct default_config) = Ok wv /\
    winsorized_current default_config outlier_series = Ok wc /\
    calculate_weighted_percentile default_config outlier_series
      = Ok (PTuple p (iloc_last outlier_series)) /\
    p == spec_percentile (lambda_decay default_config) (spec_indicator wv wc)
           (length outlier_series) /\
    spec_weight (lambda_decay default_config) (length outlier_series)
                (length outlier_series) == 1.
Proof.
  assert (H1 : outlier_series <> []) by discriminate.
  assert (H2 : 0 < lambda_decay default_config <= 1)
    by (split; vm_compute; congruence).
  assert (H3 : 0 <= winsorize_pct default_config < 1 # 2)
    by (split; vm_compute; congruence).
  split; [exact H1|]. split; [exact H2|]. split; [exact H3|].
  apply (weighted_percentile_formula default_config outlier_series H1 H2 H3).
Defined.

(** C9. [calculate_weighted_percentile] does not raise: on the empty
    series it returns the bare float 0.0, on every series it returns a
    value, and on a one-observation series it returns percentile 0 (the
    observation is not strictly below itself). *)
Theorem weighted_percentile_never_raises (self : config)
    (Hpct : 0 <= winsorize_pct self < 1 # 2)
    (Hlam : 0 < lambda_decay self <= 1) :
  calculate_weighted_percentile self [] = Ok (PFloat 0) /\
  (forall values, exists v, calculate_weighted_percentile self values = Ok v) /\
  (forall x, exists p,
      calculate_weighted_percentile self [x] = Ok (PTuple p x) /\ p == 0).
Proof.
  assert (Hv : valid_pct (winsorize_pct self)) by (unfold valid_pct; qlra).
  destruct Hlam as [Hlam _].
  split; [reflexivity|]. split.
  - intros values. now apply calculate_weighted_percentile_returns.
  - intros x.
    destruct (calculate_weighted_percentile_value self [x]
                ltac:(discriminate) Hv Hlam)
      as [wv [wc [Hwv [Hwc [Hcur Hres]]]]].
    eexists. split; [exact Hres|].
    destruct (winsorize_singleton x _ Hv) as [w [Hw Hwx]].
    rewrite Hw in Hwv. injection Hwv as <-.
    unfold weighted_sum, weights, indicators. simpl.
    assert (E : Qlt_bool w wc = false).
    { apply Qlt_bool_false_iff. simpl in Hcur. rewrite Hcur, Hwx. apply Qle_refl. }
    rewrite E. unfold sum. simpl.
    assert (Hp : 0 < pow (lambda_decay self) 1) by now apply pow_pos.
    field. qlra.
Qed.

Lemma weighted_percentile_never_raises_witness :
  0 <= winsorize_pct default_config < 1 # 2 /\
  0 < lambda_decay default_config <= 1 /\
  calculate_weighted_percentile default_config [] = Ok (PFloat 0) /\
  (forall values,
      exists v, calculate_weighted_percentile default_config values = Ok v) /\
  (forall x, exists p,
      calculate_weighted_percentile default_config [x] = Ok (PTuple p x)
      /\ p == 0).
Proof.
  assert (H1 : 0 <= winsorize_pct default_config < 1 # 2)
    by (split; vm_compute; congruence).
  assert (H2 : 0 < lambda_decay default_config <= 1)
    by (split; vm_compute; congruence).
  split; [exact H1|]. split; [exact H2|].
  apply (weighted_percentile_never_raises default_config H1 H2).
Defined.

End ScorerClaims.

Section ScorerDefects.
Import Py Strategy Spec.
Local Open Scope Q_scope.

(** C1, the code at [outlier_series] with the default configuration.  The
    clip bounds of the series are 1.2 and 80.8, and the series is clipped
    to them; the current value 100 goes through [winsorize] alone, as a
    one-element array, and comes back as 100, not as 80.8.  The latest
    observation then counts as below the current value and the percentile
    is 100; with the clipped current value the formula gives less. *)
Theorem current_value_not_clipped_with_series_bounds :
  exists wv wc cc p,
    winsorize outlier_series (winsorize_pct default_config) = Ok wv /\
    Forall2 Qeq wv [12 # 10; 2; 3; 4; 808 # 10] /\
    winsorized_current default_config outlier_series = Ok wc /\
    wc == 100 /\
    clipped_current default_config outlier_series = Ok cc /\
    cc == 808 # 10 /\
    ~ wc == cc /\
    calculate_weighted_percentile default_config outlier_series
      = Ok (PTuple p 100) /\
    p == 100 /\
    spec_percentile (lambda_decay default_config) (spec_indicator wv cc) 5
      < 100.
Proof.
  do 4 eexists.
  split; [vm_compute; reflexivity|].
  split; [repeat constructor|].
  split; [vm_compute; reflexivity|].
  split; [reflexivity|].
  split; [vm_compute; reflexivity|].
  split; [reflexivity|].
  split; [intros H; vm_compute in H; discriminate|].
  split; [vm_compute; reflexivity|].
  split; [reflexivity|].
  vm_compute. reflexivity.
Qed.

(** When every selected ETF has percentile 100 the raw factors sum to
    zero and the first quotient raises. *)
Lemma nonlinear_weights_zero_total (selected : list etf_score) :
  selected <> [] ->
  Forall (fun e => percentile e == 100) selected ->
  calculate_nonlinear_weights selected = Raise ZeroDivisionError.
Proof.
  intros Hne Hall. unfold calculate_nonlinear_weights.
  set (raw := map (fun p => pow ((100 - p) / 50) 2) (map percentile selected)).
  assert (Hraw : Forall (fun w => w == 0) raw).
  { unfold raw. rewrite map_map. apply Forall_forall. intros w Hw.
    apply in_map_iff in Hw. destruct Hw as [e [<- He]].
    rewrite Forall_forall in Hall. unfold pow. rewrite (Hall e He).
    reflexivity. }
  assert (Hsum : sum raw == 0).
  { clear -Hraw. induction Hraw as [|w l Hw _ IH]; [reflexivity|].
    rewrite sum_cons, Hw, IH. reflexivity. }
  destruct raw as [|w raw'] eqn:E.
  - unfold raw in E. destruct selected; [congruence | discriminate].
  - simpl mapM. unfold truediv at 1.
    apply Qeq_bool_iff in Hsum. rewrite Hsum. reflexivity.
Qed.

(** C3, the code at a selection whose percentiles are all 100, given
    directly and as [select_top_etfs] produces it from three series that
    each end at their highest value: [calculate_nonlinear_weights] raises
    [ZeroDivisionError]. *)
Theorem nonlinear_weights_raise_at_percentile_100 :
  calculate_nonlinear_weights selected_at_100 = Raise ZeroDivisionError /\
  exists selected,
    select_top_etfs default_config etf_data_at_highs 3 = Ok selected /\
    Forall (fun e => percentile e == 100) selected /\
    calculate_nonlinear_weights selected = Raise ZeroDivisionError.
Proof.
  split; [vm_compute; reflexivity|].
  eexists. split; [vm_compute; reflexivity|].
  split; [repeat constructor|].
  vm_compute. reflexivity.
Qed.

End ScorerDefects.

(** ** The stable sort *)

Section SortFacts.
Import Py.
Context {A : Type}.

Lemma insert_perm (before : A -> A -> bool) (x : A) (l : list A) :
  Permutation (x :: l) (insert before x l).
Proof.
  induction l as [|y l IH]; simpl; [reflexivity|].
  destruct (before x y); [reflexivity|].
  rewrite perm_swap. now constructor.
Qed.

Lemma sort_by_perm (before : A -> A -> bool) (l : list A) :
  Permutation l (sort_by before l).
Proof.
  induction l as [|x l IH]; simpl; [reflexivity|].
  rewrite <- insert_perm. now constructor.
Qed.

Lemma sort_by_length (before : A -> A -> bool) (l : list A) :
  length (sort_by before l) = length l.
Proof. symmetry. apply Permutation_length, sort_by_perm. Qed.




Section Ordered.
Variable before : A -> A -> bool.
Hypothesis before_total : forall x y, before x y = false -> before y x = true.
Hypothesis before_trans :
  forall x y z, before x y = true -> before y z = true -> before x z = true.

Let R (x y : A) : Prop := before x y = true.

Lemma insert_sorted (x : A) (l : list A) :
  Sorted R l -> Sorted R (insert before x l).
Proof.
  induction 1 as [|y l Hs IH Hhd]; simpl.
  - repeat constructor.
  - destruct (before x y) eqn:E.
    + constructor; [now constructor | now constructor].
    + constructor; [exact IH|].
      destruct l as [|z l]; simpl.
      * constructor. now apply before_total.
      * destruct (before x z); constructor.
        -- now apply before_total.
        -- now inversion Hhd.
Qed.

Lemma sort_by_sorted (l : list A) : StronglySorted R (sort_by before l).
Proof.
  apply Sorted_StronglySorted.
  - intros x y z. apply before_trans.
  - induction l as [|x l IH]; simpl; [constructor|].
    now apply insert_sorted.
Qed.
End Ordered.

Lemma StronglySorted_impl (R R' : A -> A -> Prop) (l : list A) :
  (forall x y, R x y -> R' x y) -> StronglySorted R l -> StronglySorted R' l.
Proof.
  intros HR. induction 1 as [|x l Hs IH Hall]; constructor; [exact IH|].
  eapply Forall_impl; [|exact Hall]. intros y. apply HR.
Qed.

Lemma In_firstn (n : nat) (l : list A) (x : A) :
  In x (firstn n l) -> In x l.
Proof.
  intros H. rewrite <- (firstn_skipn n l). apply in_or_app. now left.
Qed.

Lemma StronglySorted_firstn (R : A -> A -> Prop) (n : nat) (l : list A) :
  StronglySorted R l -> StronglySorted R (firstn n l).
Proof.
  intros H. revert n. induction H as [|x l Hs IH Hall]; intros [|n]; simpl;
    try constructor.
  - apply IH.
  - apply Forall_forall. intros y Hy. rewrite Forall_forall in Hall.
    apply Hall. eapply In_firstn; eauto.
Qed.

Lemma StronglySorted_app_inv (R : A -> A -> Prop) (l1 l2 : list A) :
  StronglySorted R (l1 ++ l2) ->
  forall x y, In x l1 -> In y l2 -> R x y.
Proof.
  induction l1 as [|a l1 IH]; intros H x y Hx Hy; [contradiction|].
  simpl in H. inversion H as [|? ? Hs Hall]; subst.
  destruct Hx as [<- | Hx].
  - rewrite Forall_forall in Hall. apply Hall, in_or_app. now right.
  - now apply IH.
Qed.

End SortFacts.


(** ** The ETF ranking *)

Section RankingClaims.
Import Py Strategy Spec.
Local Open Scope Q_scope.









(** The ranking at [etf_data_mixed]: all three ETFs are scored, and the
    order by total score is the order by percentile. *)
Example select_top_etfs_mixed :
  exists a b c,
    select_top_etfs default_config etf_data_mixed 3 = Ok [a; b; c] /\
    map name [a; b; c] = ["红利ETF"; "上证50ETF"; "碳中和ETF"]%string /\
    percentile a < percentile b < percentile c /\
    total_score c < total_score b < total_score a.
Proof.
  do 3 eexists. split; [vm_compute; reflexivity|].
  split; [reflexivity|]. split; split; reflexivity.
Qed.

End RankingClaims.

(** ** The position sizer *)

Section SizerClaims.
Import Sizer SizerSpec.
Local Open Scope R_scope.

Lemma np_clip01_bounds (position : R) : 0 <= np_clip01 position <= 1.
Proof.
  unfold np_clip01, Rmin, Rmax.
  destruct (Rle_dec position 0); destruct (Rle_dec 1 _); rlra.
Qed.

Lemma np_clip01_id (position : R) :
  0 <= position <= 1 -> np_clip01 position = position.
Proof.
  intros H. unfold np_clip01, Rmin, Rmax.
  destruct (Rle_dec position 0); destruct (Rle_dec 1 _); rlra.
Qed.

Lemma custom_at_0 : np_interp (0 / 100) points_xy = 1.
Proof.
  unfold np_interp, points_xy, interp_from. cbn [fst snd].
  repeat (destruct (Rlt_dec _ _); try rlra).
Qed.

Lemma custom_at_50 : np_interp (50 / 100) points_xy = 0.5.
Proof.
  unfold np_interp, points_xy, interp_from. cbn [fst snd].
  repeat (destruct (Rlt_dec _ _); try rlra).
Qed.

Lemma custom_at_100 : np_interp (100 / 100) points_xy = 0.
Proof.
  unfold np_interp, points_xy, interp_from. cbn [fst snd].
  repeat (destruct (Rlt_dec _ _); try rlra).
Qed.

(** C7. For a percentile in [0,100], any curve name and a positive
    aggressiveness, the position is in [0,1]; the linear curve gives 1 at 0
    and 0 at 100, the custom curve 1 at 0, 0.5 at 50 and 0 at 100. *)
Theorem position_in_unit_interval (nonlinear_type : string)
    (aggressiveness percentile : R)
    (Hp : 0 <= percentile <= 100) (Ha : 0 < aggressiveness) :
  0 <= nonlinear_position_sizing nonlinear_type aggressiveness percentile <= 1
  /\ nonlinear_position_sizing "linear" aggressiveness 0 = 1
  /\ nonlinear_position_sizing "linear" aggressiveness 100 = 0
  /\ nonlinear_position_sizing "custom" aggressiveness 0 = 1
  /\ nonlinear_position_sizing "custom" aggressiveness 50 = 0.5
  /\ nonlinear_position_sizing "custom" aggressiveness 100 = 0.
Proof.
  split; [apply np_clip01_bounds|].
  unfold nonlinear_position_sizing. cbn [String.eqb Ascii.eqb Bool.eqb].
  rewrite custom_at_0, custom_at_50, custom_at_100.
  repeat split; apply np_clip01_id || (rewrite np_clip01_id; rlra); rlra.
Qed.

Lemma position_in_unit_interval_witness :
  0 <= 37 <= 100 /\ 0 < 1.2 /\
  0 <= nonlinear_position_sizing "power" 1.2 37 <= 1
  /\ nonlinear_position_sizing "linear" 1.2 0 = 1
  /\ nonlinear_position_sizing "linear" 1.2 100 = 0
  /\ nonlinear_position_sizing "custom" 1.2 0 = 1
  /\ nonlinear_position_sizing "custom" 1.2 50 = 0.5
  /\ nonlinear_position_sizing "custom" 1.2 100 = 0.
Proof.
  assert (H1 : 0 <= 37 <= 100) by rlra.
  assert (H2 : 0 < 1.2) by rlra.
  split; [exact H1|]. split; [exact H2|].
  apply (position_in_unit_interval "power" 1.2 37 H1 H2).
Defined.

Lemma sigmoid_open_unit (a p : R) : 0 < sigmoid a p < 1.
Proof.
  unfold sigmoid.
  pose proof (exp_pos (5 * a * (p / 100 - 0.5))) as He.
  split.
  - apply Rdiv_lt_0_compat; rlra.
  - apply (Rmult_lt_reg_r (1 + exp (5 * a * (p / 100 - 0.5)))); [rlra|].
    unfold Rdiv. rewrite Rmult_assoc, Rinv_l by rlra. rlra.
Qed.

Lemma sizing_sigmoid (a p : R) :
  nonlinear_position_sizing "sigmoid" a p = sigmoid a p.
Proof.
  unfold nonlinear_position_sizing. cbn [String.eqb Ascii.eqb Bool.eqb].
  apply np_clip01_id. pose proof (sigmoid_open_unit a p). unfold sigmoid in *.
  rlra.
Qed.





End SizerClaims.

(** ** The composite screener *)

Section ScreenerClaims.
Import Py Screener ScreenerSpec.
Local Open Scope Q_scope.

(** C2, the code at [monthly_frame]: index 801010 gained 5% in the latest
    month, the average gain is 8%, and the resilience coefficient is
    (5 + 10) / 10 = 1.5, above 1; with it the composite score of the index,
    as the screener returns it, is 118.75, above 100. *)
Theorem resilience_exceeds_one_below_positive_average :
  all_indices_avg_change monthly_frame = Some (16 # 2) /\
  calculate_price_resilience_coefficient 801010 monthly_frame (Some (16 # 2))
    == 15 # 10 /\
  exists v,
    select_best_sw_lv2_indices_by_valuation current_frame monthly_frame indices
      = [v] /\
    code v = 801010%Z /\
    safety_score v <= 1 /\
    trading_activity v == 1 /\
    price_resilience v == 15 # 10 /\
    1 < price_resilience v /\
    comprehensive_score v == 11875 # 100 /\
    100 < comprehensive_score v.
Proof.
  split; [vm_compute; reflexivity|].
  split; [vm_compute; reflexivity|].
  eexists. split; [vm_compute; reflexivity|].
  cbn [code safety_score trading_activity price_resilience
       comprehensive_score].
  split; [reflexivity|].
  split; [intros H; vm_compute in H; discriminate|].
  repeat (split; [reflexivity|]). reflexivity.
Qed.

(** [check_valuation_declining] counts the leading run of the newest-first
    history in which each month is strictly below the month before it. *)
Lemma check_valuation_declining_run (pe_history : list hist_item) :
  let n := check_valuation_declining pe_history in
  let pe i := h_pe (nth i pe_history (item 0 0 0)) in
  (forall i, (i < n)%nat ->
     (S i < length pe_history)%nat /\ pe i < pe (S i)) /\
  ((S n < length pe_history)%nat -> ~ pe n < pe (S n)).
Proof.
  induction pe_history as [|a l IH]; simpl.
  - split; [intros i Hi; lia | intros H; lia].
  - destruct l as [|b l'].
    + split; [intros i Hi; lia | simpl; intros H; lia].
    + destruct (Qlt_bool (h_pe a) (h_pe b)) eqn:E.
      * destruct IH as [IH1 IH2]. split.
        -- intros [|i] Hi.
           ++ split; [simpl; lia | now apply Qlt_bool_iff].
           ++ destruct (IH1 i ltac:(lia)) as [Hlen Hlt].
              split; [simpl in *; lia | exact Hlt].
        -- intros Hlen. apply IH2. simpl in *. lia.
      * split; [intros i Hi; lia|].
        intros _ Hlt. apply Qlt_bool_iff in Hlt. simpl in Hlt. congruence.
Qed.

(** C5. With both percentiles defined, the safety score is 0, and so is
    the composite score, as soon as q < 10, or the valuation fell in each
    of the last three months or more, or pp > 70, whatever the other two
    axes are. *)
Theorem safety_score_exclusions (pe_percentile price_percentile : Q)
    (pe_history : list hist_item)
    (H : pe_percentile * 100 < 10 \/
         (3 <= check_valuation_declining pe_history)%nat \/
         70 < price_percentile * 100) :
  calculate_valuation_safety_score
    (Some pe_percentile) (Some price_percentile) pe_history = 0 /\
  forall trading_activity price_resilience,
    calculate_comprehensive_score
      (calculate_valuation_safety_score
         (Some pe_percentile) (Some price_percentile) pe_history)
      trading_activity price_resilience == 0.
Proof.
  assert (E : calculate_valuation_safety_score
                (Some pe_percentile) (Some price_percentile) pe_history = 0).
  { unfold calculate_valuation_safety_score.
    destruct (Qlt_bool (pe_percentile * 100) 10) eqn:Eq; [reflexivity|].
    destruct (Nat.leb 3 (check_valuation_declining pe_history)) eqn:Ed;
      [reflexivity|].
    destruct (Qlt_bool 70 (price_percentile * 100)) eqn:Ep; [reflexivity|].
    exfalso. destruct H as [H | [H | H]].
    - apply Qlt_bool_iff in H. congruence.
    - apply Nat.leb_le in H. congruence.
    - apply Qlt_bool_iff in H. congruence. }
  split; [exact E|].
  intros ta pr. rewrite E. unfold calculate_comprehensive_score. ring.
Qed.

(** Each exclusion alone, with the other two axes favourable (q = 20,
    pp = 20 and a flat valuation give a positive score). *)
Lemma safety_score_exclusions_witness :
  0 < calculate_valuation_safety_score (Some (20 # 100)) (Some (20 # 100))
        steady_history /\
  ((5 # 100) * 100 < 10 /\
   calculate_valuation_safety_score (Some (5 # 100)) (Some (20 # 100))
     steady_history = 0) /\
  ((3 <= check_valuation_declining falling_history)%nat /\
   calculate_valuation_safety_score (Some (20 # 100)) (Some (20 # 100))
     falling_history = 0) /\
  (70 < (80 # 100) * 100 /\
   calculate_valuation_safety_score (Some (20 # 100)) (Some (80 # 100))
     steady_history = 0).
Proof.
  split; [reflexivity|].
  assert (H1 : (5 # 100) * 100 < 10) by reflexivity.
  assert (H2 : (3 <= check_valuation_declining falling_history)%nat)
    by (vm_compute; lia).
  assert (H3 : 70 < (80 # 100) * 100) by reflexivity.
  split; [split; [exact H1|]|split; [split; [exact H2|]|split; [exact H3|]]].
  - exact (proj1 (safety_score_exclusions (5 # 100) (20 # 100) steady_history
                    (or_introl H1))).
  - exact (proj1 (safety_score_exclusions (20 # 100) (20 # 100)
                    falling_history (or_intror (or_introl H2)))).
  - exact (proj1 (safety_score_exclusions (20 # 100) (80 # 100)
                    steady_history (or_intror (or_intror H3)))).
Defined.

(** The loop appends an entry only when its composite score is positive. *)
Lemma evaluate_index_positive (current_df monthly_df : dataframe)
    (avg_change : option Q) (entry : Z * string) (v : valuation) :
  In v (evaluate_index current_df monthly_df avg_change entry) ->
  0 < comprehensive_score v.
Proof.
  destruct entry as [c nm]. unfold evaluate_index.
  destruct (get_index_current_pe c current_df) as [pe|]; [|contradiction].
  destruct (get_index_monthly_pe_history c monthly_df) as [|h0 hist];
    [contradiction|].
  destruct (calculate_pe_percentile _ _) as [q|]; [|contradiction].
  destruct (calculate_price_percentile _ _) as [pp|]; [|contradiction].
  cbv zeta.
  destruct (Qlt_bool 0 _) eqn:E; [|contradiction].
  intros [<- | []]. cbn [comprehensive_score]. now apply Qlt_bool_iff.
Qed.

Lemma collect_valuations_positive (current_df monthly_df : dataframe)
    (sw_lv2_indices : list (Z * string)) :
  Forall (fun v => 0 < comprehensive_score v)
         (collect_valuations current_df monthly_df sw_lv2_indices).
Proof.
  apply Forall_forall. intros v Hv. unfold collect_valuations in Hv.
  apply in_flat_map in Hv. destruct Hv as [entry [_ Hv]].
  eapply evaluate_index_positive; eauto.
Qed.

(** The loop body appends an entry exactly for a qualifying index, and the
    entry carries the index and its composite score. *)
Lemma evaluate_index_qualifies (current_df monthly_df : dataframe)
    (entry : Z * string) :
  match composite_score_of current_df monthly_df (fst entry) with
  | Some s =>
      if Qlt_bool 0 s
      then exists v,
             evaluate_index current_df monthly_df
               (all_indices_avg_change monthly_df) entry = [v] /\
             entry_of v = entry /\ comprehensive_score v = s
      else evaluate_index current_df monthly_df
             (all_indices_avg_change monthly_df) entry = []
  | None =>
      evaluate_index current_df monthly_df
        (all_indices_avg_change monthly_df) entry = []
  end.
Proof.
  destruct entry as [c nm]. unfold composite_score_of, evaluate_index.
  cbn [fst].
  destruct (get_index_current_pe c current_df) as [pe|]; [|reflexivity].
  destruct (get_index_monthly_pe_history c monthly_df) as [|h0 hist];
    [reflexivity|].
  destruct (calculate_pe_percentile _ _) as [q|]; [|reflexivity].
  destruct (calculate_price_percentile _ _) as [pp|]; [|reflexivity].
  cbv zeta.
  destruct (Qlt_bool 0 _) eqn:E; [|reflexivity].
  eexists. split; [reflexivity|]. split; reflexivity.
Qed.

Lemma collect_valuations_qualifying (current_df monthly_df : dataframe)
    (sw_lv2_indices : list (Z * string)) :
  map entry_of (collect_valuations current_df monthly_df sw_lv2_indices)
  = qualifying current_df monthly_df sw_lv2_indices.
Proof.
  unfold collect_valuations, qualifying.
  induction sw_lv2_indices as [|entry l IH]; [reflexivity|].
  cbn [flat_map filter]. rewrite map_app, IH.
  assert (Hq : qualifies current_df monthly_df entry
               = match composite_score_of current_df monthly_df (fst entry)
                 with Some s => Qlt_bool 0 s | None => false end)
    by reflexivity.
  rewrite Hq. clear Hq.
  pose proof (evaluate_index_qualifies current_df monthly_df entry) as H.
  destruct (composite_score_of current_df monthly_df (fst entry)) as [s|].
  - destruct (Qlt_bool 0 s).
    + destruct H as (v & Hev & Hv & _). rewrite Hev. cbn [map app].
      now rewrite Hv.
    + rewrite H. reflexivity.
  - rewrite H. reflexivity.
Qed.

Lemma collect_valuations_scores (current_df monthly_df : dataframe)
    (sw_lv2_indices : list (Z * string)) :
  Forall (fun v => composite_score_of current_df monthly_df (code v)
                   = Some (comprehensive_score v))
         (collect_valuations current_df monthly_df sw_lv2_indices).
Proof.
  apply Forall_forall. intros v Hv. unfold collect_valuations in Hv.
  apply in_flat_map in Hv. destruct Hv as [entry [_ Hv]].
  pose proof (evaluate_index_qualifies current_df monthly_df entry) as H.
  destruct (composite_score_of current_df monthly_df (fst entry))
    as [s|] eqn:Es.
  - destruct (Qlt_bool 0 s).
    + destruct H as (v' & Hev & Hent & Hsc). rewrite Hev in Hv.
      destruct Hv as [<- | []].
      assert (Hc : code v' = fst entry) by (rewrite <- Hent; reflexivity).
      rewrite Hc, Es, Hsc. reflexivity.
    + rewrite H in Hv. contradiction.
  - rewrite H in Hv. contradiction.
Qed.

Lemma collect_valuations_complete (current_df monthly_df : dataframe)
    (sw_lv2_indices : list (Z * string)) (entry : Z * string) (s : Q) :
  In entry sw_lv2_indices ->
  composite_score_of current_df monthly_df (fst entry) = Some s ->
  0 < s ->
  exists v,
    In v (collect_valuations current_df monthly_df sw_lv2_indices) /\
    entry_of v = entry /\ comprehensive_score v = s.
Proof.
  intros Hin Hs Hpos.
  pose proof (evaluate_index_qualifies current_df monthly_df entry) as H.
  rewrite Hs in H. apply Qlt_bool_iff in Hpos. rewrite Hpos in H.
  destruct H as (v & Hev & Hent & Hsc).
  exists v. split; [|split; assumption].
  unfold collect_valuations. apply in_flat_map.
  exists entry. split; [exact Hin|]. rewrite Hev. now left.
Qed.

Lemma sort_by_score_desc_sorted (l : list valuation) :
  StronglySorted score_desc (sort_by_score_desc l).
Proof.
  unfold sort_by_score_desc.
  eapply StronglySorted_impl; [|apply sort_by_sorted].
  - intros a b Hab. now apply Qle_bool_iff in Hab.
  - intros a b Hab. apply Qle_bool_iff. apply Qlt_le_weak.
    apply Qnot_le_lt. intros Hle. apply Qle_bool_iff in Hle. congruence.
  - intros a b c Hab Hbc. apply Qle_bool_iff in Hab, Hbc.
    apply Qle_bool_iff. eapply Qle_trans; eauto.
Qed.

(** C6. The screener keeps exactly the qualifying indices, those whose
    composite score exists and is above 0, each with that score.  Its
    result holds only entries with a positive composite score, in
    descending order of the score; it is the first 8 entries of the ranked
    survivors: all of them, unchanged, when 8 or fewer indices qualify (3
    qualifying indices give 3 entries), and otherwise 8 entries that score
    at least as much as every entry left out. *)
Theorem screener_result_ranked_and_capped (current_df monthly_df : dataframe)
    (sw_lv2_indices : list (Z * string)) :
  let qualified := qualifying current_df monthly_df sw_lv2_indices in
  let survivors := collect_valuations current_df monthly_df sw_lv2_indices in
  let result :=
    select_best_sw_lv2_indices_by_valuation
      current_df monthly_df sw_lv2_indices in
  map entry_of survivors = qualified /\
  Forall (fun v => composite_score_of current_df monthly_df (code v)
                   = Some (comprehensive_score v)) survivors /\
  (forall entry s,
      In entry sw_lv2_indices ->
      composite_score_of current_df monthly_df (fst entry) = Some s ->
      0 < s ->
      exists v, In v survivors /\ entry_of v = entry /\
                comprehensive_score v = s) /\
  Forall (fun v => 0 < comprehensive_score v) result /\
  StronglySorted score_desc result /\
  result = firstn 8 (sort_by_score_desc survivors) /\
  length result = Nat.min 8 (length survivors) /\
  length result = Nat.min 8 (length qualified) /\
  ((length survivors <= 8)%nat ->
     Permutation survivors result /\ result = sort_by_score_desc survivors) /\
  ((length qualified <= 8)%nat ->
     Permutation qualified (map entry_of result)) /\
  ((length survivors = 3)%nat -> length result = 3%nat) /\
  ((length qualified = 3)%nat -> length result = 3%nat) /\
  ((8 < length survivors)%nat ->
     length result = 8%nat /\
     exists dropped,
       Permutation survivors (result ++ dropped) /\
       forall kept d, In kept result -> In d dropped -> score_desc kept d) /\
  ((8 < length qualified)%nat ->
     length result = 8%nat /\
     exists dropped,
       Permutation qualified (map entry_of (result ++ dropped)) /\
       forall kept d, In kept result -> In d dropped -> score_desc kept d).
Proof.
  intros qualified survivors result.
  assert (Hres : result = firstn 8 (sort_by_score_desc survivors)).
  { unfold result, select_best_sw_lv2_indices_by_valuation.
    fold survivors. destruct survivors as [|v l] eqn:E; [reflexivity|].
    destruct (Nat.ltb 8 _) eqn:El; [reflexivity|].
    apply Nat.ltb_ge in El. symmetry. now apply firstn_all2. }
  assert (Hpos : Forall (fun v => 0 < comprehensive_score v) survivors)
    by apply collect_valuations_positive.
  assert (Hlen : length (sort_by_score_desc survivors) = length survivors)
    by apply sort_by_length.
  assert (Hperm : Permutation survivors (sort_by_score_desc survivors))
    by apply sort_by_perm.
  assert (Hq : map entry_of survivors = qualified)
    by apply collect_valuations_qualifying.
  assert (Hql : length qualified = length survivors)
    by (rewrite <- Hq; apply length_map).
  assert (Hdrop : (8 < length survivors)%nat ->
            length result = 8%nat /\
            Permutation survivors
              (result ++ skipn 8 (sort_by_score_desc survivors)) /\
            forall kept d, In kept result ->
              In d (skipn 8 (sort_by_score_desc survivors)) ->
              score_desc kept d).
  { intros Hgt. split.
    { rewrite Hres, length_firstn, Hlen. lia. }
    split.
    - rewrite Hres, firstn_skipn. exact Hperm.
    - intros kept d Hk Hd. rewrite Hres in Hk.
      eapply (StronglySorted_app_inv score_desc); [|exact Hk|exact Hd].
      rewrite firstn_skipn. apply sort_by_score_desc_sorted. }
  split; [exact Hq|].
  split; [apply collect_valuations_scores|].
  split.
  { intros entry s Hin Hs Hpos_s.
    apply (collect_valuations_complete current_df monthly_df sw_lv2_indices
             entry s Hin Hs Hpos_s). }
  split.
  { rewrite Hres. apply Forall_forall. intros v Hv. apply In_firstn in Hv.
    revert v Hv. apply Forall_forall.
    eapply Permutation_Forall; eauto. }
  split.
  { rewrite Hres. apply StronglySorted_firstn, sort_by_score_desc_sorted. }
  split; [exact Hres|].
  split.
  { rewrite Hres, length_firstn, Hlen. reflexivity. }
  split.
  { rewrite Hres, length_firstn, Hlen, Hql. reflexivity. }
  split.
  { intros Hle. rewrite Hres, firstn_all2 by lia.
    split; [exact Hperm | reflexivity]. }
  split.
  { intros Hle. rewrite Hres, firstn_all2 by lia. rewrite <- Hq.
    apply Permutation_map. exact Hperm. }
  split.
  { intros H3. rewrite Hres, length_firstn, Hlen, H3. reflexivity. }
  split.
  { intros H3. rewrite Hres, length_firstn, Hlen, <- Hql, H3. reflexivity. }
  split.
  { intros Hgt. destruct (Hdrop Hgt) as (H8 & Hp & Hk).
    split; [exact H8|]. eexists. split; [exact Hp | exact Hk]. }
  intros Hgt. rewrite Hql in Hgt. destruct (Hdrop Hgt) as (H8 & Hp & Hk).
  split; [exact H8|]. eexists. split; [|exact Hk].
  rewrite <- Hq. apply Permutation_map. exact Hp.
Qed.

(** Twelve qualifying indices give the eight best, three give all three. *)
Example screener_twelve_survivors :
  qualifying (universe_current 12) (universe_monthly 12) (universe_indices 12)
  = universe_indices 12 /\
  length (collect_valuations (universe_current 12) (universe_monthly 12)
            (universe_indices 12)) = 12%nat /\
  map code (select_best_sw_lv2_indices_by_valuation
              (universe_current 12) (universe_monthly 12)
              (universe_indices 12))
  = [801001; 801002; 801003; 801004; 801005; 801006; 801007; 801008]%Z.
Proof. repeat split; vm_compute; reflexivity. Qed.

Example screener_three_survivors :
  map code (select_best_sw_lv2_indices_by_valuation
              (universe_current 3) (universe_monthly 3) (universe_indices 3))
  = [801001; 801002; 801003]%Z.
Proof. vm_compute. reflexivity. Qed.

End ScreenerClaims.

(** ** More on the composite screener *)

Section ScreenerRanges.
Import Py Screener ScreenerSpec.
Local Open Scope Q_scope.

Lemma filter_length_le {A : Type} (f : A -> bool) (l : list A) :
  (length (filter f l) <= length l)%nat.
Proof.
  induction l as [|x l IH]; simpl; [lia|]. destruct (f x); simpl; lia.
Qed.

Lemma filter_length_lt {A : Type} (f : A -> bool) (l : list A) (x : A) :
  In x l -> f x = false -> (length (filter f l) < length l)%nat.
Proof.
  induction l as [|y l IH]; intros Hin Hf; [contradiction|].
  simpl. destruct Hin as [-> | Hin].
  - rewrite Hf. pose proof (filter_length_le f l). lia.
  - specialize (IH Hin Hf). destruct (f y); simpl; lia.
Qed.

Lemma Qdiv_nat_bounds (a b : nat) :
  (a <= b)%nat ->
  0 <= inject_Z (Z.of_nat a) / inject_Z (Z.of_nat b) <= 1.
Proof.
  intros Hab. destruct b as [|b].
  - replace a with O by lia. split; vm_compute; congruence.
  - assert (Hb : 0 < inject_Z (Z.of_nat (S b))).
    { rewrite <- (Zlt_Qlt 0). lia. }
    split.
    + apply Qle_shift_div_l; [exact Hb|]. rewrite Qmult_0_l.
      rewrite <- (Zle_Qle 0). lia.
    + apply Qle_shift_div_r; [exact Hb|]. rewrite Qmult_1_l.
      rewrite <- Zle_Qle. lia.
Qed.

Lemma Qdiv_nat_lt_1 (a b : nat) :
  (a < b)%nat -> inject_Z (Z.of_nat a) / inject_Z (Z.of_nat b) < 1.
Proof.
  intros Hab.
  assert (Hb : 0 < inject_Z (Z.of_nat b)) by (rewrite <- (Zlt_Qlt 0); lia).
  apply Qlt_shift_div_r; [exact Hb|]. rewrite Qmult_1_l.
  rewrite <- Zlt_Qlt. lia.
Qed.

Lemma fraction_below_bounds (latest : Q) (values : list Q) :
  0 <= fraction_below latest values <= 1.
Proof. unfold fraction_below. apply Qdiv_nat_bounds, filter_length_le. Qed.

Lemma fraction_below_lt_1 (latest : Q) (values : list Q) (x : Q) :
  In x values -> x == latest -> fraction_below latest values < 1.
Proof.
  intros Hin Hx. unfold fraction_below. apply Qdiv_nat_lt_1.
  apply (filter_length_lt _ values x Hin).
  apply Qlt_bool_false_iff. rewrite Hx. apply Qle_refl.
Qed.

(** X1. [calculate_pe_percentile] returns None exactly when the history is
    empty, the latest PE is None, or no PE of the history is positive;
    otherwise it returns a fraction in [0,1]. *)
Theorem pe_percentile_defined_and_bounded (latest_pe : option Q)
    (pe_history : list hist_item) :
  (calculate_pe_percentile latest_pe pe_history = None <->
     pe_history = [] \/ latest_pe = None \/
     Forall (fun h => h_pe h <= 0) pe_history) /\
  (forall p, calculate_pe_percentile latest_pe pe_history = Some p ->
     0 <= p <= 1).
Proof.
  unfold calculate_pe_percentile.
  destruct pe_history as [|h0 hist].
  { split; [split; auto | discriminate]. }
  destruct latest_pe as [latest|].
  2:{ split; [split; auto | discriminate]. }
  set (history := h0 :: hist).
  destruct (filter (fun v => Qlt_bool 0 v) (map h_pe history))
    as [|v vs] eqn:E.
  - split; [|discriminate]. split; [intros _|reflexivity].
    right; right. apply Forall_forall. intros h Hh.
    apply Qlt_bool_false_iff.
    destruct (Qlt_bool 0 (h_pe h)) eqn:Eh; [|reflexivity].
    assert (Hin : In (h_pe h) (filter (fun v => Qlt_bool 0 v)
                                 (map h_pe history))).
    { apply filter_In. split; [now apply in_map | exact Eh]. }
    rewrite E in Hin. contradiction.
  - split.
    + split; [discriminate|]. intros [H | [H | H]]; try discriminate.
      exfalso. assert (Hin : In v (v :: vs)) by now left.
      rewrite <- E in Hin. apply filter_In in Hin. destruct Hin as [Hin Hv].
      apply in_map_iff in Hin. destruct Hin as [h [<- Hh]].
      rewrite Forall_forall in H. specialize (H h Hh).
      apply Qlt_bool_iff in Hv. qlra.
    + intros p Hp. injection Hp as <-. apply fraction_below_bounds.
Qed.

Lemma history_of_row_item (r : row) (h : hist_item) :
  In h (history_of_row r) ->
  history_of_row r = [h] /\
  h_date h = publish_date r /\
  pe_ratio r = Some (h_pe h) /\ close_index r = Some (h_price h) /\
  0 < h_pe h /\ 0 < h_price h.
Proof.
  unfold history_of_row.
  destruct (pe_ratio r) as [pe|]; [|contradiction].
  destruct (close_index r) as [price|]; [|contradiction].
  destruct (Qlt_bool 0 pe) eqn:Epe; [|contradiction].
  destruct (Qlt_bool 0 price) eqn:Epr; [|contradiction].
  simpl. intros [<- | []]. simpl.
  apply Qlt_bool_iff in Epe, Epr. repeat split; auto.
Qed.

Lemma history_of_row_length (r : row) : (length (history_of_row r) <= 1)%nat.
Proof.
  unfold history_of_row.
  destruct (pe_ratio r); [|simpl; lia]. destruct (close_index r); [|simpl; lia].
  destruct (_ && _); simpl; lia.
Qed.

Lemma flat_map_history_length (l : dataframe) :
  (length (flat_map history_of_row l) <= length l)%nat.
Proof.
  induction l as [|r l IH]; simpl; [lia|].
  rewrite length_app. pose proof (history_of_row_length r). lia.
Qed.

Lemma sort_by_date_desc_sorted (df : dataframe) :
  StronglySorted (fun x y => (publish_date y <= publish_date x)%Z)
                 (sort_by_date_desc df).
Proof.
  unfold sort_by_date_desc.
  eapply StronglySorted_impl; [|apply sort_by_sorted].
  - intros a b Hab. now apply Z.leb_le in Hab.
  - intros a b Hab. apply Z.leb_gt in Hab. apply Z.leb_le. lia.
  - intros a b c Hab Hbc. apply Z.leb_le in Hab, Hbc. apply Z.leb_le. lia.
Qed.

Lemma flat_map_history_sorted (l : dataframe) :
  StronglySorted (fun x y => (publish_date y <= publish_date x)%Z) l ->
  StronglySorted (fun a b => (h_date b <= h_date a)%Z)
                 (flat_map history_of_row l).
Proof.
  induction 1 as [|r l Hs IH Hall]; simpl; [constructor|].
  destruct (history_of_row r) as [|h tl] eqn:E; [exact IH|].
  assert (Hh : In h (history_of_row r)) by (rewrite E; now left).
  destruct (history_of_row_item r h Hh) as (E1 & Hd & _).
  rewrite E in E1. injection E1 as ->. simpl. constructor; [exact IH|].
  apply Forall_forall. intros b Hb. apply in_flat_map in Hb.
  destruct Hb as [r' [Hr' Hb]].
  destruct (history_of_row_item r' b Hb) as (_ & Hd' & _).
  rewrite Forall_forall in Hall. specialize (Hall r' Hr'). lia.
Qed.

Lemma rows_of_In (c : Z) (df : dataframe) (r : row) :
  In r (rows_of c df) <-> In r df /\ index_code r = c.
Proof.
  unfold rows_of. rewrite filter_In, Z.eqb_eq. reflexivity.
Qed.

Lemma recent_rows_In (c : Z) (df : dataframe) (n : nat) (r : row) :
  In r (firstn n (sort_by_date_desc (rows_of c df))) ->
  In r df /\ index_code r = c.
Proof.
  intros H. apply In_firstn in H. apply rows_of_In.
  eapply Permutation_in; [|exact H].
  symmetry. apply sort_by_perm.
Qed.

Lemma history_unfold (c : Z) (monthly_df : dataframe) :
  get_index_monthly_pe_history c monthly_df
  = flat_map history_of_row
      (firstn 120 (sort_by_date_desc (rows_of c monthly_df))).
Proof.
  unfold get_index_monthly_pe_history.
  destruct (rows_of c monthly_df); reflexivity.
Qed.

Lemma monthly_history_items (c : Z) (monthly_df : dataframe) :
  Forall (fun h =>
            0 < h_pe h /\ 0 < h_price h /\
            exists r, In r monthly_df /\ index_code r = c /\
                      publish_date r = h_date h /\
                      pe_ratio r = Some (h_pe h) /\
                      close_index r = Some (h_price h))
         (get_index_monthly_pe_history c monthly_df).
Proof.
  rewrite history_unfold.
  apply Forall_forall. intros h Hh. apply in_flat_map in Hh.
  destruct Hh as [r [Hr Hh]].
  destruct (history_of_row_item r h Hh) as (_ & Hd & Hpe & Hpr & H1 & H2).
  destruct (recent_rows_In c monthly_df 120 r Hr) as [Hin Hc].
  split; [exact H1|]. split; [exact H2|].
  exists r. repeat split; auto.
Qed.

(** X2. The history of an index holds at most 120 entries, newest first;
    each entry is a row of that index in the monthly frame, with its date,
    PE and price, and both its PE and its price are positive. *)
Theorem monthly_history_invariants (c : Z) (monthly_df : dataframe) :
  let history := get_index_monthly_pe_history c monthly_df in
  (length history <= 120)%nat /\
  StronglySorted (fun a b => (h_date b <= h_date a)%Z) history /\
  Forall (fun h =>
            0 < h_pe h /\ 0 < h_price h /\
            exists r, In r monthly_df /\ index_code r = c /\
                      publish_date r = h_date h /\
                      pe_ratio r = Some (h_pe h) /\
                      close_index r = Some (h_price h)) history.
Proof.
  intros history. unfold history.
  split; [|split].
  - rewrite history_unfold.
    etransitivity; [apply flat_map_history_length|].
    rewrite length_firstn. lia.
  - rewrite history_unfold.
    apply flat_map_history_sorted, StronglySorted_firstn,
      sort_by_date_desc_sorted.
  - apply monthly_history_items.
Qed.

(** X3. In the screener the price percentile is taken for the newest entry
    of the history against that same history: it is defined, at least 0 and
    strictly below 1, because the entry is not below itself. *)
Theorem price_percentile_of_newest_below_one (c : Z) (monthly_df : dataframe)
    (h0 : hist_item) (rest : list hist_item)
    (H : get_index_monthly_pe_history c monthly_df = h0 :: rest) :
  exists p,
    calculate_price_percentile (Some (h_price h0)) (h0 :: rest) = Some p /\
    0 <= p < 1.
Proof.
  pose proof (monthly_history_items c monthly_df) as Hall.
  rewrite H in Hall.
  assert (Hpos : forall h, In h (h0 :: rest) -> Qlt_bool 0 (h_price h) = true).
  { intros h Hh. rewrite Forall_forall in Hall.
    apply Qlt_bool_iff. now destruct (Hall h Hh) as (_ & Hp & _). }
  unfold calculate_price_percentile.
  assert (Hin : In (h_price h0)
                   (filter (fun v => Qlt_bool 0 v) (map h_price (h0 :: rest)))).
  { apply filter_In. split; [apply in_map; now left|].
    apply Hpos. now left. }
  destruct (filter (fun v => Qlt_bool 0 v) (map h_price (h0 :: rest)))
    as [|v vs] eqn:E; [contradiction|].
  eexists. split; [reflexivity|]. split.
  - apply fraction_below_bounds.
  - apply (fraction_below_lt_1 _ _ (h_price h0) Hin). reflexivity.
Qed.

Lemma price_percentile_of_newest_below_one_witness :
  get_index_monthly_pe_history 801010 monthly_frame
  = hd (item 0 0 0) (get_index_monthly_pe_history 801010 monthly_frame)
    :: tl (get_index_monthly_pe_history 801010 monthly_frame) /\
  exists p,
    calculate_price_percentile
      (Some (h_price
               (hd (item 0 0 0)
                   (get_index_monthly_pe_history 801010 monthly_frame))))
      (hd (item 0 0 0) (get_index_monthly_pe_history 801010 monthly_frame)
       :: tl (get_index_monthly_pe_history 801010 monthly_frame)) = Some p /\
    0 <= p < 1.
Proof.
  assert (H : get_index_monthly_pe_history 801010 monthly_frame
              = hd (item 0 0 0)
                   (get_index_monthly_pe_history 801010 monthly_frame)
                :: tl (get_index_monthly_pe_history 801010 monthly_frame))
    by (vm_compute; reflexivity).
  split; [exact H|].
  apply (price_percentile_of_newest_below_one 801010 monthly_frame _ _ H).
Defined.

End ScreenerRanges.

Section ScreenerFactors.
Import Py Screener ScreenerSpec.
Local Open Scope Q_scope.

Ltac bool_to_Q :=
  repeat match goal with
  | H : _ && _ = true |- _ => apply andb_true_iff in H; destruct H
  | H : _ || _ = false |- _ => apply orb_false_iff in H; destruct H
  | H : Qlt_bool _ _ = true |- _ => apply Qlt_bool_iff in H
  | H : Qlt_bool _ _ = false |- _ => apply Qlt_bool_false_iff in H
  | H : Qle_bool _ _ = true |- _ => apply Qle_bool_iff in H
  | H : Nat.leb _ _ = false |- _ => apply Nat.leb_gt in H
  | H : Nat.leb _ _ = true |- _ => apply Nat.leb_le in H
  end.

Lemma Qmult_unit (a b : Q) : 0 <= a <= 1 -> 0 <= b <= 1 -> 0 <= a * b <= 1.
Proof.
  intros [Ha0 Ha1] [Hb0 Hb1]. split.
  - now apply Qmult_le_0_compat.
  - apply Qle_trans with (1 * b); [|qlra].
    now apply Qmult_le_compat_r.
Qed.

(** The branches of [calculate_valuation_safety_score], one by one. *)
Lemma safety_score_cases (pe_percentile price_percentile : Q)
    (pe_history : list hist_item) :
  let q := pe_percentile * 100 in
  let pp := price_percentile * 100 in
  let s := calculate_valuation_safety_score
             (Some pe_percentile) (Some price_percentile) pe_history in
  s = 0 \/
  ((check_valuation_declining pe_history < 3)%nat /\ pp <= 70 /\
   ((10 <= q <= 30 /\ pp <= 50 /\
     s == ((30 - q) * (1 # 20)) * ((70 - pp) * (1 # 70))) \/
    (10 <= q <= 30 /\ 50 < pp /\ s == (30 - q) * (1 # 40)) \/
    (30 < q <= 50 /\ pp <= 50 /\ s == (50 - q) * (1 # 200)))).
Proof.
  intros q pp s. unfold s, calculate_valuation_safety_score.
  fold q. fold pp.
  destruct (Qlt_bool q 10 || Nat.leb 3 _) eqn:E1; [now left|].
  destruct (Qlt_bool 70 pp) eqn:E2; [now left|].
  destruct ((Qle_bool 10 q && Qle_bool q 30) && Qle_bool pp 50) eqn:E3.
  { bool_to_Q. right. split; [assumption|]. split; [assumption|]. left.
    split; [split; assumption|]. split; [assumption|]. field. }
  destruct ((Qle_bool 10 q && Qle_bool q 30)
            && (Qlt_bool 50 pp && Qle_bool pp 70)) eqn:E4.
  { bool_to_Q. right. split; [assumption|]. split; [assumption|].
    right; left. split; [split; assumption|]. split; [assumption|]. field. }
  destruct ((Qlt_bool 30 q && Qle_bool q 50) && Qle_bool pp 50) eqn:E5.
  { bool_to_Q. right. split; [assumption|]. split; [assumption|].
    right; right. split; [split; assumption|]. split; [assumption|]. field. }
  now left.
Qed.

(** X4. The safety score is in [0,1] whenever the price percentile is not
    negative, whatever the PE percentile and the history. *)
Theorem safety_score_in_unit_interval (pe_percentile price_percentile : Q)
    (pe_history : list hist_item) (Hprice : 0 <= price_percentile) :
  0 <= calculate_valuation_safety_score
         (Some pe_percentile) (Some price_percentile) pe_history <= 1.
Proof.
  assert (Hpp : 0 <= price_percentile * 100) by qlra.
  destruct (safety_score_cases pe_percentile price_percentile pe_history)
    as [-> | (_ & _ & [(Hq & Hp & ->) | [(Hq & Hp & ->) | (Hq & Hp & ->)]])].
  - split; qlra.
  - apply Qmult_unit; split; qlra.
  - split; qlra.
  - split; qlra.
Qed.

Lemma safety_score_in_unit_interval_witness :
  0 <= 20 # 100 /\
  0 <= calculate_valuation_safety_score (Some (15 # 100)) (Some (20 # 100))
         steady_history <= 1.
Proof.
  assert (H : 0 <= 20 # 100) by (vm_compute; congruence).
  split; [exact H|].
  apply (safety_score_in_unit_interval (15 # 100) (20 # 100) steady_history H).
Defined.

Lemma safety_score_zone (pe_percentile price_percentile : Q)
    (pe_history : list hist_item) :
  0 < calculate_valuation_safety_score
        (Some pe_percentile) (Some price_percentile) pe_history ->
  (check_valuation_declining pe_history < 3)%nat /\
  10 <= pe_percentile * 100 /\ pe_percentile * 100 < 50 /\
  ~ pe_percentile * 100 == 30 /\ price_percentile * 100 <= 70 /\
  (30 < pe_percentile * 100 -> price_percentile * 100 <= 50).
Proof.
  intros Hpos.
  destruct (safety_score_cases pe_percentile price_percentile pe_history)
    as [E | (Hd & Hp70 & [(Hq & Hp & E) | [(Hq & Hp & E) | (Hq & Hp & E)]])].
  - rewrite E in Hpos. qlra.
  - rewrite E in Hpos.
    assert (Hne : ~ pe_percentile * 100 == 30).
    { intros Eq. rewrite Eq in Hpos.
      setoid_replace ((30 - 30) * (1 # 20)
                      * ((70 - price_percentile * 100) * (1 # 70)))
        with 0 in Hpos by ring.
      qlra. }
    assert (Hlt : pe_percentile * 100 < 50) by qlra.
    destruct Hq as [Hq1 Hq2]. tauto.
  - rewrite E in Hpos.
    repeat split; try assumption; try qlra.
  - rewrite E in Hpos.
    repeat split; try assumption; try qlra.
Qed.

(** X5. A positive safety score needs all of: fewer than three declining
    months, a PE percentile of at least 10% and below 50% and not exactly
    30%, a price percentile of at most 70%, and a price percentile of at
    most 50% once the PE percentile is above 30%. *)
Theorem safety_score_positive_zone (pe_percentile price_percentile : Q)
    (pe_history : list hist_item)
    (Hpos : 0 < calculate_valuation_safety_score
                  (Some pe_percentile) (Some price_percentile) pe_history) :
  let q := pe_percentile * 100 in
  let pp := price_percentile * 100 in
  (check_valuation_declining pe_history < 3)%nat /\
  10 <= q /\ q < 50 /\ ~ q == 30 /\ pp <= 70 /\
  (30 < q -> pp <= 50).
Proof.
  intros q pp. unfold q, pp.
  destruct (safety_score_zone _ _ _ Hpos) as (H1 & H2 & H3 & H4 & H5 & H6).
  split; [exact H1|]. split; [exact H2|]. split; [exact H3|].
  split; [exact H4|]. split; [exact H5 | exact H6].
Qed.

Lemma safety_score_positive_zone_witness :
  0 < calculate_valuation_safety_score (Some (15 # 100)) (Some (20 # 100))
        steady_history /\
  (check_valuation_declining steady_history < 3)%nat /\
  10 <= (15 # 100) * 100 /\ (15 # 100) * 100 < 50 /\
  ~ (15 # 100) * 100 == 30 /\ (20 # 100) * 100 <= 70 /\
  (30 < (15 # 100) * 100 -> (20 # 100) * 100 <= 50).
Proof.
  assert (H : 0 < calculate_valuation_safety_score
                    (Some (15 # 100)) (Some (20 # 100)) steady_history)
    by reflexivity.
  split; [exact H|].
  apply (safety_score_positive_zone (15 # 100) (20 # 100) steady_history H).
Defined.

Lemma trading_activity_values (c : Z) (monthly_df : dataframe) :
  let activity := calculate_trading_activity_coefficient c monthly_df in
  activity = 0 \/ activity = 3 # 10 \/ activity = 7 # 10 \/ activity = 1.
Proof.
  intros activity. unfold activity, calculate_trading_activity_coefficient.
  destruct (rows_of c monthly_df) as [|r0 rows]; [auto|].
  destruct (Nat.ltb _ 20); [auto|].
  destruct (Nat.ltb _ 120); [auto|].
  destruct (series_mean _) as [avg20|]; [|auto].
  destruct (series_mean _) as [avg120|]; [|auto].
  destruct (Qeq_bool avg120 0); [auto|].
  destruct (Qle_bool avg120 avg20); [auto|].
  destruct (Qle_bool _ avg20); [auto|].
  destruct (Qle_bool _ avg20); auto.
Qed.

Lemma trading_activity_short_history (c : Z) (monthly_df : dataframe) :
  (length (rows_of c monthly_df) < 120)%nat ->
  calculate_trading_activity_coefficient c monthly_df = 0.
Proof.
  intros Hlen. unfold calculate_trading_activity_coefficient.
  destruct (rows_of c monthly_df) as [|r0 rows] eqn:Erows; [reflexivity|].
  destruct (Nat.ltb _ 20); [reflexivity|].
  destruct (Nat.ltb (length (firstn 120 _)) 120) eqn:E120; [reflexivity|].
  exfalso. apply Nat.ltb_ge in E120. rewrite length_firstn in E120.
  unfold sort_by_date_desc in E120. rewrite sort_by_length in E120. lia.
Qed.

(** X6. The activity coefficient is one of 0, 0.3, 0.7 and 1, and it is 0
    for an index with fewer than 120 rows in the monthly frame. *)
Theorem trading_activity_levels (c : Z) (monthly_df : dataframe) :
  let activity := calculate_trading_activity_coefficient c monthly_df in
  (activity = 0 \/ activity = 3 # 10 \/ activity = 7 # 10 \/ activity = 1) /\
  ((length (rows_of c monthly_df) < 120)%nat -> activity = 0).
Proof.
  intros activity. split.
  - apply trading_activity_values.
  - apply trading_activity_short_history.
Qed.

Lemma price_resilience_nonneg (c : Z) (monthly_df : dataframe)
    (avg_change : option Q) :
  0 <= calculate_price_resilience_coefficient c monthly_df avg_change.
Proof.
  unfold calculate_price_resilience_coefficient.
  destruct (rows_of c monthly_df) as [|r0 rows0]; [qlra|].
  destruct (firstn 1 _) as [|r rows]; [qlra|].
  destruct (change_pct r) as [etf_change|]; [|qlra].
  destruct (ge_avg etf_change avg_change); [qlra|].
  destruct (Qle_bool (-10) etf_change); [apply Q.le_max_l | qlra].
Qed.

Lemma price_resilience_le_1 (c : Z) (monthly_df : dataframe) (a : Q) :
  a <= 0 -> calculate_price_resilience_coefficient c monthly_df (Some a) <= 1.
Proof.
  intros Ha. unfold calculate_price_resilience_coefficient.
  destruct (rows_of c monthly_df) as [|r0 rows0]; [qlra|].
  destruct (firstn 1 _) as [|r rows]; [qlra|].
  destruct (change_pct r) as [etf_change|]; [|qlra].
  destruct (ge_avg etf_change (Some a)) eqn:Eg; [qlra|].
  destruct (Qle_bool (-10) etf_change); [|qlra].
  simpl in Eg.
  assert (Hlt : etf_change < a).
  { apply Qnot_le_lt. intros Hle. apply Qle_bool_iff in Hle. congruence. }
  apply Q.max_lub; [qlra|].
  apply Qle_shift_div_r; [reflexivity | qlra].
Qed.

(** X7. The resilience coefficient is never negative; it is 1 when the
    latest change of the index is at least the average; and it is at most
    1 whenever the average change is a number that is not positive. *)
Theorem price_resilience_bounds (c : Z) (monthly_df : dataframe)
    (avg_change : option Q) :
  let resilience :=
    calculate_price_resilience_coefficient c monthly_df avg_change in
  0 <= resilience /\
  (forall r rows etf_change,
     sort_by_date_desc (rows_of c monthly_df) = r :: rows ->
     change_pct r = Some etf_change ->
     ge_avg etf_change avg_change = true -> resilience = 1) /\
  (forall a, avg_change = Some a -> a <= 0 -> resilience <= 1).
Proof.
  intros resilience. split; [apply price_resilience_nonneg|]. split.
  - intros r rows etf_change Hs Hc Hg.
    unfold resilience, calculate_price_resilience_coefficient.
    destruct (rows_of c monthly_df) as [|r0 rows0] eqn:Erows;
      [discriminate|].
    rewrite Hs. cbn [firstn]. rewrite Hc, Hg. reflexivity.
  - intros a -> Ha. now apply price_resilience_le_1.
Qed.

End ScreenerFactors.

Section ScreenerEntries.
Import Py Screener ScreenerSpec.
Local Open Scope Q_scope.

Lemma select_best_is_prefix (current_df monthly_df : dataframe)
    (sw_lv2_indices : list (Z * string)) :
  select_best_sw_lv2_indices_by_valuation current_df monthly_df sw_lv2_indices
  = firstn 8 (sort_by_score_desc
                (collect_valuations current_df monthly_df sw_lv2_indices)).
Proof.
  unfold select_best_sw_lv2_indices_by_valuation.
  destruct (collect_valuations _ _ _) as [|v l]; [reflexivity|].
  destruct (Nat.ltb 8 _) eqn:El; [reflexivity|].
  apply Nat.ltb_ge in El. symmetry. now apply firstn_all2.
Qed.

Lemma select_best_In (current_df monthly_df : dataframe)
    (sw_lv2_indices : list (Z * string)) (v : valuation) :
  In v (select_best_sw_lv2_indices_by_valuation
          current_df monthly_df sw_lv2_indices) ->
  In v (collect_valuations current_df monthly_df sw_lv2_indices).
Proof.
  rewrite select_best_is_prefix. intros H. apply In_firstn in H.
  eapply Permutation_in; [|exact H]. symmetry. apply sort_by_perm.
Qed.

(** What the loop stores in the entry of one index. *)
Lemma evaluate_index_fields (current_df monthly_df : dataframe)
    (avg_change : option Q) (c : Z) (nm : string) (v : valuation) :
  In v (evaluate_index current_df monthly_df avg_change (c, nm)) ->
  code v = c /\ name v = nm /\
  get_index_current_pe c current_df = Some (current_pe v) /\
  (exists h0 rest,
     get_index_monthly_pe_history c monthly_df = h0 :: rest /\
     calculate_pe_percentile (Some (current_pe v)) (h0 :: rest)
       = Some (current_pe_percentile v) /\
     calculate_price_percentile (Some (h_price h0)) (h0 :: rest)
       = Some (current_price_percentile v) /\
     safety_score v
       = calculate_valuation_safety_score
           (Some (current_pe_percentile v))
           (Some (current_price_percentile v)) (h0 :: rest)) /\
  price_resilience v
    = calculate_price_resilience_coefficient c monthly_df avg_change /\
  trading_activity v = calculate_trading_activity_coefficient c monthly_df /\
  comprehensive_score v
    = calculate_comprehensive_score
        (safety_score v) (trading_activity v) (price_resilience v) /\
  0 < comprehensive_score v.
Proof.
  unfold evaluate_index.
  destruct (get_index_current_pe c current_df) as [pe|]; [|contradiction].
  destruct (get_index_monthly_pe_history c monthly_df) as [|h0 hist];
    [contradiction|].
  destruct (calculate_pe_percentile _ _) as [q|] eqn:Eq; [|contradiction].
  destruct (calculate_price_percentile _ _) as [pp|] eqn:Ep; [|contradiction].
  cbv zeta.
  destruct (Qlt_bool 0 _) eqn:E; [|contradiction].
  intros [<- | []]. cbn.
  apply Qlt_bool_iff in E.
  split; [reflexivity|]. split; [reflexivity|]. split; [reflexivity|].
  split; [exists h0, hist; repeat split; assumption|].
  repeat split; try reflexivity. exact E.
Qed.

Lemma price_percentile_bounded (current_price : option Q)
    (price_history : list hist_item) (p : Q) :
  calculate_price_percentile current_price price_history = Some p ->
  0 <= p <= 1.
Proof.
  unfold calculate_price_percentile.
  destruct price_history as [|h0 hist]; [discriminate|].
  destruct current_price as [current|]; [|discriminate].
  destruct (filter _ _); [discriminate|].
  intros H. injection H as <-. apply fraction_below_bounds.
Qed.

Lemma current_pe_positive (c : Z) (current_df : dataframe) (pe : Q) :
  get_index_current_pe c current_df = Some pe -> 0 < pe.
Proof.
  unfold get_index_current_pe.
  destruct (rows_of c current_df) as [|r rows]; [discriminate|].
  destruct (pe_ratio r) as [x|]; simpl; [|discriminate].
  destruct (Qlt_bool 0 x) eqn:E; [|discriminate].
  intros H. injection H as <-. now apply Qlt_bool_iff.
Qed.

Lemma product_positive (a b c : Q) :
  0 <= a -> 0 <= b -> 0 <= c -> 0 < a * b * c * 100 ->
  0 < a /\ 0 < b /\ 0 < c.
Proof.
  intros Ha Hb Hc H.
  assert (Hne : forall x, 0 <= x -> ~ x == 0 -> 0 < x).
  { intros x Hx Hn. destruct (Qlt_le_dec 0 x) as [|Hle]; [assumption|].
    exfalso. apply Hn. now apply Qle_antisym. }
  repeat split; apply Hne; try assumption; intros E; rewrite E in H;
    ring_simplify in H; qlra.
Qed.

(** X8. Every entry the screener returns belongs to a listed index with a
    positive current PE, a PE percentile of at least 10% and below 50%, a
    price percentile of at most 70%, a safety score in (0,1], an activity
    coefficient of 0.3, 0.7 or 1, a positive resilience coefficient and at
    least 120 monthly rows; its score is the product of the three factors
    times 100, and is at most 100 when the average change is a number that
    is not positive. *)
Theorem screener_entries_qualify (current_df monthly_df : dataframe)
    (sw_lv2_indices : list (Z * string)) :
  Forall
    (fun v =>
       In (code v, name v) sw_lv2_indices /\
       get_index_current_pe (code v) current_df = Some (current_pe v) /\
       0 < current_pe v /\
       10 <= current_pe_percentile v * 100 /\
       current_pe_percentile v * 100 < 50 /\
       0 <= current_price_percentile v * 100 <= 70 /\
       0 < safety_score v <= 1 /\
       (trading_activity v = 3 # 10 \/ trading_activity v = 7 # 10 \/
        trading_activity v = 1) /\
       0 < price_resilience v /\
       (120 <= length (rows_of (code v) monthly_df))%nat /\
       comprehensive_score v
         = safety_score v * trading_activity v * price_resilience v * 100 /\
       (forall a, all_indices_avg_change monthly_df = Some a -> a <= 0 ->
                  comprehensive_score v <= 100))
    (select_best_sw_lv2_indices_by_valuation
       current_df monthly_df sw_lv2_indices).
Proof.
  apply Forall_forall. intros v Hv. apply select_best_In in Hv.
  unfold collect_valuations in Hv. apply in_flat_map in Hv.
  destruct Hv as [[c nm] [Hidx Hv]].
  destruct (evaluate_index_fields _ _ _ _ _ _ Hv)
    as (Hc & Hn & Hpe & (h0 & rest & Hh & Hq & Hp & Hs) & Hr & Ha & Hcs & Hpos).
  rewrite Hc, Hn.
  destruct (price_percentile_bounded _ _ _ Hp) as [Hp0 Hp1].
  assert (Hs01 : 0 <= safety_score v <= 1).
  { rewrite Hs. destruct (safety_score_cases
                            (current_pe_percentile v)
                            (current_price_percentile v) (h0 :: rest))
      as [-> | (_ & _ & [(H1 & H2 & ->) | [(H1 & H2 & ->) | (H1 & H2 & ->)]])].
    - split; qlra.
    - apply Qmult_unit; split; qlra.
    - split; qlra.
    - split; qlra. }
  assert (Hr0 : 0 <= price_resilience v)
    by (rewrite Hr; apply price_resilience_nonneg).
  assert (Ha4 := trading_activity_values c monthly_df). cbv zeta in Ha4.
  rewrite <- Ha in Ha4.
  assert (Ha0 : 0 <= trading_activity v <= 1).
  { destruct Ha4 as [-> | [-> | [-> | ->]]]; split; vm_compute; congruence. }
  unfold calculate_comprehensive_score in Hcs.
  pose proof Hpos as Hprod. rewrite Hcs in Hprod.
  destruct (product_positive _ _ _ (proj1 Hs01) (proj1 Ha0) Hr0 Hprod)
    as (Hs_pos & Ha_pos & Hr_pos).
  pose proof Hs_pos as Hzone. rewrite Hs in Hzone.
  apply safety_score_zone in Hzone.
  destruct Hzone as (_ & Hq10 & Hq50 & _ & Hp70 & _).
  split; [exact Hidx|]. split; [exact Hpe|].
  split; [now apply (current_pe_positive c current_df)|].
  split; [exact Hq10|]. split; [exact Hq50|].
  split; [split; [qlra | exact Hp70]|].
  split; [split; [exact Hs_pos | exact (proj2 Hs01)]|].
  split.
  { destruct Ha4 as [E | Ha4]; [|exact Ha4]. rewrite E in Ha_pos. qlra. }
  split; [exact Hr_pos|].
  split.
  { destruct (Nat.lt_ge_cases (length (rows_of c monthly_df)) 120)
      as [Hlt | Hge]; [|exact Hge].
    rewrite Ha, (trading_activity_short_history c monthly_df Hlt) in Ha_pos.
    qlra. }
  split; [exact Hcs|].
  intros a Havg Hle. rewrite Hcs.
  assert (Hr1 : price_resilience v <= 1).
  { rewrite Hr, Havg. now apply price_resilience_le_1. }
  assert (Hsa : 0 <= safety_score v * trading_activity v <= 1)
    by (apply Qmult_unit; [exact Hs01 | exact Ha0]).
  assert (Hall : 0 <= safety_score v * trading_activity v * price_resilience v
                 <= 1)
    by (apply Qmult_unit; [exact Hsa | split; assumption]).
  qlra.
Qed.

Lemma evaluate_index_codes (current_df monthly_df : dataframe)
    (avg_change : option Q) (entry : Z * string) :
  map code (evaluate_index current_df monthly_df avg_change entry) = []
  \/ map code (evaluate_index current_df monthly_df avg_change entry)
     = [fst entry].
Proof.
  destruct entry as [c nm]. unfold evaluate_index.
  destruct (get_index_current_pe c current_df); [|now left].
  destruct (get_index_monthly_pe_history c monthly_df); [now left|].
  destruct (calculate_pe_percentile _ _); [|now left].
  destruct (calculate_price_percentile _ _); [|now left].
  cbv zeta. destruct (Qlt_bool 0 _); [now right | now left].
Qed.

Lemma collect_valuations_codes_NoDup (current_df monthly_df : dataframe)
    (sw_lv2_indices : list (Z * string)) :
  NoDup (map fst sw_lv2_indices) ->
  NoDup (map code (collect_valuations current_df monthly_df sw_lv2_indices))
  /\ incl (map code (collect_valuations current_df monthly_df sw_lv2_indices))
          (map fst sw_lv2_indices).
Proof.
  unfold collect_valuations.
  set (f := evaluate_index current_df monthly_df
              (all_indices_avg_change monthly_df)).
  induction sw_lv2_indices as [|entry l IH]; intros Hnd; simpl.
  - split; [constructor | apply incl_refl].
  - inversion Hnd as [|? ? Hnotin Hnd']; subst.
    destruct (IH Hnd') as [IH1 IH2].
    rewrite map_app.
    destruct (evaluate_index_codes current_df monthly_df
                (all_indices_avg_change monthly_df) entry) as [E | E];
      fold f in E; rewrite E; simpl.
    + split; [exact IH1 | now apply incl_tl].
    + split.
      * constructor; [|exact IH1]. intros Hin. apply Hnotin. now apply IH2.
      * intros x [<- | Hx]; [now left | right; now apply IH2].
Qed.

Lemma NoDup_firstn {A : Type} (n : nat) (l : list A) :
  NoDup l -> NoDup (firstn n l).
Proof.
  intros H. rewrite <- (firstn_skipn n l) in H.
  now apply NoDup_app_remove_r in H.
Qed.

(** X9. When the listed index codes are distinct, the screener returns at
    most one entry per code, and only codes that are listed. *)
Theorem screener_codes_distinct (current_df monthly_df : dataframe)
    (sw_lv2_indices : list (Z * string))
    (Hkeys : NoDup (map fst sw_lv2_indices)) :
  let result :=
    select_best_sw_lv2_indices_by_valuation
      current_df monthly_df sw_lv2_indices in
  NoDup (map code result) /\
  incl (map code result) (map fst sw_lv2_indices) /\
  (length result <= length sw_lv2_indices)%nat.
Proof.
  intros result. unfold result. rewrite select_best_is_prefix.
  destruct (collect_valuations_codes_NoDup current_df monthly_df
              sw_lv2_indices Hkeys) as [Hnd Hincl].
  set (survivors := collect_valuations current_df monthly_df sw_lv2_indices)
    in *.
  assert (Hperm : Permutation (map code survivors)
                    (map code (sort_by_score_desc survivors)))
    by (apply Permutation_map, sort_by_perm).
  assert (Hnd' : NoDup (map code (sort_by_score_desc survivors)))
    by (eapply Permutation_NoDup; eauto).
  split; [|split].
  - rewrite <- firstn_map. now apply NoDup_firstn.
  - intros x Hx. apply Hincl. rewrite <- firstn_map in Hx.
    apply In_firstn in Hx. eapply Permutation_in; [|exact Hx].
    now symmetry.
  - rewrite length_firstn.
    unfold sort_by_score_desc. rewrite sort_by_length.
    assert (Hle : (length (map code survivors)
                   <= length (map fst sw_lv2_indices))%nat)
      by (apply NoDup_incl_length; assumption).
    rewrite !length_map in Hle. lia.
Qed.

Lemma screener_codes_distinct_witness :
  NoDup (map fst indices) /\
  NoDup (map code (select_best_sw_lv2_indices_by_valuation
                     current_frame monthly_frame indices)) /\
  incl (map code (select_best_sw_lv2_indices_by_valuation
                    current_frame monthly_frame indices))
       (map fst indices) /\
  (length (select_best_sw_lv2_indices_by_valuation
             current_frame monthly_frame indices) <= length indices)%nat.
Proof.
  assert (H : NoDup (map fst indices)).
  { simpl. repeat constructor; simpl; intuition discriminate. }
  split; [exact H|].
  apply (screener_codes_distinct current_frame monthly_frame indices H).
Defined.

(** X10. A history is never both rising and declining: when
    [check_valuation_rising] holds the count of declining months is 0, and
    a positive count of declining months excludes a rise. *)
Theorem rising_excludes_declining (pe_history : list hist_item) :
  (check_valuation_rising pe_history = true ->
   check_valuation_declining pe_history = O) /\
  ((0 < check_valuation_declining pe_history)%nat ->
   check_valuation_rising pe_history = false) /\
  (check_valuation_declining pe_history <= length pe_history - 1)%nat.
Proof.
  assert (Hexcl : check_valuation_rising pe_history = true ->
                  check_valuation_declining pe_history = O).
  { destruct pe_history as [|a [|b l]]; simpl; try discriminate.
    intros Hr. apply Qlt_bool_iff in Hr.
    destruct (Qlt_bool (h_pe a) (h_pe b)) eqn:E; [|reflexivity].
    apply Qlt_bool_iff in E. qlra. }
  split; [exact Hexcl|]. split.
  - intros Hd. destruct (check_valuation_rising pe_history) eqn:E;
      [|reflexivity].
    rewrite (Hexcl eq_refl) in Hd. lia.
  - clear Hexcl. induction pe_history as [|a l IH]; [simpl; lia|].
    destruct l as [|b l']; [simpl; lia|].
    change (check_valuation_declining (a :: b :: l'))
      with (if Qlt_bool (h_pe a) (h_pe b)
            then S (check_valuation_declining (b :: l')) else O).
    cbn [length] in *.
    destruct (Qlt_bool (h_pe a) (h_pe b)); lia.
Qed.

End ScreenerEntries.

Section ScreenerBenchmark.
Import Py Screener ScreenerSpec.
Local Open Scope Q_scope.

Lemma seen_In (c : Z) (seen : list Z) :
  existsb (Z.eqb c) seen = true <-> In c seen.
Proof.
  rewrite existsb_exists. split.
  - intros [x [Hx E]]. apply Z.eqb_eq in E. now subst.
  - intros H. exists c. split; [exact H | apply Z.eqb_refl].
Qed.

Lemma groupby_head1_spec (l : dataframe) :
  StronglySorted (fun x y => (publish_date y <= publish_date x)%Z) l ->
  forall seen,
    let out := groupby_head1 seen l in
    NoDup (map index_code out) /\
    (forall r, In r out ->
       ~ In (index_code r) seen /\ In r l /\
       forall r', In r' l -> index_code r' = index_code r ->
                  (publish_date r' <= publish_date r)%Z) /\
    (forall r, In r l ->
       In (index_code r) seen \/ In (index_code r) (map index_code out)).
Proof.
  induction 1 as [|r rest Hs IH Hall]; intros seen; simpl.
  - split; [constructor|]. split; intros r []. 
  - rewrite Forall_forall in Hall.
    destruct (existsb (Z.eqb (index_code r)) seen) eqn:E.
    + apply seen_In in E.
      destruct (IH seen) as (Hnd & Hout & Hcov). split; [exact Hnd|]. split.
      * intros x Hx. destruct (Hout x Hx) as (Hns & Hin & Hmax).
        split; [exact Hns|]. split; [now right|].
        intros r' [<- | Hr'] Hc; [|now apply Hmax].
        exfalso. apply Hns. now rewrite <- Hc.
      * intros x [<- | Hx]; [now left | now apply Hcov].
    + assert (Hns : ~ In (index_code r) seen).
      { intros Hin. apply seen_In in Hin. congruence. }
      destruct (IH (index_code r :: seen)) as (Hnd & Hout & Hcov).
      split; [|split].
      * simpl. constructor; [|exact Hnd]. intros Hin.
        apply in_map_iff in Hin. destruct Hin as [x [Hc Hx]].
        destruct (Hout x Hx) as (Hx' & _). apply Hx'. left. now symmetry.
      * intros x [<- | Hx].
        -- split; [exact Hns|]. split; [now left|].
           intros r' [<- | Hr'] _; [lia | now apply Hall].
        -- destruct (Hout x Hx) as (Hx' & Hin & Hmax).
           split; [intros Hin'; apply Hx'; now right|].
           split; [now right|].
           intros r' [<- | Hr'] Hc; [|now apply Hmax].
           exfalso. apply Hx'. left. exact Hc.
      * intros x [<- | Hx]; [right; simpl; now left|].
        destruct (Hcov x Hx) as [[Hc | Hin] | Hin].
        -- right. simpl. left. exact Hc.
        -- now left.
        -- right. simpl. now right.
Qed.

Lemma series_mean_None (cells : list (option Q)) :
  series_mean cells = None <-> Forall (fun c => c = None) cells.
Proof.
  unfold series_mean. split.
  - intros H. apply Forall_forall. intros [v|] Hc; [|reflexivity].
    exfalso.
    assert (Hin : In v (flat_map (fun c => match c with
                                           | Some v => [v] | None => [] end)
                                 cells)).
    { apply in_flat_map. exists (Some v). split; [exact Hc | now left]. }
    destruct (flat_map _ cells); [contradiction | discriminate].
  - intros H. induction H as [|c l Hc _ IH]; [reflexivity|].
    subst c. simpl. exact IH.
Qed.

(** X11. The benchmark of the screener is the mean change over one row
    per index code: the row of the latest date of that code; every code of
    the monthly frame is counted exactly once.  NaN changes are skipped,
    and the benchmark is NaN only when all those changes are NaN. *)
Theorem benchmark_counts_latest_row_per_index (monthly_df : dataframe) :
  let recent_all := groupby_head1 [] (sort_by_date_desc monthly_df) in
  all_indices_avg_change monthly_df = series_mean (map change_pct recent_all)
  /\ NoDup (map index_code recent_all)
  /\ (forall r, In r monthly_df ->
        In (index_code r) (map index_code recent_all))
  /\ (forall r, In r recent_all ->
        In r monthly_df /\
        forall r', In r' monthly_df -> index_code r' = index_code r ->
                   (publish_date r' <= publish_date r)%Z)
  /\ (all_indices_avg_change monthly_df = None <->
        Forall (fun r => change_pct r = None) recent_all).
Proof.
  intros recent_all.
  destruct (groupby_head1_spec (sort_by_date_desc monthly_df)
              (sort_by_date_desc_sorted monthly_df) [])
    as (Hnd & Hout & Hcov).
  fold recent_all in Hnd, Hout, Hcov.
  assert (Hperm : Permutation monthly_df (sort_by_date_desc monthly_df))
    by apply sort_by_perm.
  split; [reflexivity|]. split; [exact Hnd|]. split; [|split].
  - intros r Hr.
    destruct (Hcov r (Permutation_in _ Hperm Hr)) as [[] | H]. exact H.
  - intros r Hr. destruct (Hout r Hr) as (_ & Hin & Hmax). split.
    + eapply Permutation_in; [symmetry; exact Hperm | exact Hin].
    + intros r' Hr' Hc. apply Hmax; [|exact Hc].
      eapply Permutation_in; eauto.
  - unfold all_indices_avg_change. fold recent_all.
    rewrite series_mean_None, Forall_map. reflexivity.
Qed.

End ScreenerBenchmark.

(** ** More on the percentile scorer *)

Section PercentileFacts.
Import Py Strategy Spec.
Local Open Scope Q_scope.

Lemma sort_Qle_sorted (a : list Q) :
  StronglySorted Qle (sort_by Qle_bool a).
Proof.
  eapply StronglySorted_impl; [|apply sort_by_sorted].
  - intros x y H. now apply Qle_bool_iff in H.
  - intros x y H. apply Qle_bool_iff. apply Qlt_le_weak, Qnot_le_lt.
    intros Hle. apply Qle_bool_iff in Hle. congruence.
  - intros x y z Hxy Hyz. apply Qle_bool_iff in Hxy, Hyz.
    apply Qle_bool_iff. eapply Qle_trans; eauto.
Qed.

Lemma sorted_nth_le (s : list Q) :
  StronglySorted Qle s ->
  forall i j, (i <= j)%nat -> (j < length s)%nat -> nth i s 0 <= nth j s 0.
Proof.
  induction 1 as [|x s Hs IH Hall]; intros i j Hij Hj; simpl in Hj; [lia|].
  destruct i as [|i], j as [|j]; simpl.
  - apply Qle_refl.
  - rewrite Forall_forall in Hall. apply Hall. apply nth_In. lia.
  - lia.
  - apply IH; lia.
Qed.

(** The value [np.percentile] interpolates: between the sorted entries at
    the floor of the virtual index and at the next index. *)
Lemma np_percentile_shape (a : list Q) (q : Q) :
  a <> [] -> 0 <= q <= 100 ->
  let s := sort_by Qle_bool a in
  let n := Z.of_nat (length a) in
  let vi := inject_Z (n - 1) * (q / 100) in
  let prev := Qfloor vi in
  let next := Z.min (prev + 1) (n - 1) in
  let gamma := vi - inject_Z prev in
  np_percentile a q
  = Ok (nth (Z.to_nat prev) s 0
        + gamma * (nth (Z.to_nat next) s 0 - nth (Z.to_nat prev) s 0)) /\
  (0 <= prev <= n - 1)%Z /\ (prev <= next <= n - 1)%Z /\ 0 <= gamma < 1.
Proof.
  intros Hne [Hq0 Hq1] s n vi prev next gamma.
  assert (Hn : (1 <= n)%Z).
  { unfold n. destruct a; [congruence | simpl length; lia]. }
  assert (Hm : 0 <= inject_Z (n - 1)) by (rewrite <- (Zle_Qle 0); lia).
  assert (Ht : 0 <= q / 100 <= 1).
  { setoid_replace (q / 100) with (q * (1 # 100)) by field. split; qlra. }
  assert (Hvi : 0 <= vi <= inject_Z (n - 1)).
  { unfold vi. split.
    - apply Qmult_le_0_compat; [exact Hm | apply Ht].
    - rewrite <- (Qmult_1_r (inject_Z (n - 1))) at 2.
      rewrite (Qmult_comm _ (q / 100)), (Qmult_comm _ 1).
      apply Qmult_le_compat_r; [apply Ht | exact Hm]. }
  assert (Hprev : (0 <= prev <= n - 1)%Z).
  { unfold prev. split.
    - change 0%Z with (Qfloor 0). apply Qfloor_resp_le, Hvi.
    - rewrite <- (Qfloor_Z (n - 1)). apply Qfloor_resp_le, Hvi. }
  split; [|split; [exact Hprev|split]].
  - unfold np_percentile.
    apply Qle_bool_iff in Hq0, Hq1. rewrite Hq0, Hq1. reflexivity.
  - unfold next. lia.
  - unfold gamma, prev. pose proof (Qfloor_le vi). pose proof (Qlt_floor vi).
    rewrite inject_Z_plus in H0. change (inject_Z 1) with 1 in H0.
    split; qlra.
Qed.

Lemma interpolation_between (x y g : Q) :
  x <= y -> 0 <= g <= 1 -> x <= x + g * (y - x) <= y.
Proof.
  intros Hxy [Hg0 Hg1].
  assert (H0 : 0 <= g * (y - x)) by (apply Qmult_le_0_compat; qlra).
  assert (H1 : g * (y - x) <= 1 * (y - x))
    by (apply Qmult_le_compat_r; qlra).
  split; qlra.
Qed.

(** [np.percentile] lies between two entries of the array. *)
Lemma np_percentile_between (a : list Q) (q : Q) :
  a <> [] -> 0 <= q <= 100 ->
  exists v x y,
    np_percentile a q = Ok v /\ In x a /\ In y a /\ x <= v <= y.
Proof.
  intros Hne Hq.
  destruct (np_percentile_shape a q Hne Hq) as (E & Hp & Hnx & Hg).
  set (s := sort_by Qle_bool a) in *.
  set (n := Z.of_nat (length a)) in *.
  set (prev := Qfloor _) in *. set (next := Z.min _ _) in *.
  assert (Hlen : length s = length a) by apply sort_by_length.
  assert (Hi : (Z.to_nat prev < length s)%nat) by (unfold n in *; lia).
  assert (Hj : (Z.to_nat next < length s)%nat) by (unfold n in *; lia).
  assert (Hin : forall i, (i < length s)%nat -> In (nth i s 0) a).
  { intros i Hlt. eapply Permutation_in;
      [symmetry; apply sort_by_perm | now apply nth_In]. }
  eexists _, (nth (Z.to_nat prev) s 0), (nth (Z.to_nat next) s 0).
  split; [exact E|]. split; [now apply Hin|]. split; [now apply Hin|].
  apply interpolation_between; [|split; qlra].
  apply sorted_nth_le; [apply sort_Qle_sorted | lia | exact Hj].
Qed.

(** [np.percentile] does not decrease with the percentage. *)
Lemma np_percentile_monotone (a : list Q) (q1 q2 : Q) :
  a <> [] -> 0 <= q1 -> q1 <= q2 -> q2 <= 100 ->
  exists v1 v2,
    np_percentile a q1 = Ok v1 /\ np_percentile a q2 = Ok v2 /\ v1 <= v2.
Proof.
  intros Hne H0 H12 H100.
  destruct (np_percentile_shape a q1 Hne) as (E1 & Hp1 & Hn1 & Hg1);
    [split; qlra|].
  destruct (np_percentile_shape a q2 Hne) as (E2 & Hp2 & Hn2 & Hg2);
    [split; qlra|].
  set (s := sort_by Qle_bool a) in *.
  set (n := Z.of_nat (length a)) in *.
  assert (Hn : (1 <= n)%Z).
  { unfold n. destruct a; [congruence | simpl length; lia]. }
  assert (Hm : 0 <= inject_Z (n - 1)) by (rewrite <- (Zle_Qle 0); lia).
  set (vi1 := inject_Z (n - 1) * (q1 / 100)) in *.
  set (vi2 := inject_Z (n - 1) * (q2 / 100)) in *.
  assert (Hvi : vi1 <= vi2).
  { unfold vi1, vi2. rewrite !(Qmult_comm (inject_Z (n - 1))).
    apply Qmult_le_compat_r; [|exact Hm].
    setoid_replace (q1 / 100) with (q1 * (1 # 100)) by field.
    setoid_replace (q2 / 100) with (q2 * (1 # 100)) by field. qlra. }
  set (p1 := Qfloor vi1) in *. set (p2 := Qfloor vi2) in *.
  set (x1 := Z.min (p1 + 1) (n - 1)) in *.
  set (x2 := Z.min (p2 + 1) (n - 1)) in *.
  assert (Hp12 : (p1 <= p2)%Z) by (apply Qfloor_resp_le; exact Hvi).
  assert (Hlen : length s = length a) by apply sort_by_length.
  assert (Hsorted := sort_Qle_sorted a). fold s in Hsorted.
  assert (Hnth : forall i j : Z, (0 <= i)%Z -> (i <= j)%Z -> (j <= n - 1)%Z ->
                 nth (Z.to_nat i) s 0 <= nth (Z.to_nat j) s 0).
  { intros i j Hi Hij Hj. apply sorted_nth_le; [exact Hsorted | lia|].
    unfold n in *. lia. }
  eexists _, _. split; [exact E1|]. split; [exact E2|].
  set (g1 := vi1 - inject_Z p1) in *. set (g2 := vi2 - inject_Z p2) in *.
  destruct (Z.eq_dec p1 p2) as [Heq | Hneq].
  - assert (Hx : x1 = x2) by (unfold x1, x2; now rewrite Heq).
    rewrite <- Hx, <- Heq.
    assert (Hg : g1 <= g2) by (unfold g1, g2; rewrite <- Heq; qlra).
    assert (Hd : 0 <= nth (Z.to_nat x1) s 0 - nth (Z.to_nat p1) s 0).
    { pose proof (Hnth p1 x1 ltac:(lia) ltac:(lia) ltac:(lia)). qlra. }
    assert (Hmul := Qmult_le_compat_r _ _ _ Hg Hd). qlra.
  - assert (Hlt : (p1 < p2)%Z) by lia.
    pose proof (interpolation_between
                  (nth (Z.to_nat p1) s 0) (nth (Z.to_nat x1) s 0) g1
                  (Hnth p1 x1 ltac:(lia) ltac:(lia) ltac:(lia))
                  ltac:(split; qlra)) as [_ Hv1].
    pose proof (interpolation_between
                  (nth (Z.to_nat p2) s 0) (nth (Z.to_nat x2) s 0) g2
                  (Hnth p2 x2 ltac:(lia) ltac:(lia) ltac:(lia))
                  ltac:(split; qlra)) as [Hv2 _].
    assert (Hmid : nth (Z.to_nat x1) s 0 <= nth (Z.to_nat p2) s 0).
    { apply Hnth; unfold x1; lia. }
    qlra.
Qed.

End PercentileFacts.

Section WinsorizeFacts.
Import Py Strategy Spec.
Local Open Scope Q_scope.

Lemma clip1_cases (lo hi x : Q) :
  lo <= hi ->
  lo <= clip1 lo hi x <= hi /\
  (lo <= x <= hi -> clip1 lo hi x == x) /\
  (x < lo -> clip1 lo hi x == lo) /\
  (hi < x -> clip1 lo hi x == hi).
Proof.
  intros Hlh. unfold clip1.
  destruct (Qlt_le_dec x lo) as [Hx | Hx].
  - assert (E : Qmax x lo == lo) by (apply Q.max_r; qlra).
    rewrite E. assert (E' : Qmin hi lo == lo) by (apply Q.min_r; qlra).
    rewrite E'. repeat split; intros; qlra.
  - assert (E : Qmax x lo == x) by (apply Q.max_l; qlra). rewrite E.
    destruct (Qlt_le_dec hi x) as [Hh | Hh].
    + assert (E' : Qmin hi x == hi) by (apply Q.min_l; qlra).
      rewrite E'. repeat split; intros; qlra.
    + assert (E' : Qmin hi x == x) by (apply Q.min_r; qlra).
      rewrite E'. repeat split; intros; qlra.
Qed.

Lemma Forall2_map_r {A B : Type} (P : A -> B -> Prop) (f : A -> B)
    (l : list A) :
  (forall x, In x l -> P x (f x)) -> Forall2 P l (map f l).
Proof.
  induction l as [|x l IH]; intros H; simpl; constructor.
  - apply H. now left.
  - apply IH. intros y Hy. apply H. now right.
Qed.

(** The two bounds of [winsorize], for a percentage of at most 1/2. *)
Lemma winsorize_bounds_ordered (data : list Q) (pct : Q) :
  data <> [] -> 0 <= pct <= 1 # 2 ->
  exists lower upper,
    np_percentile data (pct * 100) = Ok lower /\
    np_percentile data ((1 - pct) * 100) = Ok upper /\
    lower <= upper.
Proof.
  intros Hne [H0 H1].
  destruct (np_percentile_monotone data (pct * 100) ((1 - pct) * 100) Hne)
    as (lower & upper & El & Eu & Hle); try qlra.
  exists lower, upper. auto.
Qed.

(** X12. For a non-empty series and a percentage in [0, 1/2], [winsorize]
    returns a series of the same length: each value clipped into the band
    between the two percentiles of the series, whose lower bound is at most
    the upper one.  A value inside the band is unchanged, a value below it
    becomes the lower bound, a value above it the upper bound; and both
    bounds lie between two values of the series. *)
Theorem winsorize_clips_into_band (data : list Q) (pct : Q)
    (Hne : data <> []) (Hpct : 0 <= pct <= 1 # 2) :
  exists lower upper w,
    np_percentile data (pct * 100) = Ok lower /\
    np_percentile data ((1 - pct) * 100) = Ok upper /\
    winsorize data pct = Ok w /\
    lower <= upper /\
    (exists x y, In x data /\ In y data /\ x <= lower /\ upper <= y) /\
    length w = length data /\
    Forall2 (fun x y =>
               lower <= y <= upper /\
               (lower <= x <= upper -> y == x) /\
               (x < lower -> y == lower) /\
               (upper < x -> y == upper)) data w.
Proof.
  destruct (winsorize_bounds_ordered data pct Hne Hpct)
    as (lower & upper & El & Eu & Hle).
  exists lower, upper, (np_clip data lower upper).
  split; [exact El|]. split; [exact Eu|]. split.
  { unfold winsorize. destruct data; [congruence|].
    rewrite El, Eu. reflexivity. }
  split; [exact Hle|]. split.
  { destruct Hpct as [H0 H1].
    destruct (np_percentile_between data (pct * 100) Hne)
      as (v & x & _ & Ev & Hx & _ & Hxv & _); [split; qlra|].
    destruct (np_percentile_between data ((1 - pct) * 100) Hne)
      as (v' & _ & y & Ev' & _ & Hy & _ & Hvy); [split; qlra|].
    rewrite El in Ev. injection Ev as <-.
    rewrite Eu in Ev'. injection Ev' as <-.
    exists x, y. auto. }
  split; [apply length_map|].
  unfold np_clip. apply Forall2_map_r. intros x _.
  now apply clip1_cases.
Qed.

Lemma winsorize_clips_into_band_witness :
  outlier_series <> [] /\ 0 <= 5 # 100 <= 1 # 2 /\
  exists lower upper w,
    np_percentile outlier_series ((5 # 100) * 100) = Ok lower /\
    np_percentile outlier_series ((1 - (5 # 100)) * 100) = Ok upper /\
    winsorize outlier_series (5 # 100) = Ok w /\
    lower <= upper /\
    (exists x y, In x outlier_series /\ In y outlier_series /\
                 x <= lower /\ upper <= y) /\
    length w = length outlier_series /\
    Forall2 (fun x y =>
               lower <= y <= upper /\
               (lower <= x <= upper -> y == x) /\
               (x < lower -> y == lower) /\
               (upper < x -> y == upper)) outlier_series w.
Proof.
  assert (H1 : outlier_series <> []) by discriminate.
  assert (H2 : 0 <= 5 # 100 <= 1 # 2) by (split; vm_compute; congruence).
  split; [exact H1|]. split; [exact H2|].
  apply (winsorize_clips_into_band outlier_series (5 # 100) H1 H2).
Defined.

End WinsorizeFacts.

Section PercentileRange.
Import Py Strategy Spec.
Local Open Scope Q_scope.

Lemma sum_map_le {A : Type} (f g : A -> Q) (l : list A) :
  (forall x, In x l -> f x <= g x) -> sum (map f l) <= sum (map g l).
Proof.
  induction l as [|x l IH]; intros H; simpl; [apply Qle_refl|].
  rewrite !sum_cons.
  assert (H1 : f x <= g x) by (apply H; now left).
  assert (H2 : sum (map f l) <= sum (map g l))
    by (apply IH; intros y Hy; apply H; now right).
  qlra.
Qed.

Lemma weighted_sum_as_sum (self : config) (wv : list Q) (wc : Q) (T : nat) :
  weighted_sum (weights self T) (indicators wv wc T)
  = sum (map (fun t => pow (lambda_decay self) (T - t)
                       * (if Qlt_bool (nth t wv 0) wc then 1 else 0))
             (seq 0 T)).
Proof.
  unfold weighted_sum, weights, indicators.
  rewrite combine_map_seq, map_map. reflexivity.
Qed.

Lemma weighted_sum_bounds (self : config) (wv : list Q) (wc : Q) (T : nat) :
  0 < lambda_decay self ->
  0 <= weighted_sum (weights self T) (indicators wv wc T)
    <= sum (weights self T).
Proof.
  intros Hlam. rewrite weighted_sum_as_sum. unfold weights. split.
  - apply Qle_trans with (sum (map (fun _ : nat => 0) (seq 0 T))).
    + clear. induction (seq 0 T) as [|x l IH]; simpl; [apply Qle_refl|].
      rewrite sum_cons. qlra.
    + apply sum_map_le. intros t _.
      pose proof (pow_pos (lambda_decay self) (T - t) Hlam).
      destruct (Qlt_bool _ _); qlra.
  - apply sum_map_le. intros t _.
    pose proof (pow_pos (lambda_decay self) (T - t) Hlam).
    destruct (Qlt_bool _ _); qlra.
Qed.

Lemma weighted_percentile_range (self : config) (values : list Q) :
  values <> [] -> valid_pct (winsorize_pct self) -> 0 < lambda_decay self ->
  exists p,
    calculate_weighted_percentile self values
      = Ok (PTuple p (iloc_last values)) /\
    0 <= p <= 100.
Proof.
  intros Hne Hv Hlam.
  destruct (calculate_weighted_percentile_value self values Hne Hv Hlam)
    as (wv & wc & _ & _ & _ & Hres).
  eexists. split; [exact Hres|].
  assert (HT : (0 < length values)%nat)
    by (destruct values; [congruence | simpl; lia]).
  pose proof (total_weight_positive self (length values) Hlam HT) as Hpos.
  pose proof (weighted_sum_bounds self wv wc (length values) Hlam) as [H0 H1].
  set (ws := weighted_sum _ _) in *. set (tot := sum _) in *.
  assert (Hr : 0 <= ws / tot <= 1).
  { split.
    - apply Qle_shift_div_l; [exact Hpos | qlra].
    - apply Qle_shift_div_r; [exact Hpos | qlra]. }
  split; qlra.
Qed.

(** X13. For a non-empty series, a winsorize percentage in [0,1] and a
    decay factor in (0,1] (so that no power [lambda_decay ** (T - t)] can
    leave the range of a float), [calculate_weighted_percentile] returns a
    pair: a percentile in [0,100] and the latest value of the series. *)
Theorem weighted_percentile_in_range (self : config) (values : list Q)
    (Hne : values <> [])
    (Hpct : 0 <= winsorize_pct self <= 1)
    (Hlam : 0 < lambda_decay self <= 1) :
  exists p,
    calculate_weighted_percentile self values
      = Ok (PTuple p (last values 0)) /\
    0 <= p <= 100.
Proof.
  destruct (weighted_percentile_range self values Hne Hpct (proj1 Hlam))
    as (p & Hres & Hp).
  exists p. split; [exact Hres | exact Hp].
Qed.

Lemma weighted_percentile_in_range_witness :
  outlier_series <> [] /\
  0 <= winsorize_pct default_config <= 1 /\
  0 < lambda_decay default_config <= 1 /\
  exists p,
    calculate_weighted_percentile default_config outlier_series
      = Ok (PTuple p (last outlier_series 0)) /\
    0 <= p <= 100.
Proof.
  assert (H1 : outlier_series <> []) by discriminate.
  assert (H2 : 0 <= winsorize_pct default_config <= 1)
    by (split; vm_compute; congruence).
  assert (H3 : 0 < lambda_decay default_config <= 1)
    by (split; vm_compute; congruence).
  split; [exact H1|]. split; [exact H2|]. split; [exact H3|].
  apply (weighted_percentile_in_range default_config outlier_series H1 H2 H3).
Defined.

End PercentileRange.

Section NoWinsorize.
Import Py Strategy Spec.
Local Open Scope Q_scope.

Lemma sorted_extremes (a : list Q) (x : Q) :
  In x a ->
  nth 0 (sort_by Qle_bool a) 0 <= x
  <= nth (length a - 1) (sort_by Qle_bool a) 0.
Proof.
  intros Hx.
  assert (Hs : In x (sort_by Qle_bool a))
    by (eapply Permutation_in; [apply sort_by_perm | exact Hx]).
  destruct (In_nth _ _ 0 Hs) as (i & Hi & <-).
  rewrite sort_by_length in Hi.
  split; apply sorted_nth_le; try apply sort_Qle_sorted;
    rewrite ?sort_by_length; lia.
Qed.

Lemma np_percentile_at_0 (a : list Q) (q : Q) :
  a <> [] -> q == 0 ->
  exists v, np_percentile a q = Ok v /\ v == nth 0 (sort_by Qle_bool a) 0.
Proof.
  intros Hne Hq.
  destruct (np_percentile_shape a q Hne) as (E & _ & _ & _);
    [rewrite Hq; split; vm_compute; congruence|].
  set (vi := inject_Z (Z.of_nat (length a) - 1) * (q / 100)) in *.
  assert (Hvi : vi == 0).
  { unfold vi. rewrite Hq. assert (E0 : 0 / 100 == 0) by reflexivity.
    rewrite E0. ring. }
  assert (Hfl : Qfloor vi = 0%Z) by (rewrite Hvi; reflexivity).
  rewrite Hfl in E. eexists. split; [exact E|].
  rewrite Hvi. change (inject_Z 0) with 0. change (Z.to_nat 0) with O. ring.
Qed.

Lemma np_percentile_at_100 (a : list Q) (q : Q) :
  a <> [] -> q == 100 ->
  exists v, np_percentile a q = Ok v /\
            v == nth (length a - 1) (sort_by Qle_bool a) 0.
Proof.
  intros Hne Hq.
  destruct (np_percentile_shape a q Hne) as (E & _ & _ & _);
    [rewrite Hq; split; vm_compute; congruence|].
  set (n := Z.of_nat (length a)) in *.
  set (vi := inject_Z (n - 1) * (q / 100)) in *.
  assert (Hvi : vi == inject_Z (n - 1)).
  { unfold vi. rewrite Hq. field. }
  assert (Hfl : Qfloor vi = (n - 1)%Z) by (rewrite Hvi; apply Qfloor_Z).
  rewrite Hfl in E.
  replace (Z.min (n - 1 + 1) (n - 1)) with (n - 1)%Z in E by lia.
  replace (Z.to_nat (n - 1)) with (length a - 1)%nat in E by (unfold n; lia).
  eexists. split; [exact E|]. ring.
Qed.

Lemma clip1_inside (lo hi x : Q) : lo <= x <= hi -> clip1 lo hi x == x.
Proof.
  intros [H1 H2].
  destruct (clip1_cases lo hi x ltac:(qlra)) as (_ & H & _).
  apply H. split; assumption.
Qed.

Lemma winsorize_zero (data : list Q) :
  exists w, winsorize data 0 = Ok w /\ Forall2 Qeq data w.
Proof.
  destruct data as [|x0 data0] eqn:Ed.
  { exists []. split; [reflexivity | constructor]. }
  rewrite <- Ed. assert (Hne : data <> []) by (rewrite Ed; discriminate).
  destruct (np_percentile_at_0 data (0 * 100) Hne) as (lower & El & Hl);
    [reflexivity|].
  destruct (np_percentile_at_100 data ((1 - 0) * 100) Hne)
    as (upper & Eu & Hu); [reflexivity|].
  exists (np_clip data lower upper). split.
  - unfold winsorize. rewrite Ed at 1. rewrite El, Eu. reflexivity.
  - apply Forall2_map_r. intros x Hx. symmetry. apply clip1_inside.
    rewrite Hl, Hu. now apply sorted_extremes.
Qed.

(** X14. With a winsorize percentage of 0 the bounds are the smallest and
    the largest value of the series, and [winsorize] returns the series
    unchanged. *)
Theorem winsorize_zero_is_identity (data : list Q) :
  exists w,
    winsorize data 0 = Ok w /\
    length w = length data /\
    Forall2 Qeq data w.
Proof.
  destruct (winsorize_zero data) as (w & Hw & Heq).
  exists w. split; [exact Hw|]. split; [|exact Heq].
  symmetry. eapply Forall2_length; eauto.
Qed.

End NoWinsorize.

Section PlainPercentile.
Import Py Strategy Spec.
Local Open Scope Q_scope.

Lemma Qlt_bool_compat (x x' y y' : Q) :
  x == x' -> y == y' -> Qlt_bool x y = Qlt_bool x' y'.
Proof.
  intros Hx Hy. apply eq_true_iff_eq. rewrite !Qlt_bool_iff, Hx, Hy.
  reflexivity.
Qed.

Lemma Forall2_Qeq_nth (l l' : list Q) :
  Forall2 Qeq l l' -> forall t, nth t l 0 == nth t l' 0.
Proof.
  induction 1 as [|x y l l' Hxy _ IH]; intros [|t]; simpl;
    try reflexivity; auto.
Qed.

Lemma map_nth_seq {A : Type} (f : Q -> A) (l : list Q) :
  map (fun t => f (nth t l 0)) (seq 0 (length l)) = map f l.
Proof.
  induction l as [|x l IH]; simpl; [reflexivity|].
  rewrite <- seq_shift, map_map. simpl. now rewrite IH.
Qed.

Lemma sum_indicator_count (cur : Q) (l : list Q) :
  sum (map (fun v => if Qlt_bool v cur then 1 else 0) l)
  == inject_Z (Z.of_nat (length (filter (fun v => Qlt_bool v cur) l))).
Proof.
  induction l as [|x l IH]; simpl; [reflexivity|].
  rewrite sum_cons, IH. destruct (Qlt_bool x cur); simpl length.
  - rewrite Nat2Z.inj_succ, <- Z.add_1_l, inject_Z_plus. reflexivity.
  - ring.
Qed.

Lemma sum_ones (l : list nat) :
  sum (map (fun _ => 1) l) == inject_Z (Z.of_nat (length l)).
Proof.
  induction l as [|x l IH]; cbn [map length]; [reflexivity|].
  rewrite sum_cons, IH, Nat2Z.inj_succ, <- Z.add_1_l, inject_Z_plus.
  reflexivity.
Qed.

Lemma pow_one (b : Q) (n : nat) : b == 1 -> pow b n == 1.
Proof.
  intros Hb. unfold pow. rewrite Hb. apply Qpower_1.
Qed.

(** X15. Without decay (decay factor 1) and without winsorizing
    (percentage 0) the percentile of a non-empty series is the plain
    empirical one: 100 times the fraction of its values strictly below the
    latest value, the formula of the screener's percentiles. *)
Theorem plain_percentile_without_decay (self : config) (values : list Q)
    (Hne : values <> [])
    (Hlam : lambda_decay self == 1)
    (Hpct : winsorize_pct self = 0) :
  exists p,
    calculate_weighted_percentile self values
      = Ok (PTuple p (last values 0)) /\
    p == Screener.fraction_below (last values 0) values * 100.
Proof.
  assert (Hv : valid_pct (winsorize_pct self))
    by (rewrite Hpct; split; vm_compute; congruence).
  assert (Hpos : 0 < lambda_decay self) by (rewrite Hlam; reflexivity).
  destruct (calculate_weighted_percentile_value self values Hne Hv Hpos)
    as (wv & wc & Hwv & _ & Hwc & Hres).
  eexists. split; [exact Hres|].
  destruct (winsorize_zero values) as (w & Hw & Heq).
  rewrite Hpct, Hw in Hwv. injection Hwv as <-.
  unfold iloc_last in Hwc.
  set (T := length values).
  assert (Hsum : weighted_sum (weights self T) (indicators w wc T)
                 == inject_Z (Z.of_nat
                      (length (filter (fun v => Qlt_bool v (last values 0))
                                      values)))).
  { rewrite weighted_sum_as_sum. rewrite <- sum_indicator_count.
    rewrite <- (map_nth_seq
                  (fun v => if Qlt_bool v (last values 0) then 1 else 0)
                  values).
    fold T. apply sum_map_ext_in. intros t _.
    rewrite (pow_one _ _ Hlam).
    rewrite (Qlt_bool_compat (nth t w 0) (nth t values 0) wc (last values 0));
      [ring | symmetry; now apply Forall2_Qeq_nth | exact Hwc]. }
  assert (Htot : sum (weights self T) == inject_Z (Z.of_nat T)).
  { unfold weights.
    transitivity (sum (map (fun _ : nat => 1) (seq 0 T))).
    - apply sum_map_ext_in. intros t _. now apply pow_one.
    - rewrite sum_ones, length_seq. reflexivity. }
  rewrite Hsum, Htot. unfold Screener.fraction_below. reflexivity.
Qed.

Lemma plain_percentile_without_decay_witness :
  outlier_series <> [] /\
  lambda_decay {| lambda_decay := 1; winsorize_pct := 0 |} == 1 /\
  winsorize_pct {| lambda_decay := 1; winsorize_pct := 0 |} = 0 /\
  exists p,
    calculate_weighted_percentile
      {| lambda_decay := 1; winsorize_pct := 0 |} outlier_series
      = Ok (PTuple p (last outlier_series 0)) /\
    p == Screener.fraction_below (last outlier_series 0) outlier_series * 100.
Proof.
  assert (H1 : outlier_series <> []) by discriminate.
  split; [exact H1|]. split; [reflexivity|]. split; [reflexivity|].
  apply (plain_percentile_without_decay
           {| lambda_decay := 1; winsorize_pct := 0 |} outlier_series H1
           (Qeq_refl 1) eq_refl).
Defined.

End PlainPercentile.

(** ** More on the allocation planner *)

Section WeightFacts.
Import Py Strategy Spec.
Local Open Scope Q_scope.

Lemma pow_2 (b : Q) : pow b 2 == b * b.
Proof. unfold pow. reflexivity. Qed.

Lemma raw_factor_nonneg (e : etf_score) : 0 <= raw_factor e.
Proof.
  unfold raw_factor. rewrite pow_2.
  set (b := (100 - percentile e) / 50).
  destruct (Qlt_le_dec b 0) as [Hb | Hb].
  - setoid_replace (b * b) with ((- b) * (- b)) by ring.
    apply Qmult_le_0_compat; qlra.
  - now apply Qmult_le_0_compat.
Qed.

Lemma raw_factor_pos (e : etf_score) :
  ~ percentile e == 100 -> 0 < raw_factor e.
Proof.
  intros Hne. unfold raw_factor. rewrite pow_2.
  set (b := (100 - percentile e) / 50).
  assert (Hb : ~ b == 0).
  { unfold b. intros E. apply Hne.
    assert (E' : (100 - percentile e) / 50 * 50 == 0) by (rewrite E; ring).
    assert (E'' : (100 - percentile e) / 50 * 50 == 100 - percentile e)
      by field.
    qlra. }
  destruct (Qlt_le_dec b 0) as [Hlt | Hge].
  - setoid_replace (b * b) with ((- b) * (- b)) by ring.
    apply Qmult_lt_0_compat; qlra.
  - assert (0 < b).
    { destruct (Qlt_le_dec 0 b) as [|Hle]; [assumption|].
      exfalso. apply Hb. now apply Qle_antisym. }
    now apply Qmult_lt_0_compat.
Qed.

(** Below 100 a lower percentile has the larger raw factor. *)
Lemma raw_factor_antitone (e1 e2 : etf_score) :
  percentile e1 <= percentile e2 -> percentile e2 <= 100 ->
  raw_factor e2 <= raw_factor e1.
Proof.
  intros H12 H2. unfold raw_factor. rewrite !pow_2.
  set (b1 := (100 - percentile e1) / 50).
  set (b2 := (100 - percentile e2) / 50).
  assert (Hb2 : 0 <= b2).
  { unfold b2. apply Qle_shift_div_l; [reflexivity | qlra]. }
  assert (Hb : b2 <= b1).
  { unfold b1, b2.
    setoid_replace ((100 - percentile e2) / 50)
      with ((100 - percentile e2) * (1 # 50)) by field.
    setoid_replace ((100 - percentile e1) / 50)
      with ((100 - percentile e1) * (1 # 50)) by field.
    qlra. }
  apply Qle_trans with (b1 * b2).
  - apply Qmult_le_compat_r; assumption.
  - rewrite !(Qmult_comm b1). apply Qmult_le_compat_r; qlra.
Qed.

Lemma sum_nonneg (l : list Q) : Forall (fun x => 0 <= x) l -> 0 <= sum l.
Proof.
  induction 1 as [|x l Hx _ IH]; [apply Qle_refl|].
  rewrite sum_cons. qlra.
Qed.

Lemma sum_pos_exists (l : list Q) :
  Forall (fun x => 0 <= x) l -> Exists (fun x => 0 < x) l -> 0 < sum l.
Proof.
  intros Hall Hex. induction Hex as [x l Hx | x l Hex IH].
  - inversion Hall as [|? ? _ Hl]; subst. rewrite sum_cons.
    pose proof (sum_nonneg l Hl). qlra.
  - inversion Hall as [|? ? Hx Hl]; subst. rewrite sum_cons.
    specialize (IH Hl). qlra.
Qed.

Lemma mapM_truediv_ok (total : Q) (l : list Q) :
  0 < total ->
  mapM (fun w => truediv w total) l = Ok (map (fun w => w / total) l).
Proof.
  intros Ht. induction l as [|x l IH]; simpl; [reflexivity|].
  rewrite (truediv_ok _ _ Ht), IH. reflexivity.
Qed.

Lemma sum_map_div {A : Type} (f : A -> Q) (t : Q) (l : list A) :
  sum (map (fun x => f x / t) l) == sum (map f l) / t.
Proof.
  induction l as [|x l IH]; simpl.
  - rewrite sum_nil. unfold Qdiv. ring.
  - rewrite !sum_cons, IH. unfold Qdiv. ring.
Qed.

(** X16. For a selection whose percentiles all lie in [0,100] (as the
    scorer produces them, so that every raw factor lies in [0,4]),
    [calculate_nonlinear_weights] returns the empty list for an empty
    selection.  When some selected ETF has a percentile other than 100 it
    returns one weight per ETF, the raw factor divided by the positive
    total of the raw factors: the weights are not negative, they sum to 1,
    and of two ETFs the one with the lower percentile has the larger or
    equal weight. *)
Theorem nonlinear_weights_normalised (selected : list etf_score)
    (Hrange : Forall (fun e => 0 <= percentile e <= 100) selected) :
  (selected = [] -> calculate_nonlinear_weights selected = Ok []) /\
  (Forall (fun e => 0 <= raw_factor e <= 4) selected) /\
  (Exists (fun e => ~ percentile e == 100) selected ->
   exists total weights,
     calculate_nonlinear_weights selected = Ok weights /\
     0 < total /\
     total = sum (map raw_factor selected) /\
     weights = map (fun e => raw_factor e / total) selected /\
     length weights = length selected /\
     Forall (fun w => 0 <= w) weights /\
     sum weights == 1 /\
     (forall e1 e2, In e1 selected -> In e2 selected ->
        percentile e1 <= percentile e2 ->
        raw_factor e2 / total <= raw_factor e1 / total)).
Proof.
  split; [intros ->; reflexivity|].
  split.
  { eapply Forall_impl; [|exact Hrange]. intros e [H0 H100].
    split; [apply raw_factor_nonneg|].
    unfold raw_factor. rewrite pow_2.
    set (b := (100 - percentile e) / 50).
    assert (Hb : 0 <= b <= 2).
    { unfold b.
      setoid_replace ((100 - percentile e) / 50)
        with ((100 - percentile e) * (1 # 50)) by field.
      split; qlra. }
    apply Qle_trans with (2 * b).
    - apply Qmult_le_compat_r; qlra.
    - qlra. }
  intros Hex.
  set (total := sum (map raw_factor selected)).
  assert (Hraw : map (fun p => pow ((100 - p) / 50) 2)
                     (map percentile selected) = map raw_factor selected)
    by (rewrite map_map; reflexivity).
  assert (Hpos : 0 < total).
  { unfold total. apply sum_pos_exists.
    - apply Forall_forall. intros w Hw. apply in_map_iff in Hw.
      destruct Hw as [e [<- _]]. apply raw_factor_nonneg.
    - apply Exists_exists in Hex. destruct Hex as [e [He Hne]].
      apply Exists_exists. exists (raw_factor e).
      split; [now apply in_map | now apply raw_factor_pos]. }
  exists total, (map (fun e => raw_factor e / total) selected).
  split.
  { unfold calculate_nonlinear_weights. rewrite Hraw. fold total.
    rewrite (mapM_truediv_ok total _ Hpos), map_map. reflexivity. }
  split; [exact Hpos|]. split; [reflexivity|]. split; [reflexivity|].
  split; [apply length_map|]. split.
  { apply Forall_forall. intros w Hw. apply in_map_iff in Hw.
    destruct Hw as [e [<- _]].
    apply Qle_shift_div_l; [exact Hpos|]. rewrite Qmult_0_l.
    apply raw_factor_nonneg. }
  split.
  { rewrite sum_map_div. fold total. field. qlra. }
  intros e1 e2 _ H2 H12.
  rewrite Forall_forall in Hrange. apply Hrange in H2.
  apply Qle_shift_div_l; [exact Hpos|].
  setoid_replace (raw_factor e2 / total * total) with (raw_factor e2)
    by (field; qlra).
  apply raw_factor_antitone; [exact H12 | apply H2].
Qed.

Lemma nonlinear_weights_normalised_witness :
  Forall (fun e => 0 <= percentile e <= 100) selected_spread /\
  exists weights,
    calculate_nonlinear_weights selected_spread = Ok weights /\
    length weights = 3%nat /\ sum weights == 1.
Proof.
  assert (H : Forall (fun e => 0 <= percentile e <= 100) selected_spread).
  { repeat constructor; simpl; vm_compute; congruence. }
  assert (Hex : Exists (fun e => ~ percentile e == 100) selected_spread).
  { apply Exists_cons_hd. simpl. vm_compute. congruence. }
  split; [exact H|].
  destruct (nonlinear_weights_normalised selected_spread H)
    as (_ & _ & Hmain).
  destruct (Hmain Hex) as (total & weights & Hw & _ & _ & _ & Hl & _ & Hs & _).
  exists weights. split; [exact Hw|]. split; [exact Hl | exact Hs].
Defined.

End WeightFacts.

Section SelectionFacts.
Import Py Strategy Spec.
Local Open Scope Q_scope.

Lemma score_etf_nonempty (self : config) (etf_name : string) (data : list Q) :
  data <> [] -> valid_pct (winsorize_pct self) -> 0 < lambda_decay self ->
  exists e,
    score_etf self (etf_name, data) = Ok e /\
    name e = etf_name /\ current_value e = last data 0 /\
    latest_price e = last data 0 /\ 0 <= percentile e <= 100.
Proof.
  intros Hne Hv Hlam.
  destruct (weighted_percentile_range self data Hne Hv Hlam)
    as (p & Hres & Hp).
  unfold score_etf, calculate_valuation_percentile. rewrite Hres. simpl.
  eexists. split; [reflexivity|]. simpl. repeat split; apply Hp.
Qed.

Lemma score_etf_empty (self : config) (etf_name : string) :
  score_etf self (etf_name, []) = Raise TypeError.
Proof. reflexivity. Qed.

Lemma score_etf_raises_only_TypeError (self : config)
    (item : string * list Q) (err : exn) :
  valid_pct (winsorize_pct self) -> 0 < lambda_decay self ->
  score_etf self item = Raise err -> err = TypeError /\ snd item = [].
Proof.
  intros Hv Hlam H. destruct item as [nm data].
  destruct data as [|x data].
  - rewrite score_etf_empty in H. injection H as <-. auto.
  - destruct (score_etf_nonempty self nm (x :: data) ltac:(discriminate)
                Hv Hlam) as (e & He & _).
    rewrite He in H. discriminate.
Qed.

Lemma mapM_score_all (self : config) (etf_data : list (string * list Q)) :
  valid_pct (winsorize_pct self) -> 0 < lambda_decay self ->
  Forall (fun item => snd item <> []) etf_data ->
  exists etf_scores,
    mapM (score_etf self) etf_data = Ok etf_scores /\
    Forall2 (fun item e =>
               name e = fst item /\ current_value e = last (snd item) 0 /\
               latest_price e = last (snd item) 0 /\
               0 <= percentile e <= 100) etf_data etf_scores.
Proof.
  intros Hv Hlam Hall. induction Hall as [|[nm data] l Hd _ IH].
  - exists []. split; [reflexivity | constructor].
  - destruct IH as (scores & Hs & Hrel).
    destruct (score_etf_nonempty self nm data Hd Hv Hlam) as (e & He & Hprop).
    exists (e :: scores). split.
    + cbn [mapM]. rewrite He, Hs. reflexivity.
    + constructor; [exact Hprop | exact Hrel].
Qed.

Lemma mapM_score_some_empty (self : config)
    (etf_data : list (string * list Q)) :
  valid_pct (winsorize_pct self) -> 0 < lambda_decay self ->
  Exists (fun item => snd item = []) etf_data ->
  mapM (score_etf self) etf_data = Raise TypeError.
Proof.
  intros Hv Hlam Hex. induction etf_data as [|item l IH].
  - inversion Hex.
  - cbn [mapM]. destruct (score_etf self item) as [e|err] eqn:E.
    + assert (Hl : Exists (fun item => snd item = []) l).
      { inversion Hex as [? ? H0 | ? ? H0]; subst; [|exact H0].
        destruct item as [nm data]. simpl in H0. subst data.
        rewrite score_etf_empty in E. discriminate. }
      rewrite (IH Hl). reflexivity.
    + destruct (score_etf_raises_only_TypeError self item err Hv Hlam E)
        as [-> _]. reflexivity.
Qed.

Lemma Forall2_length_eq {A B : Type} (P : A -> B -> Prop) (l : list A)
    (l' : list B) : Forall2 P l l' -> length l = length l'.
Proof. induction 1; simpl; congruence. Qed.

Lemma Forall2_In_r {A B : Type} (P : A -> B -> Prop) (l : list A)
    (l' : list B) (y : B) :
  Forall2 P l l' -> In y l' -> exists x, In x l /\ P x y.
Proof.
  induction 1 as [|a b l l' Hab _ IH]; intros Hy; [contradiction|].
  destruct Hy as [<- | Hy].
  - exists a. split; [now left | exact Hab].
  - destruct (IH Hy) as (x & Hx & Hp). exists x. split; [now right | exact Hp].
Qed.

(** X17. For a winsorize percentage in [0,1] and a decay factor in (0,1],
    [select_top_etfs] raises [TypeError] as soon as one loaded series is
    empty (its percentile is a bare float that cannot be unpacked).  When
    every loaded series is non-empty it returns
    min(n_select, number of ETFs) entries, in descending order of total
    score; each entry carries the name of a loaded ETF, the latest value of
    its series as current value and as reference price, and a percentile in
    [0,100]. *)
Theorem select_top_etfs_outcome (self : config)
    (etf_data : list (string * list Q)) (n_select : nat)
    (Hpct : 0 <= winsorize_pct self <= 1)
    (Hlam : 0 < lambda_decay self <= 1) :
  (Exists (fun item => snd item = []) etf_data ->
   select_top_etfs self etf_data n_select = Raise TypeError) /\
  (Forall (fun item => snd item <> []) etf_data ->
   exists selected,
     select_top_etfs self etf_data n_select = Ok selected /\
     length selected = Nat.min n_select (length etf_data) /\
     StronglySorted (fun a b => total_score b <= total_score a) selected /\
     Forall (fun e =>
               exists data, In (name e, data) etf_data /\
                            current_value e = last data 0 /\
                            latest_price e = last data 0 /\
                            0 <= percentile e <= 100) selected).
Proof.
  destruct Hlam as [Hlam _]. split.
  - intros Hex. unfold select_top_etfs.
    rewrite (mapM_score_some_empty self etf_data Hpct Hlam Hex). reflexivity.
  - intros Hall.
    destruct (mapM_score_all self etf_data Hpct Hlam Hall)
      as (scores & Hs & Hrel).
    exists (firstn n_select (sort_by_total_score_desc scores)).
    split; [unfold select_top_etfs; rewrite Hs; reflexivity|].
    split.
    { rewrite length_firstn. unfold sort_by_total_score_desc.
      rewrite sort_by_length, (Forall2_length_eq _ _ _ Hrel). reflexivity. }
    split.
    { apply StronglySorted_firstn. unfold sort_by_total_score_desc.
      eapply StronglySorted_impl; [|apply sort_by_sorted].
      - intros a b Hab. now apply Qle_bool_iff in Hab.
      - intros a b Hab. apply Qle_bool_iff. apply Qlt_le_weak, Qnot_le_lt.
        intros Hle. apply Qle_bool_iff in Hle. congruence.
      - intros a b c Hab Hbc. apply Qle_bool_iff in Hab, Hbc.
        apply Qle_bool_iff. eapply Qle_trans; eauto. }
    apply Forall_forall. intros e He. apply In_firstn in He.
    assert (Hin : In e scores).
    { eapply Permutation_in; [symmetry; apply sort_by_perm | exact He]. }
    destruct (Forall2_In_r _ _ _ e Hrel Hin)
      as ([nm data] & Hitem & Hn & Hc & Hl & Hp).
    simpl in *. exists data. rewrite Hn. auto.
Qed.

Lemma select_top_etfs_outcome_witness :
  0 <= winsorize_pct default_config <= 1 /\
  0 < lambda_decay default_config <= 1 /\
  Forall (fun item => snd item <> []) etf_data_mixed /\
  exists selected,
    select_top_etfs default_config etf_data_mixed 2 = Ok selected /\
    length selected = Nat.min 2 (length etf_data_mixed).
Proof.
  assert (H1 : 0 <= winsorize_pct default_config <= 1)
    by (split; vm_compute; congruence).
  assert (H2 : 0 < lambda_decay default_config <= 1)
    by (split; vm_compute; congruence).
  assert (H3 : Forall (fun item => snd item <> []) etf_data_mixed)
    by (repeat constructor; discriminate).
  split; [exact H1|]. split; [exact H2|]. split; [exact H3|].
  destruct (proj2 (select_top_etfs_outcome default_config etf_data_mixed 2
                     H1 H2) H3) as (sel & Hs & Hl & _).
  exists sel. split; [exact Hs | exact Hl].
Defined.

End SelectionFacts.

(** ** The macro step *)

Section MacroFacts.
Import Py Strategy Spec Planner.

Lemma percentile_of_nonempty (self : config) (item : string * list Q) :
  snd item <> [] -> valid_pct (winsorize_pct self) ->
  (0 < lambda_decay self)%Q ->
  exists p, percentile_of self item = Ok p /\ (0 <= p <= 100)%Q.
Proof.
  intros Hne Hv Hlam.
  destruct (weighted_percentile_range self (snd item) Hne Hv Hlam)
    as (p & Hres & Hp).
  exists p. unfold percentile_of, calculate_valuation_percentile.
  rewrite Hres. simpl. auto.
Qed.

Lemma percentile_of_all (self : config) (etf_data : list (string * list Q)) :
  valid_pct (winsorize_pct self) -> (0 < lambda_decay self)%Q ->
  Forall (fun item => snd item <> []) etf_data ->
  exists ps,
    mapM (percentile_of self) etf_data = Ok ps /\
    length ps = length etf_data /\
    Forall (fun p => (0 <= p <= 100)%Q) ps.
Proof.
  intros Hv Hlam Hall. induction Hall as [|item l Hd _ IH].
  - exists []. repeat split; constructor.
  - destruct IH as (ps & Hs & Hlen & Hp).
    destruct (percentile_of_nonempty self item Hd Hv Hlam) as (p & Hpo & Hr).
    exists (p :: ps). cbn [mapM]. rewrite Hpo, Hs. simpl.
    repeat split; [congruence | now constructor].
Qed.

(** X18. With at least one ETF loaded, every loaded series non-empty, a
    winsorize percentage in [0,1], a decay factor in (0,1] and a positive
    aggressiveness (so that neither [lambda_decay ** (T - t)] overflows nor
    [0.7 / aggressiveness] divides by zero), [calculate_market_valuation]
    returns: a market
    percentile in [0,100] (the median of the ETF percentiles), a position
    in [0,1], and a split of the capital whose two parts add up to the
    total capital and, for a capital that is not negative, are each between
    0 and the total. *)
Theorem market_valuation_splits_capital (self : config)
    (nonlinear_type : string) (aggressiveness total_capital : R)
    (etf_data : list (string * list Q))
    (Hdata : etf_data <> [])
    (Hall : Forall (fun item => snd item <> []) etf_data)
    (Hpct : (0 <= winsorize_pct self <= 1)%Q)
    (Hlam : (0 < lambda_decay self <= 1)%Q)
    (Hagg : (0 < aggressiveness)%R) :
  exists info,
    calculate_market_valuation self nonlinear_type aggressiveness
      total_capital etf_data = Ok info /\
    (0 <= market_percentile info <= 100)%Q /\
    (0 <= macro_position info <= 1)%R /\
    (available_capital info + idle_capital info = total_capital)%R /\
    (available_capital info = total_capital * macro_position info)%R /\
    ((0 <= total_capital)%R ->
     (0 <= available_capital info <= total_capital)%R /\
     (0 <= idle_capital info <= total_capital)%R).
Proof.
  destruct (percentile_of_all self etf_data Hpct (proj1 Hlam) Hall)
    as (ps & Hps & Hlen & Hrange).
  assert (Hne : ps <> []).
  { intros ->. destruct etf_data; [congruence | discriminate]. }
  destruct (np_percentile_between ps 50 Hne)
    as (mp & x & y & Hmp & Hx & Hy & Hxy);
    [split; vm_compute; congruence|].
  rewrite Forall_forall in Hrange.
  pose proof (Hrange x Hx) as Hx'. pose proof (Hrange y Hy) as Hy'.
  eexists. split.
  { unfold calculate_market_valuation. rewrite Hps. cbn [bind].
    rewrite Hmp. cbn [bind]. reflexivity. }
  cbn [market_percentile macro_position available_capital idle_capital].
  set (pos := Sizer.nonlinear_position_sizing _ _ _).
  assert (Hpos : (0 <= pos <= 1)%R) by apply np_clip01_bounds.
  split; [split; qlra|]. split; [exact Hpos|].
  split; [ring|]. split; [reflexivity|].
  intros Hcap. split; split; try nra.
Qed.

Lemma market_valuation_splits_capital_witness :
  etf_data_mixed <> [] /\
  Forall (fun item => snd item <> []) etf_data_mixed /\
  (0 <= winsorize_pct default_config <= 1)%Q /\
  (0 < lambda_decay default_config <= 1)%Q /\
  (0 < 1.2)%R /\
  exists info,
    calculate_market_valuation default_config "sigmoid" 1.2 1000000
      etf_data_mixed = Ok info /\
    (0 <= market_percentile info <= 100)%Q /\
    (0 <= macro_position info <= 1)%R /\
    (available_capital info + idle_capital info = 1000000)%R.
Proof.
  assert (H0 : etf_data_mixed <> []) by discriminate.
  assert (H1 : Forall (fun item => snd item <> []) etf_data_mixed)
    by (repeat constructor; discriminate).
  assert (H2 : (0 <= winsorize_pct default_config <= 1)%Q)
    by (split; vm_compute; congruence).
  assert (H3 : (0 < lambda_decay default_config <= 1)%Q)
    by (split; vm_compute; congruence).
  assert (H4 : (0 < 1.2)%R) by rlra.
  split; [exact H0|]. split; [exact H1|]. split; [exact H2|].
  split; [exact H3|]. split; [exact H4|].
  destruct (market_valuation_splits_capital default_config "sigmoid"
              1.2%R 1000000%R etf_data_mixed H0 H1 H2 H3 H4)
    as (info & Hi & Hm & Hp & Hs & _).
  exists info. auto.
Defined.

End MacroFacts.

(** ** More on the position sizer *)

Section SizerShape.
Import Sizer SizerSpec.
Local Open Scope R_scope.

Lemma np_clip01_monotone (x y : R) : x <= y -> np_clip01 x <= np_clip01 y.
Proof.
  intros H. unfold np_clip01, Rmin, Rmax.
  repeat destruct (Rle_dec _ _); rlra.
Qed.

Lemma exp_monotone (x y : R) : x <= y -> exp x <= exp y.
Proof.
  intros [H | ->]; [left; now apply exp_increasing | right; reflexivity].
Qed.

Lemma float_pow_nonneg (b e : R) : 0 <= float_pow b e.
Proof.
  unfold float_pow. destruct (Req_dec_T b 0); [destruct (Req_dec_T e 0)|].
  - rlra.
  - rlra.
  - unfold Rpower. left. apply exp_pos.
Qed.

(** For a positive exponent the power grows with its base. *)
Lemma float_pow_monotone (b1 b2 e : R) :
  0 <= b1 -> b1 <= b2 -> 0 < e -> float_pow b1 e <= float_pow b2 e.
Proof.
  intros H1 H12 He. unfold float_pow.
  destruct (Req_dec_T b1 0) as [E1 | E1].
  - destruct (Req_dec_T e 0); [rlra|].
    destruct (Req_dec_T b2 0); [rlra|].
    unfold Rpower. left. apply exp_pos.
  - destruct (Req_dec_T b2 0); [rlra|].
    apply Rle_Rpower_l; [rlra | split; rlra].
Qed.

(** For a base in [0,1] the power shrinks as the exponent grows. *)
Lemma float_pow_exponent (b e1 e2 : R) :
  0 <= b <= 1 -> 0 < e1 -> e1 <= e2 -> float_pow b e2 <= float_pow b e1.
Proof.
  intros [Hb0 Hb1] He1 He12. unfold float_pow.
  destruct (Req_dec_T b 0) as [E | E].
  - destruct (Req_dec_T e2 0); [rlra|]. destruct (Req_dec_T e1 0); rlra.
  - unfold Rpower. apply exp_monotone.
    assert (Hln : ln b <= 0).
    { destruct Hb1 as [Hlt | ->]; [|rewrite ln_1; rlra].
      left. rewrite <- ln_1. apply ln_increasing; rlra. }
    nra.
Qed.

Lemma float_pow_1 (e : R) : float_pow 1 e = 1.
Proof.
  unfold float_pow. destruct (Req_dec_T 1 0); [rlra|].
  unfold Rpower. rewrite ln_1, Rmult_0_r. apply exp_0.
Qed.

Lemma float_pow_0 (e : R) : e <> 0 -> float_pow 0 e = 0.
Proof.
  intros He. unfold float_pow. destruct (Req_dec_T 0 0); [|rlra].
  destruct (Req_dec_T e 0); [contradiction | reflexivity].
Qed.

Lemma np_interp_antitone (x1 x2 : R) :
  x1 <= x2 -> np_interp x2 points_xy <= np_interp x1 points_xy.
Proof.
  intros H. unfold np_interp, points_xy, interp_from. cbn [fst snd].
  repeat destruct (Rlt_dec _ _); rlra.
Qed.

(** X19. Whatever the curve name, for a positive aggressiveness the
    position never grows with the percentile over [0,100]. *)
Theorem position_never_grows_with_percentile (nonlinear_type : string)
    (aggressiveness p1 p2 : R)
    (Ha : 0 < aggressiveness) (H0 : 0 <= p1) (H12 : p1 <= p2)
    (H100 : p2 <= 100) :
  nonlinear_position_sizing nonlinear_type aggressiveness p2
  <= nonlinear_position_sizing nonlinear_type aggressiveness p1.
Proof.
  unfold nonlinear_position_sizing. apply np_clip01_monotone.
  assert (Hx : p1 / 100 <= p2 / 100) by rlra.
  destruct (String.eqb nonlinear_type "linear"); [rlra|].
  destruct (String.eqb nonlinear_type "sigmoid").
  { cbv zeta.
    pose proof (exp_pos (5 * aggressiveness * (p1 / 100 - 0.5))) as He1.
    assert (He : exp (5 * aggressiveness * (p1 / 100 - 0.5))
                 <= exp (5 * aggressiveness * (p2 / 100 - 0.5)))
      by (apply exp_monotone; nra).
    unfold Rdiv. rewrite !Rmult_1_l.
    apply Rinv_le_contravar; rlra. }
  destruct (String.eqb nonlinear_type "power").
  { cbv zeta. apply float_pow_monotone; [rlra | rlra|].
    apply Rdiv_lt_0_compat; rlra. }
  destruct (String.eqb nonlinear_type "custom").
  { now apply np_interp_antitone. }
  apply float_pow_monotone; rlra.
Qed.

Lemma position_never_grows_with_percentile_witness :
  0 < 1.2 /\ 0 <= 30 /\ 30 <= 70 /\ 70 <= 100 /\
  nonlinear_position_sizing "power" 1.2 70
  <= nonlinear_position_sizing "power" 1.2 30.
Proof.
  assert (H1 : 0 < 1.2) by rlra. assert (H2 : 0 <= 30) by rlra.
  assert (H3 : 30 <= 70) by rlra. assert (H4 : 70 <= 100) by rlra.
  split; [exact H1|]. split; [exact H2|]. split; [exact H3|].
  split; [exact H4|].
  apply (position_never_grows_with_percentile "power" 1.2 30 70 H1 H2 H3 H4).
Defined.

(** X20. The sigmoid position is symmetric about the percentile 50: the
    positions at [p] and at [100 - p] add up to 1, for every
    aggressiveness. *)
Theorem sigmoid_position_symmetric (aggressiveness percentile : R) :
  nonlinear_position_sizing "sigmoid" aggressiveness percentile
  + nonlinear_position_sizing "sigmoid" aggressiveness (100 - percentile)
  = 1.
Proof.
  rewrite !sizing_sigmoid. unfold sigmoid.
  replace (5 * aggressiveness * ((100 - percentile) / 100 - 0.5))
    with (- (5 * aggressiveness * (percentile / 100 - 0.5))) by rlra.
  rewrite exp_Ropp.
  pose proof (exp_pos (5 * aggressiveness * (percentile / 100 - 0.5))) as He.
  field. split; rlra.
Qed.

(** X21. A larger aggressiveness never lowers the sigmoid position at a
    percentile of at most 50 and never raises it at a percentile of at
    least 50 (the curve gets steeper around the fixed point 0.5 at 50, up
    to the plateaus 1 and 0 on which it stays once reached).  On the power
    curve it never lowers the position, at any percentile of [0,100]. *)
Theorem aggressiveness_effect (a1 a2 percentile : R)
    (Ha1 : 0 < a1) (Ha : a1 <= a2)
    (Hp : 0 <= percentile <= 100) :
  (percentile <= 50 ->
   nonlinear_position_sizing "sigmoid" a1 percentile
   <= nonlinear_position_sizing "sigmoid" a2 percentile) /\
  (50 <= percentile ->
   nonlinear_position_sizing "sigmoid" a2 percentile
   <= nonlinear_position_sizing "sigmoid" a1 percentile) /\
  nonlinear_position_sizing "power" a1 percentile
  <= nonlinear_position_sizing "power" a2 percentile.
Proof.
  assert (Hsig : forall t1 t2,
             t1 <= t2 -> 1 / (1 + exp t2) <= 1 / (1 + exp t1)).
  { intros t1 t2 Ht. pose proof (exp_pos t1).
    pose proof (exp_monotone _ _ Ht).
    unfold Rdiv. rewrite !Rmult_1_l.
    apply Rinv_le_contravar; rlra. }
  split; [|split].
  - intros H50. rewrite !sizing_sigmoid. unfold sigmoid. apply Hsig. nra.
  - intros H50. rewrite !sizing_sigmoid. unfold sigmoid. apply Hsig. nra.
  - unfold nonlinear_position_sizing. cbn [String.eqb Ascii.eqb Bool.eqb].
    apply np_clip01_monotone. apply float_pow_exponent.
    + split; rlra.
    + apply Rdiv_lt_0_compat; rlra.
    + unfold Rdiv. apply Rmult_le_compat_l; [rlra|].
      apply Rinv_le_contravar; rlra.
Qed.

Lemma aggressiveness_effect_witness :
  0 < 1 /\ 1 <= 1.2 /\ 0 <= 30 <= 100 /\
  (30 <= 50 ->
   nonlinear_position_sizing "sigmoid" 1 30
   <= nonlinear_position_sizing "sigmoid" 1.2 30).
Proof.
  assert (H1 : 0 < 1) by rlra. assert (H2 : 1 <= 1.2) by rlra.
  assert (H3 : 0 <= 30 <= 100) by rlra.
  split; [exact H1|]. split; [exact H2|]. split; [exact H3|].
  exact (proj1 (aggressiveness_effect 1 1.2 30 H1 H2 H3)).
Defined.

(** X22. The power curve and the fallback curve give the position 1 at
    percentile 0 and 0 at percentile 100; and a curve name that is none of
    linear, sigmoid, power and custom gives the power curve of
    aggressiveness 1, whatever the aggressiveness is. *)
Theorem power_and_fallback_curves (nonlinear_type : string)
    (aggressiveness percentile : R)
    (Ha : 0 < aggressiveness)
    (Hother : nonlinear_type <> "linear"%string /\
              nonlinear_type <> "sigmoid"%string /\
              nonlinear_type <> "power"%string /\
              nonlinear_type <> "custom"%string) :
  nonlinear_position_sizing "power" aggressiveness 0 = 1 /\
  nonlinear_position_sizing "power" aggressiveness 100 = 0 /\
  nonlinear_position_sizing nonlinear_type aggressiveness percentile
  = nonlinear_position_sizing "power" 1 percentile.
Proof.
  destruct Hother as (H1 & H2 & H3 & H4).
  assert (He : 0.7 / aggressiveness <> 0).
  { assert (0 < 0.7 / aggressiveness) by (apply Rdiv_lt_0_compat; rlra).
    rlra. }
  split; [|split].
  - unfold nonlinear_position_sizing. cbn [String.eqb Ascii.eqb Bool.eqb].
    replace (1 - 0 / 100) with 1 by rlra.
    rewrite float_pow_1. apply np_clip01_id. rlra.
  - unfold nonlinear_position_sizing. cbn [String.eqb Ascii.eqb Bool.eqb].
    replace (1 - 100 / 100) with 0 by rlra.
    rewrite (float_pow_0 _ He). apply np_clip01_id. rlra.
  - unfold nonlinear_position_sizing.
    apply String.eqb_neq in H1, H2, H3, H4. rewrite H1, H2, H3, H4.
    cbn [String.eqb Ascii.eqb Bool.eqb].
    replace (0.7 / 1) with 0.7 by rlra. reflexivity.
Qed.

Lemma power_and_fallback_curves_witness :
  0 < 1.2 /\
  nonlinear_position_sizing "power" 1.2 0 = 1 /\
  nonlinear_position_sizing "power" 1.2 100 = 0 /\
  nonlinear_position_sizing "cubic" 1.2 40
  = nonlinear_position_sizing "power" 1 40.
Proof.
  assert (H1 : 0 < 1.2) by rlra.
  split; [exact H1|].
  apply (power_and_fallback_curves "cubic" 1.2 40 H1).
  repeat split; discriminate.
Defined.

End SizerShape.

(** ** The selector router *)

Section RouterFacts.
Import Py Router.
Local Open Scope Q_scope.

Lemma lt_num_ok (v : value) (c : Q) (b : bool) :
  lt_num v c = Ok b -> exists x, v = VNum x /\ b = Qlt_bool x c.
Proof.
  destruct v as [|x|s]; simpl; intros H; try discriminate.
  injection H as <-. eauto.
Qed.

Lemma capital_score_range (sel : SelectorType) (profile : dict) (v : Q) :
  _evaluate_capital sel profile = Ok v ->
  match sel with
  | SW_LV1 => v = 90 \/ v = 80 \/ v = 60
  | SW_LV2 => v = 40 \/ v = 70 \/ v = 95
  end.
Proof.
  unfold _evaluate_capital.
  destruct (dict_get profile "total_capital" (VNum 0)) as [|x|s];
    destruct sel; simpl; try discriminate;
    destruct (Qlt_bool x 100); simpl;
    try (intros H; injection H as <-; auto);
    destruct (Qlt_bool x 500); intros H; injection H as <-; auto.
Qed.

Lemma diversification_score_range (sel : SelectorType) (profile : dict)
    (v : Q) :
  _evaluate_diversification sel profile = Ok v ->
  match sel with
  | SW_LV1 => v = 90 \/ v = 75 \/ v = 60
  | SW_LV2 => v = 50 \/ v = 80 \/ v = 95
  end.
Proof.
  unfold _evaluate_diversification.
  destruct (dict_get profile "total_capital" (VNum 0)) as [|x|s];
    destruct sel; simpl; try discriminate;
    destruct (Qlt_bool x 200); simpl;
    try (intros H; injection H as <-; auto);
    destruct (Qlt_bool x 500); intros H; injection H as <-; auto.
Qed.

Lemma risk_score_range (sel : SelectorType) (profile : dict) (v : Q) :
  _evaluate_risk_preference sel profile = Ok v ->
  match sel with
  | SW_LV1 => v = 90 \/ v = 85 \/ v = 60
  | SW_LV2 => v = 50 \/ v = 80 \/ v = 95
  end.
Proof.
  unfold _evaluate_risk_preference.
  destruct (dict_get profile "risk_level" (VNum 3)) as [|x|s];
    destruct sel; simpl; try discriminate;
    try (intros H; injection H as <-; auto);
    destruct (Qle_bool x 2); simpl;
    try (intros H; injection H as <-; auto);
    destruct (Qeq_bool x 3); intros H; injection H as <-; auto.
Qed.

Lemma experience_score_range (sel : SelectorType) (profile : dict) :
  let v := _evaluate_investment_experience sel profile in
  match sel with
  | SW_LV1 => v = 90 \/ v = 80 \/ v = 70
  | SW_LV2 => v = 40 \/ v = 75 \/ v = 95
  end.
Proof.
  unfold _evaluate_investment_experience.
  destruct sel; cbv zeta;
    destruct (Z.leb _ 3); auto; destruct (Z.eqb _ 4); auto.
Qed.

Lemma market_score_range (sel : SelectorType) (market_state : dict) :
  let v := _evaluate_market_state sel market_state in
  match sel with
  | SW_LV1 => v = 75 \/ v = 90 \/ v = 65
  | SW_LV2 => v = 70 \/ v = 80 \/ v = 85
  end.
Proof.
  unfold _evaluate_market_state.
  destruct sel; cbv zeta;
    destruct (eq_str _ "low"); auto; destruct (eq_str _ "medium"); auto.
Qed.

Lemma weighted_total_init (sc : scores) :
  weighted_total init_weights sc
  == s_capital sc * (3 # 10) + s_risk_level sc * (25 # 100)
     + s_experience sc * (2 # 10) + s_market_state sc * (15 # 100)
     + s_diversification sc * (1 # 10).
Proof.
  unfold weighted_total. rewrite !sum_cons, sum_nil. simpl. ring.
Qed.

(** The parts of a score that was computed. *)
Lemma selector_score_parts (self : weights) (sel : SelectorType)
    (profile market_state : dict) (total : Q) (sc : scores) :
  calculate_selector_score self sel profile market_state = Ok (total, sc) ->
  _evaluate_capital sel profile = Ok (s_capital sc) /\
  _evaluate_risk_preference sel profile = Ok (s_risk_level sc) /\
  s_experience sc = _evaluate_investment_experience sel profile /\
  s_market_state sc = _evaluate_market_state sel market_state /\
  _evaluate_diversification sel profile = Ok (s_diversification sc) /\
  total = weighted_total self sc.
Proof.
  unfold calculate_selector_score.
  destruct (_evaluate_capital sel profile) as [c|]; [|discriminate].
  destruct (_evaluate_risk_preference sel profile) as [r|]; [|discriminate].
  destruct (_evaluate_diversification sel profile) as [d|]; [|discriminate].
  simpl. intros H. injection H as <- <-. simpl. repeat split.
Qed.

Lemma selector_score_bounds (sel : SelectorType) (profile market_state : dict)
    (total : Q) (sc : scores) :
  calculate_selector_score init_weights sel profile market_state
    = Ok (total, sc) ->
  match sel with
  | SW_LV1 =>
      60 <= s_capital sc <= 90 /\ 60 <= s_risk_level sc <= 90 /\
      70 <= s_experience sc <= 90 /\ 65 <= s_market_state sc <= 90 /\
      60 <= s_diversification sc <= 90
  | SW_LV2 =>
      40 <= s_capital sc <= 95 /\ 50 <= s_risk_level sc <= 95 /\
      40 <= s_experience sc <= 95 /\ 70 <= s_market_state sc <= 85 /\
      50 <= s_diversification sc <= 95
  end.
Proof.
  intros H.
  destruct (selector_score_parts _ _ _ _ _ _ H)
    as (Hc & Hr & He & Hm & Hd & _).
  pose proof (capital_score_range sel profile _ Hc) as Rc.
  pose proof (risk_score_range sel profile _ Hr) as Rr.
  pose proof (experience_score_range sel profile) as Re.
  pose proof (market_score_range sel market_state) as Rm.
  pose proof (diversification_score_range sel profile _ Hd) as Rd.
  cbv zeta in Re, Rm. rewrite <- He in Re. rewrite <- Hm in Rm.
  destruct sel;
    repeat split;
    repeat match goal with
           | H : _ \/ _ |- _ => destruct H as [H | H]
           end;
    repeat match goal with H : _ = _ :> Q |- _ => rewrite H; clear H end;
    vm_compute; congruence.
Qed.

(** X23. With the weights of the constructor, a score that
    [calculate_selector_score] returns is in the documented range 0 to 100:
    between 62.75 and 90 for SW_LV1 and between 48 and 93.5 for SW_LV2,
    every dimension score lying between 40 and 95. *)
Theorem selector_score_in_range (sel : SelectorType)
    (profile market_state : dict) (total : Q) (sc : scores)
    (H : calculate_selector_score init_weights sel profile market_state
         = Ok (total, sc)) :
  0 <= total <= 100 /\
  match sel with
  | SW_LV1 => 6275 # 100 <= total <= 90
  | SW_LV2 => 48 <= total <= 935 # 10
  end /\
  40 <= s_capital sc <= 95 /\ 40 <= s_risk_level sc <= 95 /\
  40 <= s_experience sc <= 95 /\ 40 <= s_market_state sc <= 95 /\
  40 <= s_diversification sc <= 95.
Proof.
  pose proof (selector_score_bounds sel profile market_state total sc H) as Hb.
  destruct (selector_score_parts _ _ _ _ _ _ H) as (_ & _ & _ & _ & _ & Ht).
  pose proof (weighted_total_init sc) as Hw. rewrite <- Ht in Hw.
  destruct sel; destruct Hb as (Hc & Hr & He & Hm & Hd);
    rewrite Hw; repeat split; qlra.
Qed.

Lemma selector_score_in_range_witness :
  calculate_selector_score init_weights SW_LV2 small_conservative_profile []
  = Ok (495000000 # 10000000,
        {| s_capital := 40; s_risk_level := 50; s_experience := 40;
           s_market_state := 80; s_diversification := 50 |}) /\
  0 <= 495000000 # 10000000 <= 100.
Proof.
  assert (H : calculate_selector_score init_weights SW_LV2
                small_conservative_profile []
              = Ok (495000000 # 10000000,
                    {| s_capital := 40; s_risk_level := 50;
                       s_experience := 40; s_market_state := 80;
                       s_diversification := 50 |})).
  { vm_compute. reflexivity. }
  split; [exact H|].
  exact (proj1 (selector_score_in_range SW_LV2 small_conservative_profile []
                  _ _ H)).
Defined.

Lemma capital_numeric_ok (sel : SelectorType) (profile : dict) (x : Q) :
  dict_get profile "total_capital" (VNum 0) = VNum x ->
  exists v, _evaluate_capital sel profile = Ok v /\
            (x < 100 -> v = match sel with SW_LV1 => 90 | SW_LV2 => 40 end) /\
            (500 <= x -> v = match sel with SW_LV1 => 60 | SW_LV2 => 95 end).
Proof.
  intros E. unfold _evaluate_capital. rewrite E. simpl.
  destruct (Qlt_bool x 100) eqn:E1; [|destruct (Qlt_bool x 500) eqn:E2];
    destruct sel; simpl; eexists; (split; [reflexivity|]);
    try apply Qlt_bool_iff in E1; try apply Qlt_bool_false_iff in E1;
    try apply Qlt_bool_iff in E2; try apply Qlt_bool_false_iff in E2;
    split; intros; try reflexivity; exfalso; qlra.
Qed.

Lemma diversification_numeric_ok (sel : SelectorType) (profile : dict)
    (x : Q) :
  dict_get profile "total_capital" (VNum 0) = VNum x ->
  exists v, _evaluate_diversification sel profile = Ok v /\
            (x < 100 -> v = match sel with SW_LV1 => 90 | SW_LV2 => 50 end) /\
            (500 <= x -> v = match sel with SW_LV1 => 60 | SW_LV2 => 95 end).
Proof.
  intros E. unfold _evaluate_diversification. rewrite E. simpl.
  destruct (Qlt_bool x 200) eqn:E1; [|destruct (Qlt_bool x 500) eqn:E2];
    destruct sel; simpl; eexists; (split; [reflexivity|]);
    try apply Qlt_bool_iff in E1; try apply Qlt_bool_false_iff in E1;
    try apply Qlt_bool_iff in E2; try apply Qlt_bool_false_iff in E2;
    split; intros; try reflexivity; exfalso; qlra.
Qed.

Lemma risk_numeric_ok (sel : SelectorType) (profile : dict) (r : Q) :
  dict_get profile "risk_level" (VNum 3) = VNum r ->
  exists v, _evaluate_risk_preference sel profile = Ok v /\
            (r <= 2 -> v = match sel with SW_LV1 => 90 | SW_LV2 => 50 end) /\
            (3 < r -> v = match sel with SW_LV1 => 60 | SW_LV2 => 95 end).
Proof.
  intros E. unfold _evaluate_risk_preference. rewrite E. simpl.
  assert (Hle : Qle_bool r 2 = true -> r <= 2) by apply Qle_bool_iff.
  assert (Hnle : Qle_bool r 2 = false -> ~ r <= 2).
  { intros Hf Hr. apply Qle_bool_iff in Hr. congruence. }
  assert (Heq : Qeq_bool r 3 = true -> r == 3) by apply Qeq_bool_iff.
  destruct (Qle_bool r 2); [|destruct (Qeq_bool r 3)];
    destruct sel; simpl; eexists; (split; [reflexivity|]);
    split; intros; try reflexivity; exfalso.
  all: try (specialize (Hle eq_refl)); try (specialize (Hnle eq_refl));
    try (specialize (Heq eq_refl)); try contradiction; qlra.
Qed.

Lemma risk_none_ok (sel : SelectorType) (profile : dict) :
  dict_get profile "risk_level" (VNum 3) = VNone ->
  _evaluate_risk_preference sel profile
  = Ok (match sel with SW_LV1 => 85 | SW_LV2 => 80 end).
Proof.
  intros E. unfold _evaluate_risk_preference. rewrite E.
  destruct sel; reflexivity.
Qed.

Lemma select_best_unfold (self : weights) (profile : dict)
    (market_state : option dict) (t1 t2 : Q) (sc1 sc2 : scores) :
  let m := match market_state with
           | None => [("volatility"%string, VStr "medium");
                      ("trend"%string, VStr "neutral")]
           | Some m => m
           end in
  calculate_selector_score self SW_LV1 profile m = Ok (t1, sc1) ->
  calculate_selector_score self SW_LV2 profile m = Ok (t2, sc2) ->
  exists d,
    select_best_selector self profile market_state
      = Ok (if Qle_bool t2 t1 then SW_LV1 else SW_LV2, d) /\
    selected_type d = (if Qle_bool t2 t1 then SW_LV1 else SW_LV2) /\
    selected_score d = (if Qle_bool t2 t1 then t1 else t2) /\
    sw_lv1_score d = t1 /\ sw_lv2_score d = t2.
Proof.
  intros m H1 H2. unfold select_best_selector. fold m.
  rewrite H1, H2. cbn [bind].
  destruct (Qle_bool t2 t1); eexists; (split; [reflexivity|]);
    cbn; repeat split.
Qed.

Lemma score_from_parts (self : weights) (sel : SelectorType)
    (profile m : dict) (c r d : Q) :
  _evaluate_capital sel profile = Ok c ->
  _evaluate_risk_preference sel profile = Ok r ->
  _evaluate_diversification sel profile = Ok d ->
  exists total sc,
    calculate_selector_score self sel profile m = Ok (total, sc) /\
    s_capital sc = c /\ s_risk_level sc = r /\ s_diversification sc = d.
Proof.
  intros Hc Hr Hd. unfold calculate_selector_score.
  rewrite Hc, Hr, Hd. cbn [bind]. eexists _, _.
  split; [reflexivity|]. repeat split.
Qed.

(** X24. With the weights of the constructor and a numeric capital and
    risk level, the router chooses SW_LV1 for every profile with a capital
    below 100 and a risk level of at most 2, and SW_LV2 for every profile
    with a capital of at least 500 and a risk level above 3, whatever the
    investment experience and the market state are. *)
Theorem router_settled_profiles (profile : dict) (market_state : option dict)
    (x r : Q)
    (Hcap : dict_get profile "total_capital" (VNum 0) = VNum x)
    (Hrisk : dict_get profile "risk_level" (VNum 3) = VNum r) :
  (x < 100 -> r <= 2 ->
   exists d, select_best_selector init_weights profile market_state
             = Ok (SW_LV1, d)) /\
  (500 <= x -> 3 < r ->
   exists d, select_best_selector init_weights profile market_state
             = Ok (SW_LV2, d)).
Proof.
  set (m := match market_state with
            | None => [("volatility"%string, VStr "medium");
                       ("trend"%string, VStr "neutral")]
            | Some m => m
            end).
  assert (Hscore : forall sel,
    exists total sc c rk d,
      calculate_selector_score init_weights sel profile m = Ok (total, sc) /\
      s_capital sc = c /\ s_risk_level sc = rk /\ s_diversification sc = d /\
      (x < 100 -> c = match sel with SW_LV1 => 90 | SW_LV2 => 40 end) /\
      (500 <= x -> c = match sel with SW_LV1 => 60 | SW_LV2 => 95 end) /\
      (r <= 2 -> rk = match sel with SW_LV1 => 90 | SW_LV2 => 50 end) /\
      (3 < r -> rk = match sel with SW_LV1 => 60 | SW_LV2 => 95 end) /\
      (x < 100 -> d = match sel with SW_LV1 => 90 | SW_LV2 => 50 end) /\
      (500 <= x -> d = match sel with SW_LV1 => 60 | SW_LV2 => 95 end)).
  { intros sel.
    destruct (capital_numeric_ok sel profile x Hcap) as (c & Hc & Hc1 & Hc2).
    destruct (risk_numeric_ok sel profile r Hrisk) as (rk & Hr & Hr1 & Hr2).
    destruct (diversification_numeric_ok sel profile x Hcap)
      as (d & Hd & Hd1 & Hd2).
    destruct (score_from_parts init_weights sel profile m c rk d Hc Hr Hd)
      as (total & sc & Hs & E1 & E2 & E3).
    exists total, sc, c, rk, d. repeat split; assumption. }
  destruct (Hscore SW_LV1)
    as (t1 & sc1 & c1 & r1 & d1 & H1 & Ec1 & Er1 & Ed1 & A1 & B1 & C1 & D1
        & E1 & F1).
  destruct (Hscore SW_LV2)
    as (t2 & sc2 & c2 & r2 & d2 & H2 & Ec2 & Er2 & Ed2 & A2 & B2 & C2 & D2
        & E2 & F2).
  destruct (select_best_unfold init_weights profile market_state
              t1 t2 sc1 sc2 H1 H2) as (dd & Hsel & _).
  pose proof (selector_score_bounds SW_LV1 profile m t1 sc1 H1)
    as (_ & _ & He1 & Hm1 & _).
  pose proof (selector_score_bounds SW_LV2 profile m t2 sc2 H2)
    as (_ & _ & He2 & Hm2 & _).
  destruct (selector_score_parts _ _ _ _ _ _ H1) as (_ & _ & _ & _ & _ & Ht1).
  destruct (selector_score_parts _ _ _ _ _ _ H2) as (_ & _ & _ & _ & _ & Ht2).
  pose proof (weighted_total_init sc1) as Hw1. rewrite <- Ht1 in Hw1.
  pose proof (weighted_total_init sc2) as Hw2. rewrite <- Ht2 in Hw2.
  rewrite Ec1, Er1, Ed1 in Hw1. rewrite Ec2, Er2, Ed2 in Hw2.
  split.
  - intros Hx Hr. exists dd. rewrite Hsel.
    assert (Hle : Qle_bool t2 t1 = true).
    { apply Qle_bool_iff. rewrite Hw1, Hw2.
      rewrite (A1 Hx), (C1 Hr), (E1 Hx), (A2 Hx), (C2 Hr), (E2 Hx). qlra. }
    now rewrite Hle.
  - intros Hx Hr. exists dd. rewrite Hsel.
    assert (Hle : Qle_bool t2 t1 = false).
    { apply not_true_iff_false. intros Hle. apply Qle_bool_iff in Hle.
      rewrite Hw1, Hw2 in Hle.
      rewrite (B1 Hx), (D1 Hr), (F1 Hx), (B2 Hx), (D2 Hr), (F2 Hx) in Hle.
      qlra. }
    now rewrite Hle.
Qed.

Lemma router_settled_profiles_witness :
  dict_get small_conservative_profile "total_capital" (VNum 0) = VNum 80 /\
  dict_get small_conservative_profile "risk_level" (VNum 3) = VNum 2 /\
  exists d, select_best_selector init_weights small_conservative_profile None
            = Ok (SW_LV1, d).
Proof.
  assert (H1 : dict_get small_conservative_profile "total_capital" (VNum 0)
               = VNum 80) by reflexivity.
  assert (H2 : dict_get small_conservative_profile "risk_level" (VNum 3)
               = VNum 2) by reflexivity.
  split; [exact H1|]. split; [exact H2|].
  apply (proj1 (router_settled_profiles small_conservative_profile None
                  80 2 H1 H2)); [reflexivity | apply Qle_refl].
Defined.

(** X25. [select_best_selector] returns when the capital of the profile
    is a number or absent and its risk level is a number, [None] or absent;
    it raises [TypeError] when the capital is present and is [None] or a
    string, or when the risk level is a string.  When it returns, the
    selected type is SW_LV1 exactly when the SW_LV1 score is at least the
    SW_LV2 score (a tie goes to SW_LV1), and the selected score is the
    larger of the two. *)
Theorem router_outcome (self : weights) (profile : dict)
    (market_state : option dict) :
  let capital := dict_get profile "total_capital" (VNum 0) in
  let risk := dict_get profile "risk_level" (VNum 3) in
  ((exists x, capital = VNum x) -> (forall s, risk <> VStr s) ->
   exists sel d,
     select_best_selector self profile market_state = Ok (sel, d) /\
     selected_type d = sel /\
     (sel = SW_LV1 <-> sw_lv2_score d <= sw_lv1_score d) /\
     sw_lv1_score d <= selected_score d /\
     sw_lv2_score d <= selected_score d /\
     (selected_score d = sw_lv1_score d \/
      selected_score d = sw_lv2_score d)) /\
  ((capital = VNone \/ (exists s, capital = VStr s) \/
    (exists s, risk = VStr s)) ->
   select_best_selector self profile market_state = Raise TypeError).
Proof.
  intros capital risk.
  set (m := match market_state with
            | None => [("volatility"%string, VStr "medium");
                       ("trend"%string, VStr "neutral")]
            | Some m => m
            end).
  split.
  - intros [x Hx] Hrisk.
    assert (Hscore : forall sel, exists total sc,
               calculate_selector_score self sel profile m = Ok (total, sc)).
    { intros sel.
      destruct (capital_numeric_ok sel profile x Hx) as (c & Hc & _).
      destruct (diversification_numeric_ok sel profile x Hx) as (d & Hd & _).
      assert (Hr : exists rk, _evaluate_risk_preference sel profile = Ok rk).
      { destruct risk as [|r|s] eqn:Er.
        - eexists. now apply risk_none_ok.
        - destruct (risk_numeric_ok sel profile r Er) as (rk & Hrk & _).
          eauto.
        - exfalso. now apply (Hrisk s). }
      destruct Hr as (rk & Hr).
      destruct (score_from_parts self sel profile m c rk d Hc Hr Hd)
        as (total & sc & Hs & _). eauto. }
    destruct (Hscore SW_LV1) as (t1 & sc1 & H1).
    destruct (Hscore SW_LV2) as (t2 & sc2 & H2).
    destruct (select_best_unfold self profile market_state t1 t2 sc1 sc2
                H1 H2) as (d & Hsel & Hty & Hsc & E1 & E2).
    exists (if Qle_bool t2 t1 then SW_LV1 else SW_LV2), d.
    split; [exact Hsel|]. split; [exact Hty|].
    rewrite E1, E2, Hsc.
    destruct (Qle_bool t2 t1) eqn:E.
    + apply Qle_bool_iff in E.
      split; [split; auto|]. split; [apply Qle_refl|]. split; [exact E|].
      now left.
    + assert (Hlt : t1 < t2).
      { apply Qnot_le_lt. intros Hle. apply Qle_bool_iff in Hle. congruence. }
      split; [split; [discriminate | intros Hle; exfalso; qlra]|].
      split; [qlra|]. split; [apply Qle_refl|]. now right.
  - intros Hbad. unfold select_best_selector. fold m.
    assert (H1 : calculate_selector_score self SW_LV1 profile m
                 = Raise TypeError).
    { assert (Hcb : capital = VNone \/ (exists s, capital = VStr s) ->
                    _evaluate_capital SW_LV1 profile = Raise TypeError).
      { unfold _evaluate_capital. fold capital.
        intros [-> | [s ->]]; reflexivity. }
      assert (Hrb : (exists s, risk = VStr s) ->
                    _evaluate_risk_preference SW_LV1 profile
                    = Raise TypeError).
      { unfold _evaluate_risk_preference. fold risk.
        intros [s ->]. reflexivity. }
      unfold calculate_selector_score.
      destruct Hbad as [E | [E | E]].
      - rewrite (Hcb (or_introl E)). reflexivity.
      - rewrite (Hcb (or_intror E)). reflexivity.
      - rewrite (Hrb E).
        destruct (_evaluate_capital SW_LV1 profile) as [c|err] eqn:Ec;
          [reflexivity|].
        unfold _evaluate_capital in Ec. fold capital in Ec.
        destruct capital as [|x|s']; try (injection Ec as <-; reflexivity).
        cbn [lt_num bind] in Ec.
        destruct (Qlt_bool x 100); [discriminate|].
        destruct (Qlt_bool x 500); discriminate. }
    rewrite H1. reflexivity.
Qed.

(** X26. The router reads three keys of the profile (total_capital,
    risk_level, investment_experience) and one key of the market state
    (volatility): two calls that agree on them give the same scores,
    whatever the trend and the other keys are; and no market state is the
    same as a market state of medium volatility. *)
Theorem router_reads_four_keys (self : weights) (sel : SelectorType)
    (profile profile' market_state market_state' : dict)
    (Hcap : dict_get profile "total_capital" (VNum 0)
            = dict_get profile' "total_capital" (VNum 0))
    (Hrisk : dict_get profile "risk_level" (VNum 3)
             = dict_get profile' "risk_level" (VNum 3))
    (Hexp : dict_get profile "investment_experience" (VStr "一般")
            = dict_get profile' "investment_experience" (VStr "一般"))
    (Hvol : dict_get market_state "volatility" (VStr "medium")
            = dict_get market_state' "volatility" (VStr "medium")) :
  calculate_selector_score self sel profile market_state
  = calculate_selector_score self sel profile' market_state' /\
  (dict_get market_state "volatility" (VStr "medium") = VStr "medium" ->
   forall sel' d,
     select_best_selector self profile None = Ok (sel', d) ->
     exists d',
       select_best_selector self profile (Some market_state) = Ok (sel', d') /\
       selected_score d' = selected_score d /\
       sw_lv1_score d' = sw_lv1_score d /\
       sw_lv2_score d' = sw_lv2_score d).
Proof.
  assert (Hagree : forall s p p' m m',
    dict_get p "total_capital" (VNum 0) = dict_get p' "total_capital" (VNum 0)
    -> dict_get p "risk_level" (VNum 3) = dict_get p' "risk_level" (VNum 3)
    -> dict_get p "investment_experience" (VStr "一般")
       = dict_get p' "investment_experience" (VStr "一般")
    -> dict_get m "volatility" (VStr "medium")
       = dict_get m' "volatility" (VStr "medium")
    -> calculate_selector_score self s p m
       = calculate_selector_score self s p' m').
  { intros s p p' m m' H1 H2 H3 H4.
    unfold calculate_selector_score, _evaluate_capital,
      _evaluate_risk_preference, _evaluate_investment_experience,
      _evaluate_market_state, _evaluate_diversification.
    rewrite H1, H2, H3, H4. reflexivity. }
  split; [now apply Hagree|].
  intros Hmed sel' d Hsel.
  unfold select_best_selector in *.
  set (m0 := [("volatility"%string, VStr "medium");
              ("trend"%string, VStr "neutral")]) in *.
  assert (Hm : forall s, calculate_selector_score self s profile market_state
                         = calculate_selector_score self s profile m0).
  { intros s. apply Hagree; try reflexivity. rewrite Hmed. reflexivity. }
  rewrite !Hm.
  destruct (calculate_selector_score self SW_LV1 profile m0)
    as [[t1 sc1]|]; [|discriminate].
  destruct (calculate_selector_score self SW_LV2 profile m0)
    as [[t2 sc2]|]; [|discriminate].
  cbn [bind] in *. injection Hsel as <- <-.
  eexists. split; [reflexivity|]. cbn. repeat split.
Qed.

Lemma router_reads_four_keys_witness :
  calculate_selector_score init_weights SW_LV2 small_conservative_profile
    [("trend"%string, VStr "up")]
  = calculate_selector_score init_weights SW_LV2
      [("total_capital"%string, VNum 80); ("risk_level"%string, VNum 2);
       ("investment_experience"%string, VStr "匮乏")]
      [("volatility"%string, VStr "medium")].
Proof.
  apply (router_reads_four_keys init_weights SW_LV2
           small_conservative_profile
           [("total_capital"%string, VNum 80); ("risk_level"%string, VNum 2);
            ("investment_experience"%string, VStr "匮乏")]
           [("trend"%string, VStr "up")]
           [("volatility"%string, VStr "medium")]
           eq_refl eq_refl eq_refl eq_refl).
Defined.

End RouterFacts.

(** ** The execution log *)

Section EnforcerFacts.
Import Enforcer.
Context {payload : Type}.

Lemma called_In (func : string) (fs : list string) :
  called func fs = true <-> In func fs.
Proof.
  unfold called. rewrite existsb_exists. split.
  - intros [x [Hx E]]. apply String.eqb_eq in E. now subst.
  - intros H. exists func. split; [exact H | apply String.eqb_refl].
Qed.

(** X27. [validate_execution] accepts a log exactly when it records a call
    of the profile parser, a call of the selector router and a call of at
    least one of the two screeners, in any order; the empty log is
    rejected, and a log that is accepted stays accepted after any further
    [log_execution]. *)
Theorem validation_needs_three_calls
    (execution_log : list (@log_entry payload)) :
  let names := map function execution_log in
  (validate_execution execution_log = true <->
     In "user_profile_parser.parse_user_profile"%string names /\
     In "intelligent_selector_router.intelligent_select"%string names /\
     (In "etf_selector.select_best_sw_lv1_indices_by_valuation"%string names
      \/ In "sw_lv2_selector.select_best_sw_lv2_indices_by_valuation"%string
            names)) /\
  validate_execution (@nil (@log_entry payload)) = false /\
  (forall function_name d,
     validate_execution execution_log = true ->
     validate_execution (log_execution execution_log function_name d)
     = true).
Proof.
  intros names.
  assert (Hiff : forall log : list (@log_entry payload),
    validate_execution log = true <->
    In "user_profile_parser.parse_user_profile"%string (map function log) /\
    In "intelligent_selector_router.intelligent_select"%string
       (map function log) /\
    (In "etf_selector.select_best_sw_lv1_indices_by_valuation"%string
        (map function log)
     \/ In "sw_lv2_selector.select_best_sw_lv2_indices_by_valuation"%string
           (map function log))).
  { intros log. unfold validate_execution. cbn [forallb existsb].
    rewrite <- !called_In.
    destruct (called "user_profile_parser.parse_user_profile" _);
      destruct (called "intelligent_selector_router.intelligent_select" _);
      destruct (called "etf_selector.select_best_sw_lv1_indices_by_valuation"
                       _);
      destruct (called
                  "sw_lv2_selector.select_best_sw_lv2_indices_by_valuation" _);
      simpl; intuition discriminate. }
  split; [apply Hiff|]. split; [reflexivity|].
  intros fname d Hv. apply Hiff. apply Hiff in Hv.
  unfold log_execution. rewrite map_app.
  destruct Hv as (H1 & H2 & H3).
  repeat split; try (apply in_or_app; now left).
  destruct H3 as [H3 | H3]; [left | right]; apply in_or_app; now left.
Qed.

End EnforcerFacts.

Section PercentileOrder.
Import Py Screener ScreenerSpec.
Local Open Scope Q_scope.

Lemma filter_length_mono {A : Type} (f g : A -> bool) (l : list A) :
  (forall x, f x = true -> g x = true) ->
  (length (filter f l) <= length (filter g l))%nat.
Proof.
  intros H. induction l as [|x l IH]; simpl; [lia|].
  destruct (f x) eqn:Ef.
  - rewrite (H x Ef). simpl. lia.
  - destruct (g x); simpl; lia.
Qed.

Lemma filter_none {A : Type} (f : A -> bool) (l : list A) :
  (forall x, In x l -> f x = false) -> filter f l = [].
Proof.
  induction l as [|x l IH]; intros H; simpl; [reflexivity|].
  rewrite (H x (or_introl eq_refl)). apply IH.
  intros y Hy. apply H. now right.
Qed.

Lemma Qdiv_nat_mono (a b n : nat) :
  (a <= b)%nat ->
  inject_Z (Z.of_nat a) / inject_Z (Z.of_nat n)
  <= inject_Z (Z.of_nat b) / inject_Z (Z.of_nat n).
Proof.
  intros Hab. destruct n as [|n].
  - unfold Qdiv. change (/ inject_Z (Z.of_nat 0)) with 0.
    rewrite !Qmult_0_r. apply Qle_refl.
  - assert (Hn : 0 < inject_Z (Z.of_nat (S n)))
      by (rewrite <- (Zlt_Qlt 0); lia).
    apply Qle_shift_div_l; [exact Hn|].
    setoid_replace (inject_Z (Z.of_nat a) / inject_Z (Z.of_nat (S n))
                    * inject_Z (Z.of_nat (S n)))
      with (inject_Z (Z.of_nat a)) by (field; qlra).
    rewrite <- Zle_Qle. lia.
Qed.

(** X28. Against a fixed history the PE percentile never falls when the
    latest PE rises; it is 0 when no positive PE of the history is below
    the latest PE. *)
Theorem pe_percentile_monotone (pe1 pe2 : Q) (pe_history : list hist_item)
    (Hle : pe1 <= pe2) :
  match calculate_pe_percentile (Some pe1) pe_history,
        calculate_pe_percentile (Some pe2) pe_history with
  | Some p1, Some p2 => p1 <= p2
  | None, None => True
  | _, _ => False
  end /\
  (Forall (fun h => 0 < h_pe h -> pe1 <= h_pe h) pe_history ->
   forall p, calculate_pe_percentile (Some pe1) pe_history = Some p ->
             p == 0).
Proof.
  unfold calculate_pe_percentile.
  destruct pe_history as [|h0 hist]; [split; [exact I | discriminate]|].
  set (pe_values := filter (fun v => Qlt_bool 0 v) (map h_pe (h0 :: hist))).
  assert (Hvals : forall v, In v pe_values ->
                            exists h, In h (h0 :: hist) /\ h_pe h = v /\ 0 < v).
  { intros v Hv. unfold pe_values in Hv. apply filter_In in Hv.
    destruct Hv as [Hin Hpos]. apply in_map_iff in Hin.
    destruct Hin as [h [<- Hh]]. exists h.
    apply Qlt_bool_iff in Hpos. auto. }
  destruct pe_values as [|v vs] eqn:E; [split; [exact I | discriminate]|].
  split.
  - unfold fraction_below. apply Qdiv_nat_mono, filter_length_mono.
    intros x Hx. apply Qlt_bool_iff in Hx. apply Qlt_bool_iff. qlra.
  - intros Hall p Hp. injection Hp as <-. unfold fraction_below.
    assert (Hnone : filter (fun x => Qlt_bool x pe1) (v :: vs) = []).
    { apply filter_none. intros x Hx.
      destruct (Hvals x Hx) as (h & Hh & <- & Hpos).
      rewrite Forall_forall in Hall. specialize (Hall h Hh Hpos).
      now apply Qlt_bool_false_iff. }
    rewrite Hnone. reflexivity.
Qed.

Lemma pe_percentile_monotone_witness :
  20 <= 21 /\
  match calculate_pe_percentile (Some 20) steady_history,
        calculate_pe_percentile (Some 21) steady_history with
  | Some p1, Some p2 => p1 <= p2
  | None, None => True
  | _, _ => False
  end.
Proof.
  assert (H : 20 <= 21) by (vm_compute; congruence).
  split; [exact H|].
  exact (proj1 (pe_percentile_monotone 20 21 steady_history H)).
Defined.

End PercentileOrder.

Section DecliningRun.
Import Py Screener ScreenerSpec.
Local Open Scope Q_scope.

(** X29. [check_valuation_declining] returns the length of the leading
    run of the newest-first history in which each month is strictly below
    the month before it: it is the only [n] such that the first [n] pairs
    of neighbours decline and the next pair, if there is one, does not. *)
Theorem declining_months_is_leading_run (pe_history : list hist_item)
    (n : nat) :
  let pe i := h_pe (nth i pe_history (item 0 0 0)) in
  n = check_valuation_declining pe_history <->
  (forall i, (i < n)%nat ->
     (S i < length pe_history)%nat /\ pe i < pe (S i)) /\
  ((S n < length pe_history)%nat -> ~ pe n < pe (S n)).
Proof.
  intros pe.
  pose proof (check_valuation_declining_run pe_history) as Hrun.
  cbv zeta in Hrun. fold pe in Hrun. destruct Hrun as [Hrun1 Hrun2].
  split.
  - intros ->. split; assumption.
  - intros [Hn1 Hn2].
    destruct (Nat.lt_trichotomy n (check_valuation_declining pe_history))
      as [Hlt | [Heq | Hgt]]; [|exact Heq|].
    + exfalso. destruct (Hrun1 n Hlt) as [Hlen Hdec].
      exact (Hn2 Hlen Hdec).
    + exfalso. destruct (Hn1 _ Hgt) as [Hlen Hdec].
      exact (Hrun2 Hlen Hdec).
Qed.

End DecliningRun.
